(** * Iris indicator: the render engine and the indicator controller

    A shallow embedding of [src/webgl-engine.ts] and [src/iris-indicator.ts].

    JavaScript numbers are modelled as exact rationals ([Q]); the engine's
    blend-ratio computation, which starts from [Infinity], works on the
    extended type [JS.number].  The WebGL context is modelled by the part of
    its state that the engine reads back or that decides what a draw call
    reads and writes: framebuffer and texture bindings, the uniforms, and a
    log of draw calls and of storage allocations. *)

From Stdlib Require Import QArith Qround Qabs Qminmax ZArith List Bool Lia Lqa.
Import ListNotations.

Notation "x |> f" := (f x) (at level 68, left associativity, only parsing).

(** ** JavaScript numbers *)

Module JS.

(** A [number] is a finite value, one of the two infinities, or NaN.
    Signed zeros are not distinguished. *)
Inductive number : Type :=
| Fin (q : Q)
| PosInf
| NegInf
| NaN.

Definition Qltb (a b : Q) : bool := negb (Qle_bool b a).

(** [a === b] on numbers. *)
Definition strict_eq (a b : number) : bool :=
  match a, b with
  | Fin x, Fin y => Qeq_bool x y
  | PosInf, PosInf => true
  | NegInf, NegInf => true
  | _, _ => false
  end.

(** [a < b] on numbers; every comparison with NaN is false. *)
Definition lt (a b : number) : bool :=
  match a, b with
  | NaN, _ | _, NaN => false
  | Fin x, Fin y => Qltb x y
  | NegInf, NegInf => false
  | NegInf, _ => true
  | _, NegInf => false
  | PosInf, _ => false
  | Fin _, PosInf => true
  end.

(** [a / b]. *)
Definition div (a b : number) : number :=
  match a, b with
  | NaN, _ | _, NaN => NaN
  | Fin x, Fin y =>
      if Qeq_bool y 0 then
        if Qeq_bool x 0 then NaN
        else if Qltb 0 x then PosInf else NegInf
      else Fin (x / y)
  | Fin _, _ => Fin 0
  | PosInf, Fin y => if Qltb y 0 then NegInf else PosInf
  | NegInf, Fin y => if Qltb y 0 then PosInf else NegInf
  | _, _ => NaN
  end.

(** [Math.min(a, b)] and [Math.max(a, b)]: NaN if either argument is. *)
Definition min (a b : number) : number :=
  match a, b with
  | NaN, _ | _, NaN => NaN
  | _, _ => if lt b a then b else a
  end.

Definition max (a b : number) : number :=
  match a, b with
  | NaN, _ | _, NaN => NaN
  | _, _ => if lt a b then b else a
  end.

(** [Math.PI]: the double nearest to pi, which is this rational. *)
Definition PI : Q := 884279719003555 # 281474976710656.

(** [Math.round] on a rational: the nearest integer, halves upwards. *)
Definition round (q : Q) : Z := Qfloor (q + (1 # 2)).

End JS.

(** ** Four-element tuples ([Vec4<T>] of [src/index.ts]) *)

Record Vec4 (A : Type) : Type := vec4 { vx : A; vy : A; vz : A; vw : A }.
Arguments vec4 {A} _ _ _ _.
Arguments vx {A} _.
Arguments vy {A} _.
Arguments vz {A} _.
Arguments vw {A} _.

(** This is hardcoded in the fragment shader. *)
Definition MAX_SUPPORTED_SEGMENTS : nat := 4.

(** [v[i]]; every index the source uses is below [MAX_SUPPORTED_SEGMENTS]. *)
Definition vnth {A} (v : Vec4 A) (i : nat) : A :=
  match i with
  | 0%nat => vx v
  | 1%nat => vy v
  | 2%nat => vz v
  | _ => vw v
  end.

(** [v[i] = a]. *)
Definition vset {A} (v : Vec4 A) (i : nat) (a : A) : Vec4 A :=
  match i with
  | 0%nat => vec4 a (vy v) (vz v) (vw v)
  | 1%nat => vec4 (vx v) a (vz v) (vw v)
  | 2%nat => vec4 (vx v) (vy v) a (vw v)
  | 3%nat => vec4 (vx v) (vy v) (vz v) a
  | _ => v
  end.

(** The elements in iteration order ([for ... of], [map], [reduce]). *)
Definition vlist {A} (v : Vec4 A) : list A := [vx v; vy v; vz v; vw v].

Definition vmap {A B} (f : A -> B) (v : Vec4 A) : Vec4 B :=
  vec4 (f (vx v)) (f (vy v)) (f (vz v)) (f (vw v)).

(** The tuple whose element [i] is [f i] (a loop pushing four elements). *)
Definition vbuild {A} (f : nat -> A) : Vec4 A :=
  vec4 (f 0%nat) (f 1%nat) (f 2%nat) (f 3%nat).

(** ** The WebGL context *)

Module GL.

Inductive FramebufferTarget := FRAMEBUFFER | READ_FRAMEBUFFER | DRAW_FRAMEBUFFER.

(** The framebuffers and textures the engine creates: two ping-pong slots
    and the scene target with its multisampled twin. *)
Inductive Framebuffer :=
| PingpongFb (slot : nat)
| SceneFb
| SceneFbMSAA.

Inductive Texture :=
| PingpongTex (slot : nat)
| SceneTex.

(** Enum that must be defined the same way in the WebGL code and the
    shaders. *)
Inductive FragmentPass :=
| FRAGMENT_PASS_PASSTHROUGH
| FRAGMENT_PASS_NORMAL
| FRAGMENT_PASS_BLUR
| FRAGMENT_PASS_COMPOSITE
| FRAGMENT_PASS_TONEMAP
| FRAGMENT_PASS_BRIGHTNESS.

Definition pass_eqb (p q : FragmentPass) : bool :=
  match p, q with
  | FRAGMENT_PASS_PASSTHROUGH, FRAGMENT_PASS_PASSTHROUGH
  | FRAGMENT_PASS_NORMAL, FRAGMENT_PASS_NORMAL
  | FRAGMENT_PASS_BLUR, FRAGMENT_PASS_BLUR
  | FRAGMENT_PASS_COMPOSITE, FRAGMENT_PASS_COMPOSITE
  | FRAGMENT_PASS_TONEMAP, FRAGMENT_PASS_TONEMAP
  | FRAGMENT_PASS_BRIGHTNESS, FRAGMENT_PASS_BRIGHTNESS => true
  | _, _ => false
  end.

(** What one [drawArrays] reads and writes: the pass the shader runs, the
    framebuffer drawn into ([None] is the canvas), the textures on units 0
    and 1, the blur direction, and the vertex count. *)
Record DrawCall := {
  dc_pass : FragmentPass;
  dc_target : option Framebuffer;
  dc_unit0 : option Texture;
  dc_unit1 : option Texture;
  dc_horizontal : nat;
  dc_count : nat
}.

Inductive Storage :=
| TextureStorage (t : Texture)
| RenderbufferMSAA.

(** One [texImage2D] or [renderbufferStorageMultisample]. *)
Record Allocation := {
  al_storage : Storage;
  al_width : Z;
  al_height : Z
}.

(** The uniforms of one element of [u_segments]. *)
Record SegmentUniform := {
  su_color : Q * Q * Q * Q;
  su_ratio : JS.number
}.

Record Context := {
  drawFramebuffer : option Framebuffer;
  readFramebuffer : option Framebuffer;
  activeUnit : nat;
  textureUnits : nat -> option Texture;
  renderbufferBound : bool;
  u_pass : FragmentPass;
  u_blur_horizontal : nat;
  u_resolution : Z * Z;
  u_blendRatio : JS.number;
  u_segments : Vec4 SegmentUniform;
  drawCalls : list DrawCall;
  allocations : list Allocation
}.

(** A context as [getContext] returns it. *)
Definition fresh : Context := {|
  drawFramebuffer := None;
  readFramebuffer := None;
  activeUnit := 0;
  textureUnits := fun _ => None;
  renderbufferBound := false;
  u_pass := FRAGMENT_PASS_PASSTHROUGH;
  u_blur_horizontal := 0;
  u_resolution := (0, 0)%Z;
  u_blendRatio := JS.Fin 0;
  u_segments :=
    vbuild (fun _ => {| su_color := (0, 0, 0, 0); su_ratio := JS.Fin 0 |});
  drawCalls := [];
  allocations := []
|}.

Definition bindFramebuffer (t : FramebufferTarget) (fb : option Framebuffer)
    (c : Context) : Context :=
  {| drawFramebuffer :=
       match t with READ_FRAMEBUFFER => drawFramebuffer c | _ => fb end;
     readFramebuffer :=
       match t with DRAW_FRAMEBUFFER => readFramebuffer c | _ => fb end;
     activeUnit := activeUnit c;
     textureUnits := textureUnits c;
     renderbufferBound := renderbufferBound c;
     u_pass := u_pass c;
     u_blur_horizontal := u_blur_horizontal c;
     u_resolution := u_resolution c;
     u_blendRatio := u_blendRatio c;
     u_segments := u_segments c;
     drawCalls := drawCalls c;
     allocations := allocations c |}.

(** [gl.activeTexture(gl.TEXTURE0 + n)]. *)
Definition activeTexture (n : nat) (c : Context) : Context :=
  {| drawFramebuffer := drawFramebuffer c;
     readFramebuffer := readFramebuffer c;
     activeUnit := n;
     textureUnits := textureUnits c;
     renderbufferBound := renderbufferBound c;
     u_pass := u_pass c;
     u_blur_horizontal := u_blur_horizontal c;
     u_resolution := u_resolution c;
     u_blendRatio := u_blendRatio c;
     u_segments := u_segments c;
     drawCalls := drawCalls c;
     allocations := allocations c |}.

(** [gl.bindTexture(gl.TEXTURE_2D, t)]: binds on the active unit. *)
Definition bindTexture (t : option Texture) (c : Context) : Context :=
  {| drawFramebuffer := drawFramebuffer c;
     readFramebuffer := readFramebuffer c;
     activeUnit := activeUnit c;
     textureUnits :=
       (fun unit =>
          if (unit =? activeUnit c)%nat then t else textureUnits c unit);
     renderbufferBound := renderbufferBound c;
     u_pass := u_pass c;
     u_blur_horizontal := u_blur_horizontal c;
     u_resolution := u_resolution c;
     u_blendRatio := u_blendRatio c;
     u_segments := u_segments c;
     drawCalls := drawCalls c;
     allocations := allocations c |}.

(** [gl.bindRenderbuffer(gl.RENDERBUFFER, rb)]; the engine has one. *)
Definition bindRenderbuffer (bound : bool) (c : Context) : Context :=
  {| drawFramebuffer := drawFramebuffer c;
     readFramebuffer := readFramebuffer c;
     activeUnit := activeUnit c;
     textureUnits := textureUnits c;
     renderbufferBound := bound;
     u_pass := u_pass c;
     u_blur_horizontal := u_blur_horizontal c;
     u_resolution := u_resolution c;
     u_blendRatio := u_blendRatio c;
     u_segments := u_segments c;
     drawCalls := drawCalls c;
     allocations := allocations c |}.

Definition uniform_pass (p : FragmentPass) (c : Context) : Context :=
  {| drawFramebuffer := drawFramebuffer c;
     readFramebuffer := readFramebuffer c;
     activeUnit := activeUnit c;
     textureUnits := textureUnits c;
     renderbufferBound := renderbufferBound c;
     u_pass := p;
     u_blur_horizontal := u_blur_horizontal c;
     u_resolution := u_resolution c;
     u_blendRatio := u_blendRatio c;
     u_segments := u_segments c;
     drawCalls := drawCalls c;
     allocations := allocations c |}.

Definition uniform_blur_horizontal (h : nat) (c : Context) : Context :=
  {| drawFramebuffer := drawFramebuffer c;
     readFramebuffer := readFramebuffer c;
     activeUnit := activeUnit c;
     textureUnits := textureUnits c;
     renderbufferBound := renderbufferBound c;
     u_pass := u_pass c;
     u_blur_horizontal := h;
     u_resolution := u_resolution c;
     u_blendRatio := u_blendRatio c;
     u_segments := u_segments c;
     drawCalls := drawCalls c;
     allocations := allocations c |}.

Definition uniform_resolution (w h : Z) (c : Context) : Context :=
  {| drawFramebuffer := drawFramebuffer c;
     readFramebuffer := readFramebuffer c;
     activeUnit := activeUnit c;
     textureUnits := textureUnits c;
     renderbufferBound := renderbufferBound c;
     u_pass := u_pass c;
     u_blur_horizontal := u_blur_horizontal c;
     u_resolution := (w, h);
     u_blendRatio := u_blendRatio c;
     u_segments := u_segments c;
     drawCalls := drawCalls c;
     allocations := allocations c |}.

Definition uniform_blendRatio (r : JS.number) (c : Context) : Context :=
  {| drawFramebuffer := drawFramebuffer c;
     readFramebuffer := readFramebuffer c;
     activeUnit := activeUnit c;
     textureUnits := textureUnits c;
     renderbufferBound := renderbufferBound c;
     u_pass := u_pass c;
     u_blur_horizontal := u_blur_horizontal c;
     u_resolution := u_resolution c;
     u_blendRatio := r;
     u_segments := u_segments c;
     drawCalls := drawCalls c;
     allocations := allocations c |}.

Definition with_segments (s : Vec4 SegmentUniform) (c : Context) : Context :=
  {| drawFramebuffer := drawFramebuffer c;
     readFramebuffer := readFramebuffer c;
     activeUnit := activeUnit c;
     textureUnits := textureUnits c;
     renderbufferBound := renderbufferBound c;
     u_pass := u_pass c;
     u_blur_horizontal := u_blur_horizontal c;
     u_resolution := u_resolution c;
     u_blendRatio := u_blendRatio c;
     u_segments := s;
     drawCalls := drawCalls c;
     allocations := allocations c |}.

(** [gl.uniform4fv(segmentLocs[i].color, rgba)]. *)
Definition uniform_segment_color (i : nat) (rgba : Q * Q * Q * Q)
    (c : Context) : Context :=
  with_segments
    (vset (u_segments c) i
       {| su_color := rgba; su_ratio := su_ratio (vnth (u_segments c) i) |})
    c.

(** [gl.uniform1f(segmentLocs[i].ratio, ratio)]. *)
Definition uniform_segment_ratio (i : nat) (ratio : JS.number)
    (c : Context) : Context :=
  with_segments
    (vset (u_segments c) i
       {| su_color := su_color (vnth (u_segments c) i); su_ratio := ratio |})
    c.

(** [gl.drawArrays(gl.TRIANGLES, 0, count)]: logged with what it reads and
    writes. *)
Definition drawArrays (count : nat) (c : Context) : Context :=
  {| drawFramebuffer := drawFramebuffer c;
     readFramebuffer := readFramebuffer c;
     activeUnit := activeUnit c;
     textureUnits := textureUnits c;
     renderbufferBound := renderbufferBound c;
     u_pass := u_pass c;
     u_blur_horizontal := u_blur_horizontal c;
     u_resolution := u_resolution c;
     u_blendRatio := u_blendRatio c;
     u_segments := u_segments c;
     drawCalls :=
       drawCalls c ++
       [{| dc_pass := u_pass c;
           dc_target := drawFramebuffer c;
           dc_unit0 := textureUnits c 0%nat;
           dc_unit1 := textureUnits c 1%nat;
           dc_horizontal := u_blur_horizontal c;
           dc_count := count |}];
     allocations := allocations c |}.

Definition allocate (a : Allocation) (c : Context) : Context :=
  {| drawFramebuffer := drawFramebuffer c;
     readFramebuffer := readFramebuffer c;
     activeUnit := activeUnit c;
     textureUnits := textureUnits c;
     renderbufferBound := renderbufferBound c;
     u_pass := u_pass c;
     u_blur_horizontal := u_blur_horizontal c;
     u_resolution := u_resolution c;
     u_blendRatio := u_blendRatio c;
     u_segments := u_segments c;
     drawCalls := drawCalls c;
     allocations := allocations c ++ [a] |}.

(** [gl.texImage2D(gl.TEXTURE_2D, 0, fmt, w, h, 0, ...)]: storage for the
    texture bound on the active unit (an error, and no storage, without
    one). *)
Definition texImage2D (w h : Z) (c : Context) : Context :=
  match textureUnits c (activeUnit c) with
  | Some t =>
      allocate {| al_storage := TextureStorage t;
                  al_width := w; al_height := h |} c
  | None => c
  end.

(** [gl.renderbufferStorageMultisample(gl.RENDERBUFFER, samples, fmt, w, h)]. *)
Definition renderbufferStorageMultisample (w h : Z) (c : Context) : Context :=
  if renderbufferBound c then
    allocate {| al_storage := RenderbufferMSAA;
                al_width := w; al_height := h |} c
  else c.

(** Calls that leave the modelled part of the context as it is: clearing,
    the vertex array and buffer contents, the transformation matrix, the
    viewport, the multisample resolve and framebuffer attachments. *)
Definition clear (c : Context) : Context := c.
Definition bindVertexArray (c : Context) : Context := c.
Definition uniformMatrix3fv (c : Context) : Context := c.
Definition bufferData (c : Context) : Context := c.
Definition viewport (w h : Z) (c : Context) : Context := c.
Definition blitFramebuffer (w h : Z) (c : Context) : Context := c.
Definition framebufferTexture2D (c : Context) : Context := c.
Definition framebufferRenderbuffer (c : Context) : Context := c.
Definition texParameteri (c : Context) : Context := c.

End GL.

(** ** The render engine ([src/webgl-engine.ts]) *)

Module WebGLEngine.
Import GL.

Record Segment := {
  color : Q * Q * Q * Q;
  ratio : JS.number
}.

(** The engine: its context, the CSS size of the canvas the context
    belongs to ([gl.canvas.clientWidth], [gl.canvas.clientHeight]), and
    the settings. *)
Record t := {
  gl : Context;
  clientWidth : Z;
  clientHeight : Z;
  bloomEnabled : bool;
  nBloomPasses : nat;
  textureSizeModifier : Q;
  msaaEnabled : bool;
  hdrFactor : Q
}.

Definition with_gl (f : Context -> Context) (e : t) : t :=
  {| gl := f (gl e);
     clientWidth := clientWidth e;
     clientHeight := clientHeight e;
     bloomEnabled := bloomEnabled e;
     nBloomPasses := nBloomPasses e;
     textureSizeModifier := textureSizeModifier e;
     msaaEnabled := msaaEnabled e;
     hdrFactor := hdrFactor e |}.

(** The two ping-pong slots and the scene target. *)
Definition pingpong_fb (i : nat) : Framebuffer := PingpongFb i.
Definition pingpong_rbuf (i : nat) : Texture := PingpongTex i.
Definition scenetarget_fb : Framebuffer := SceneFb.
Definition scenetarget_scene : Texture := SceneTex.
Definition scenetarget_fbMSAA : Framebuffer := SceneFbMSAA.

(** Returns the wanted texture size, which is not the canvas size. *)
Definition textureSize (e : t) : Z * Z :=
  (Qceiling (inject_Z (clientWidth e) * textureSizeModifier e),
   Qceiling (inject_Z (clientHeight e) * textureSizeModifier e)).

(** Creates a texture with some defaults; it is left bound. *)
Definition createTexture (texture : Texture) (c : Context) : Context :=
  c |> bindTexture (Some texture)
    |> texParameteri |> texParameteri |> texParameteri |> texParameteri.

(** Set a given framebuffer including a viewport setting. *)
Definition setFramebuffer (fbo : option Framebuffer) (width height : Z)
    (variant : FramebufferTarget) (c : Context) : Context :=
  c |> bindFramebuffer variant fbo
    |> uniform_resolution width height
    |> viewport width height.

(** Writes the coordinates of a full-screen rectangle into the vertex
    buffer. *)
Definition setFramebufferRectangle (width height : Z) (c : Context) : Context :=
  c |> bufferData.

(** [new WebGLEngine(gl)] on a canvas of the given CSS size, with
    [window.devicePixelRatio = dpr].  Compiling the shaders, looking up the
    uniform locations and configuring the vertex attribute leave the
    modelled part of the context as it is. *)
Definition constructor (width height : Z) (dpr : Q) : t :=
  let e0 := {| gl := fresh;
               clientWidth := width;
               clientHeight := height;
               bloomEnabled := true;
               nBloomPasses := 32;
               textureSizeModifier := Qmin dpr 2;
               msaaEnabled := true;
               hdrFactor := 10 |} in
  let '(cWidth, cHeight) := textureSize e0 in
  let init_pingpong (c : Context) (i : nat) : Context :=
    c |> bindFramebuffer FRAMEBUFFER (Some (pingpong_fb i))
      |> bindTexture (Some (pingpong_rbuf i))
      |> texImage2D cWidth cHeight
      |> framebufferTexture2D in
  with_gl (fun c =>
    c |> bindVertexArray
      |> createTexture (pingpong_rbuf 0)
      |> createTexture (pingpong_rbuf 1)
      |> (fun c => fold_left init_pingpong (seq 0 2) c)
      |> createTexture scenetarget_scene
      |> bindFramebuffer FRAMEBUFFER (Some scenetarget_fbMSAA)
      |> bindRenderbuffer true
      |> renderbufferStorageMultisample cWidth cHeight
      |> framebufferRenderbuffer
      |> bindFramebuffer FRAMEBUFFER (Some scenetarget_fb)
      |> bindTexture (Some scenetarget_scene)
      |> texImage2D cWidth cHeight
      |> framebufferTexture2D
      |> bindFramebuffer FRAMEBUFFER None
      |> bindTexture None) e0.

(** Enables or disables bloom effect. *)
Definition setBloomEnabled (enabled : bool) (e : t) : t :=
  {| gl := gl e;
     clientWidth := clientWidth e;
     clientHeight := clientHeight e;
     bloomEnabled := enabled;
     nBloomPasses := nBloomPasses e;
     textureSizeModifier := textureSizeModifier e;
     msaaEnabled := msaaEnabled e;
     hdrFactor := hdrFactor e |}.

(** Sets the intensity of bloom to be applied. *)
Definition setBloomIntensity (intensity : nat) (e : t) : t :=
  {| gl := gl e;
     clientWidth := clientWidth e;
     clientHeight := clientHeight e;
     bloomEnabled := bloomEnabled e;
     nBloomPasses := intensity * 8;
     textureSizeModifier := textureSizeModifier e;
     msaaEnabled := msaaEnabled e;
     hdrFactor := hdrFactor e |}.

(** Enables or disables MSAA. *)
Definition setMSAAEnabled (enabled : bool) (e : t) : t :=
  {| gl := gl e;
     clientWidth := clientWidth e;
     clientHeight := clientHeight e;
     bloomEnabled := bloomEnabled e;
     nBloomPasses := nBloomPasses e;
     textureSizeModifier := textureSizeModifier e;
     msaaEnabled := enabled;
     hdrFactor := hdrFactor e |}.

(** The storage that [onResize] allocates, in order: both ping-pong
    textures, the scene texture, the multisampled renderbuffer. *)
Definition resize_allocations (size : Z * Z) : list Allocation :=
  let '(w, h) := size in
  [ {| al_storage := TextureStorage (pingpong_rbuf 0);
       al_width := w; al_height := h |};
    {| al_storage := TextureStorage (pingpong_rbuf 1);
       al_width := w; al_height := h |};
    {| al_storage := TextureStorage scenetarget_scene;
       al_width := w; al_height := h |};
    {| al_storage := RenderbufferMSAA; al_width := w; al_height := h |} ].

(** Whenever the canvas size changes, this routine re-configures all
    textures and framebuffers. *)
Definition onResize (e : t) : t :=
  let '(cWidth, cHeight) := textureSize e in
  let resize_pingpong (c : Context) (rbuf : Texture) : Context :=
    c |> bindTexture (Some rbuf) |> texImage2D cWidth cHeight in
  with_gl (fun c =>
    c |> (fun c =>
            fold_left resize_pingpong [pingpong_rbuf 0; pingpong_rbuf 1] c)
      |> bindTexture (Some scenetarget_scene)
      |> texImage2D cWidth cHeight
      |> bindTexture None
      |> bindRenderbuffer true
      |> renderbufferStorageMultisample cWidth cHeight
      |> bindRenderbuffer false) e.

(** Determines how large textures are being rendered. *)
Definition setTextureSizeModifier (modifier : Q) (e : t) : t :=
  onResize
    {| gl := gl e;
       clientWidth := clientWidth e;
       clientHeight := clientHeight e;
       bloomEnabled := bloomEnabled e;
       nBloomPasses := nBloomPasses e;
       textureSizeModifier := Qmin modifier 2;
       msaaEnabled := msaaEnabled e;
       hdrFactor := hdrFactor e |}.

(** The scan of [setSegments] for the smallest nonzero ratio, starting
    from [Infinity]. *)
Definition smallestRatio (segments : Vec4 Segment) : JS.number :=
  fold_left
    (fun blendRatio seg =>
       if JS.strict_eq (ratio seg) (JS.Fin 0) then blendRatio
       else if JS.lt (ratio seg) blendRatio then ratio seg
       else blendRatio)
    (vlist segments) JS.PosInf.

(** The blend ratio [setSegments] uploads: half of the smallest ratio,
    clamped between 1% and 10%. *)
Definition blendRatioOf (segments : Vec4 Segment) : JS.number :=
  let blendRatio := smallestRatio segments in
  let blendRatio := JS.div blendRatio (JS.Fin 2) in
  JS.max (JS.min blendRatio (JS.Fin 0.1)) (JS.Fin 0.01).

(** Sets the color segments. *)
Definition setSegments (segments : Vec4 Segment) (e : t) : t :=
  let upload (c : Context) (i : nat) : Context :=
    let seg := vnth segments (i mod 4) in
    let '(r, g, b, a) := color seg in
    let r := r * hdrFactor e in
    let g := g * hdrFactor e in
    let b := b * hdrFactor e in
    c |> uniform_segment_color i (r, g, b, a)
      |> uniform_segment_ratio i (ratio seg) in
  with_gl (fun c =>
    c |> (fun c => fold_left upload (seq 0 MAX_SUPPORTED_SEGMENTS) c)
      |> uniform_blendRatio (blendRatioOf segments)) e.

(** One iteration of the blur loop of [bloomPass]; the state is the
    context and [lastActiveTexture]. *)
Definition blurIteration (cWidth cHeight : Z) (st : Context * nat)
    (pass : nat) : Context * nat :=
  (fst st
     |> uniform_blur_horizontal (pass mod 2)
     |> setFramebuffer (Some (pingpong_fb (pass mod 2))) cWidth cHeight
          FRAMEBUFFER
     |> drawArrays 6
     |> bindTexture (Some (pingpong_rbuf (pass mod 2))),
   (pass mod 2)%nat).

(** Performs a blur pass across the source texture with the "ping pong"
    strategy; returns the texture to which the bloom has been applied. *)
Definition bloomPass (sourceTexture : Texture) (nPasses : nat) (e : t)
    : t * Texture :=
  let '(cWidth, cHeight) := textureSize e in
  let c := gl e in
  let c :=
    c |> setFramebufferRectangle cWidth cHeight
      |> setFramebuffer (Some (pingpong_fb 1)) cWidth cHeight FRAMEBUFFER
      |> bindTexture (Some sourceTexture)
      |> uniform_pass FRAGMENT_PASS_BRIGHTNESS
      |> drawArrays 6
      |> bindTexture (Some (pingpong_rbuf 1))
      |> uniform_pass FRAGMENT_PASS_BLUR in
  let '(c, lastActiveTexture) :=
    fold_left (blurIteration cWidth cHeight) (seq 0 (nPasses * 2))
      (c, 0%nat) in
  let c :=
    c |> setFramebuffer (Some (pingpong_fb (Nat.lxor lastActiveTexture 1)))
           cWidth cHeight FRAMEBUFFER
      |> uniform_pass FRAGMENT_PASS_COMPOSITE
      |> bindTexture (Some sourceTexture)
      |> activeTexture 1
      |> bindTexture (Some (pingpong_rbuf lastActiveTexture))
      |> drawArrays 6
      |> bindTexture None
      |> activeTexture 0
      |> bindTexture None
      |> bindFramebuffer FRAMEBUFFER None in
  (with_gl (fun _ => c) e, pingpong_rbuf (Nat.lxor lastActiveTexture 1)).

(** Draws [count] vertices of ray triangles and post-processes the
    result onto the canvas.  The vertex data and the matrix only reach
    [bufferData] and [uniformMatrix3fv]; [resizeCanvasToDisplaySize] sets the
    size of the canvas' drawing buffer, which no draw call here depends
    on. *)
Definition draw (count : nat) (e : t) : t :=
  let '(cWidth, cHeight) := textureSize e in
  let e :=
    with_gl (fun c =>
      c |> clear
        |> bindVertexArray
        |> (if msaaEnabled e
            then setFramebuffer (Some scenetarget_fbMSAA) cWidth cHeight
                   FRAMEBUFFER
            else setFramebuffer (Some scenetarget_fb) cWidth cHeight
                   FRAMEBUFFER)
        |> clear
        |> uniform_pass FRAGMENT_PASS_NORMAL
        |> uniformMatrix3fv
        |> bufferData
        |> drawArrays count
        |> (if msaaEnabled e
            then fun c =>
              c |> bindFramebuffer READ_FRAMEBUFFER (Some scenetarget_fbMSAA)
                |> bindFramebuffer DRAW_FRAMEBUFFER (Some scenetarget_fb)
                |> blitFramebuffer cWidth cHeight
                |> bindFramebuffer READ_FRAMEBUFFER None
                |> bindFramebuffer DRAW_FRAMEBUFFER None
            else fun c => c)
        |> setFramebuffer (Some scenetarget_fb) cWidth cHeight FRAMEBUFFER) e in
  let '(e, outputTexture) :=
    if bloomEnabled e
    then bloomPass scenetarget_scene (nBloomPasses e) e
    else (e, scenetarget_scene) in
  with_gl (fun c =>
    c |> setFramebufferRectangle cWidth cHeight
      |> bindTexture (Some outputTexture)
      |> setFramebuffer (Some (pingpong_fb 1)) cWidth cHeight FRAMEBUFFER
      |> uniform_pass FRAGMENT_PASS_TONEMAP
      |> drawArrays 6
      |> bindTexture None
      |> setFramebuffer None (clientWidth e) (clientHeight e) FRAMEBUFFER
      |> bindTexture (Some (pingpong_rbuf 1))
      |> uniform_pass FRAGMENT_PASS_PASSTHROUGH
      |> drawArrays 6
      |> bindTexture None) e.

(** The draw calls of a context that ran the blur shader. *)
Definition blurDraws (c : Context) : list DrawCall :=
  filter (fun d => pass_eqb (dc_pass d) FRAGMENT_PASS_BLUR) (drawCalls c).

End WebGLEngine.

(** ** The indicator controller ([src/iris-indicator.ts]) *)

Module IrisIndicator.

Definition Color : Type := (Q * Q * Q * Q)%type.

(** The radius state of a ray: a fixed inner radius, randomly varied
    minimum and maximum, the current radius, and whether the movement goes
    outwards ([inc = true]) or inwards. *)
Record Radius := {
  inner : Q;
  min : Q;
  max : Q;
  current : Q;
  inc : bool
}.

Record Ray := {
  radians : Q;
  width : Q;
  radius : Radius
}.

(** The indicator.  [random] and [randomCalls] stand for [Math.random]:
    the [k]-th call returns [random k]. *)
Record t := {
  engine : WebGLEngine.t;
  autoRayAdjustmentFactor : Q;
  nRays : nat;
  autoAdjustRays : bool;
  segmentAdjustmentAnimationStepDuration : Q;
  msPerRotation : Q;
  rayMovementSpeed : Q;
  segmentCounts : Vec4 Q;
  segmentRatiosTarget : Vec4 Q;
  segmentRatiosCurrent : Vec4 Q;
  segmentColors : Vec4 Color;
  fpsLimitEnabled : bool;
  fpsLimit : Q;
  frameTimings : list Q;
  timestamp : Q;
  previousTimestamp : option Q;
  resizeOnNextDraw : bool;
  rays : list Ray;
  random : nat -> Q;
  randomCalls : nat
}.

(** *** Field updates *)

Definition with_engine (v : WebGLEngine.t) (s : t) : t :=
  {| engine := v; autoRayAdjustmentFactor := autoRayAdjustmentFactor s;
     nRays := nRays s; autoAdjustRays := autoAdjustRays s;
     segmentAdjustmentAnimationStepDuration :=
       segmentAdjustmentAnimationStepDuration s;
     msPerRotation := msPerRotation s; rayMovementSpeed := rayMovementSpeed s;
     segmentCounts := segmentCounts s;
     segmentRatiosTarget := segmentRatiosTarget s;
     segmentRatiosCurrent := segmentRatiosCurrent s;
     segmentColors := segmentColors s;
     fpsLimitEnabled := fpsLimitEnabled s; fpsLimit := fpsLimit s;
     frameTimings := frameTimings s; timestamp := timestamp s;
     previousTimestamp := previousTimestamp s;
     resizeOnNextDraw := resizeOnNextDraw s; rays := rays s;
     random := random s; randomCalls := randomCalls s |}.

Definition with_ray_count (n : nat) (auto : bool) (s : t) : t :=
  {| engine := engine s; autoRayAdjustmentFactor := autoRayAdjustmentFactor s;
     nRays := n; autoAdjustRays := auto;
     segmentAdjustmentAnimationStepDuration :=
       segmentAdjustmentAnimationStepDuration s;
     msPerRotation := msPerRotation s; rayMovementSpeed := rayMovementSpeed s;
     segmentCounts := segmentCounts s;
     segmentRatiosTarget := segmentRatiosTarget s;
     segmentRatiosCurrent := segmentRatiosCurrent s;
     segmentColors := segmentColors s;
     fpsLimitEnabled := fpsLimitEnabled s; fpsLimit := fpsLimit s;
     frameTimings := frameTimings s; timestamp := timestamp s;
     previousTimestamp := previousTimestamp s;
     resizeOnNextDraw := resizeOnNextDraw s; rays := rays s;
     random := random s; randomCalls := randomCalls s |}.

Definition with_durations (step rotation movement : Q) (s : t) : t :=
  {| engine := engine s; autoRayAdjustmentFactor := autoRayAdjustmentFactor s;
     nRays := nRays s; autoAdjustRays := autoAdjustRays s;
     segmentAdjustmentAnimationStepDuration := step;
     msPerRotation := rotation; rayMovementSpeed := movement;
     segmentCounts := segmentCounts s;
     segmentRatiosTarget := segmentRatiosTarget s;
     segmentRatiosCurrent := segmentRatiosCurrent s;
     segmentColors := segmentColors s;
     fpsLimitEnabled := fpsLimitEnabled s; fpsLimit := fpsLimit s;
     frameTimings := frameTimings s; timestamp := timestamp s;
     previousTimestamp := previousTimestamp s;
     resizeOnNextDraw := resizeOnNextDraw s; rays := rays s;
     random := random s; randomCalls := randomCalls s |}.

Definition with_counts (counts target : Vec4 Q) (s : t) : t :=
  {| engine := engine s; autoRayAdjustmentFactor := autoRayAdjustmentFactor s;
     nRays := nRays s; autoAdjustRays := autoAdjustRays s;
     segmentAdjustmentAnimationStepDuration :=
       segmentAdjustmentAnimationStepDuration s;
     msPerRotation := msPerRotation s; rayMovementSpeed := rayMovementSpeed s;
     segmentCounts := counts;
     segmentRatiosTarget := target;
     segmentRatiosCurrent := segmentRatiosCurrent s;
     segmentColors := segmentColors s;
     fpsLimitEnabled := fpsLimitEnabled s; fpsLimit := fpsLimit s;
     frameTimings := frameTimings s; timestamp := timestamp s;
     previousTimestamp := previousTimestamp s;
     resizeOnNextDraw := resizeOnNextDraw s; rays := rays s;
     random := random s; randomCalls := randomCalls s |}.

Definition with_segmentRatiosCurrent (v : Vec4 Q) (s : t) : t :=
  {| engine := engine s; autoRayAdjustmentFactor := autoRayAdjustmentFactor s;
     nRays := nRays s; autoAdjustRays := autoAdjustRays s;
     segmentAdjustmentAnimationStepDuration :=
       segmentAdjustmentAnimationStepDuration s;
     msPerRotation := msPerRotation s; rayMovementSpeed := rayMovementSpeed s;
     segmentCounts := segmentCounts s;
     segmentRatiosTarget := segmentRatiosTarget s;
     segmentRatiosCurrent := v;
     segmentColors := segmentColors s;
     fpsLimitEnabled := fpsLimitEnabled s; fpsLimit := fpsLimit s;
     frameTimings := frameTimings s; timestamp := timestamp s;
     previousTimestamp := previousTimestamp s;
     resizeOnNextDraw := resizeOnNextDraw s; rays := rays s;
     random := random s; randomCalls := randomCalls s |}.

Definition with_fps (enabled : bool) (limit : Q) (s : t) : t :=
  {| engine := engine s; autoRayAdjustmentFactor := autoRayAdjustmentFactor s;
     nRays := nRays s; autoAdjustRays := autoAdjustRays s;
     segmentAdjustmentAnimationStepDuration :=
       segmentAdjustmentAnimationStepDuration s;
     msPerRotation := msPerRotation s; rayMovementSpeed := rayMovementSpeed s;
     segmentCounts := segmentCounts s;
     segmentRatiosTarget := segmentRatiosTarget s;
     segmentRatiosCurrent := segmentRatiosCurrent s;
     segmentColors := segmentColors s;
     fpsLimitEnabled := enabled; fpsLimit := limit;
     frameTimings := frameTimings s; timestamp := timestamp s;
     previousTimestamp := previousTimestamp s;
     resizeOnNextDraw := resizeOnNextDraw s; rays := rays s;
     random := random s; randomCalls := randomCalls s |}.

Definition with_frame (timings : list Q) (previous : option Q) (s : t) : t :=
  {| engine := engine s; autoRayAdjustmentFactor := autoRayAdjustmentFactor s;
     nRays := nRays s; autoAdjustRays := autoAdjustRays s;
     segmentAdjustmentAnimationStepDuration :=
       segmentAdjustmentAnimationStepDuration s;
     msPerRotation := msPerRotation s; rayMovementSpeed := rayMovementSpeed s;
     segmentCounts := segmentCounts s;
     segmentRatiosTarget := segmentRatiosTarget s;
     segmentRatiosCurrent := segmentRatiosCurrent s;
     segmentColors := segmentColors s;
     fpsLimitEnabled := fpsLimitEnabled s; fpsLimit := fpsLimit s;
     frameTimings := timings; timestamp := timestamp s;
     previousTimestamp := previous;
     resizeOnNextDraw := resizeOnNextDraw s; rays := rays s;
     random := random s; randomCalls := randomCalls s |}.

Definition with_timestamp (v : Q) (s : t) : t :=
  {| engine := engine s; autoRayAdjustmentFactor := autoRayAdjustmentFactor s;
     nRays := nRays s; autoAdjustRays := autoAdjustRays s;
     segmentAdjustmentAnimationStepDuration :=
       segmentAdjustmentAnimationStepDuration s;
     msPerRotation := msPerRotation s; rayMovementSpeed := rayMovementSpeed s;
     segmentCounts := segmentCounts s;
     segmentRatiosTarget := segmentRatiosTarget s;
     segmentRatiosCurrent := segmentRatiosCurrent s;
     segmentColors := segmentColors s;
     fpsLimitEnabled := fpsLimitEnabled s; fpsLimit := fpsLimit s;
     frameTimings := frameTimings s; timestamp := v;
     previousTimestamp := previousTimestamp s;
     resizeOnNextDraw := resizeOnNextDraw s; rays := rays s;
     random := random s; randomCalls := randomCalls s |}.

Definition with_resizeOnNextDraw (v : bool) (s : t) : t :=
  {| engine := engine s; autoRayAdjustmentFactor := autoRayAdjustmentFactor s;
     nRays := nRays s; autoAdjustRays := autoAdjustRays s;
     segmentAdjustmentAnimationStepDuration :=
       segmentAdjustmentAnimationStepDuration s;
     msPerRotation := msPerRotation s; rayMovementSpeed := rayMovementSpeed s;
     segmentCounts := segmentCounts s;
     segmentRatiosTarget := segmentRatiosTarget s;
     segmentRatiosCurrent := segmentRatiosCurrent s;
     segmentColors := segmentColors s;
     fpsLimitEnabled := fpsLimitEnabled s; fpsLimit := fpsLimit s;
     frameTimings := frameTimings s; timestamp := timestamp s;
     previousTimestamp := previousTimestamp s;
     resizeOnNextDraw := v; rays := rays s;
     random := random s; randomCalls := randomCalls s |}.

(** The rays, and how many [Math.random] calls have been made. *)
Definition with_rays (v : list Ray) (calls : nat) (s : t) : t :=
  {| engine := engine s; autoRayAdjustmentFactor := autoRayAdjustmentFactor s;
     nRays := nRays s; autoAdjustRays := autoAdjustRays s;
     segmentAdjustmentAnimationStepDuration :=
       segmentAdjustmentAnimationStepDuration s;
     msPerRotation := msPerRotation s; rayMovementSpeed := rayMovementSpeed s;
     segmentCounts := segmentCounts s;
     segmentRatiosTarget := segmentRatiosTarget s;
     segmentRatiosCurrent := segmentRatiosCurrent s;
     segmentColors := segmentColors s;
     fpsLimitEnabled := fpsLimitEnabled s; fpsLimit := fpsLimit s;
     frameTimings := frameTimings s; timestamp := timestamp s;
     previousTimestamp := previousTimestamp s;
     resizeOnNextDraw := resizeOnNextDraw s; rays := v;
     random := random s; randomCalls := calls |}.


(** *** Segment setters *)

(** Writes the current segment information into the renderer. *)
Definition setSegments (s : t) : t :=
  let segs :=
    vbuild (fun i =>
      {| WebGLEngine.color := vnth (segmentColors s) i;
         WebGLEngine.ratio := JS.Fin (vnth (segmentRatiosCurrent s) i) |}) in
  with_engine (WebGLEngine.setSegments segs (engine s)) s.

(** Sets the segment adjustment step duration in milliseconds. *)
Definition setSegmentAdjustmentStepDuration (duration : Q) (s : t) : t :=
  with_durations duration (msPerRotation s) (rayMovementSpeed s) s.

(** Set the current element counts to be displayed in the indicator. *)
Definition setSegmentCounts (counts : Vec4 Q) (s : t) : t :=
  let '(segmentCounts, sum) :=
    fold_left
      (fun '(segmentCounts, sum) i =>
         (vset segmentCounts i (vnth counts i), sum + vnth counts i))
      (seq 0 4) (segmentCounts s, 0) in
  let target :=
    if Qeq_bool sum 0 then vec4 0 0 0 0
    else vmap (fun c => c / sum) segmentCounts in
  setSegments (with_counts segmentCounts target s).

(** Specify the number of rays to be drawn. *)
Definition setRayCount (count : nat) (s : t) : t :=
  with_ray_count count false s.

(** *** Animation setters *)

Definition setRotationSpeed (seconds : Q) (s : t) : t :=
  with_durations (segmentAdjustmentAnimationStepDuration s)
    (seconds * 1000) (rayMovementSpeed s) s.

Definition setRayMovementSpeed (seconds : Q) (s : t) : t :=
  with_durations (segmentAdjustmentAnimationStepDuration s)
    (msPerRotation s) (seconds * 1000) s.

(** Calculates the optimal amount of rays based on the current canvas
    size. *)
Definition calculateOptimalRayCount (s : t) : nat :=
  let '(cWidth, cHeight) := WebGLEngine.textureSize (engine s) in
  let smallestEdge := Z.min cWidth cHeight in
  let wantedRayCount :=
    JS.round (inject_Z smallestEdge / autoRayAdjustmentFactor s) in
  Z.to_nat (Z.max wantedRayCount 16).

(** One iteration of the loop of [generateRays]: ray [i] is pushed, and
    four random numbers are drawn. *)
Definition generateRay (nRays : nat) (canvasRadius widthInRadians : Q)
    (random : nat -> Q) (st : list Ray * nat) (i : nat) : list Ray * nat :=
  let '(rays, k) := st in
  let outerRadius := 1.0 * canvasRadius in
  let innerRadius := 0.3 * canvasRadius in
  let minVaryRadius := 0.6 * canvasRadius in
  let pos := inject_Z (Z.of_nat i) / inject_Z (Z.of_nat nRays) in
  let centerInRad := pos * 2 * JS.PI in
  let RADIUS_VARIATION := 0.1 in
  let rMin := minVaryRadius + random k * RADIUS_VARIATION * canvasRadius in
  let rMax :=
    outerRadius - random (k + 1)%nat * RADIUS_VARIATION * canvasRadius in
  let startRadius := minVaryRadius + (rMax - rMin) * random (k + 2)%nat in
  (rays ++
     [{| radians := centerInRad; width := widthInRadians;
         radius := {| inner := innerRadius; min := rMin; max := rMax;
                      current := startRadius;
                      inc := JS.Qltb 0.5 (random (k + 3)%nat) |} |}],
   (k + 4)%nat).

(** (Re-)generate the rays to be displayed. *)
Definition generateRays (s : t) : t :=
  let '(cWidth, cHeight) := WebGLEngine.textureSize (engine s) in
  let canvasDiameter := inject_Z (Z.min cWidth cHeight) in
  let canvasRadius := canvasDiameter / 2 in
  let overlapFactor := 3 in
  let widthInRadians :=
    ((2 * JS.PI) / (inject_Z (Z.of_nat (nRays s)) * 3)) * overlapFactor in
  let '(rays, calls) :=
    fold_left
      (generateRay (nRays s) canvasRadius widthInRadians (random s))
      (seq 0 (nRays s)) ([], randomCalls s) in
  with_rays rays calls s.

(** This will set the renderer to automatically calculate the amount of
    rays to be drawn. *)
Definition enableAutomaticRayAdjustment (s : t) : t :=
  generateRays (with_ray_count (calculateOptimalRayCount s) true s).

(** *** Effects setters *)

Definition setBloomEnabled (enabled : bool) (s : t) : t :=
  with_engine (WebGLEngine.setBloomEnabled enabled (engine s)) s.

Definition setBloomIntensity (intensity : nat) (s : t) : t :=
  with_engine (WebGLEngine.setBloomIntensity intensity (engine s)) s.

Definition setMSAAEnabled (enabled : bool) (s : t) : t :=
  with_engine (WebGLEngine.setMSAAEnabled enabled (engine s)) s.

(** Callback used to indicate that the canvas size has changed. *)
Definition onResize (s : t) : t := with_resizeOnNextDraw true s.

(** Sets the rendering resolution/texture size modifier. *)
Definition setTextureSizeModifier (modifier : Q) (s : t) : t :=
  s |> with_engine (WebGLEngine.setTextureSizeModifier modifier (engine s))
    |> onResize.

(** *** FPS setters *)

Definition setFpsLimitEnabled (enabled : bool) (s : t) : t :=
  with_fps enabled (fpsLimit s) s.

(** Sets the FPS limit; stored as milliseconds per frame. *)
Definition setFpsLimit (limit : Q) (s : t) : t :=
  with_fps (fpsLimitEnabled s) (inject_Z (Qfloor (1000 / limit))) s.

(** Returns the current average frames per second. *)
Definition getCurrentFps (s : t) : Q :=
  if (0 <? length (frameTimings s))%nat
  then fold_left (fun p c => p + c) (frameTimings s) 0
       / inject_Z (Z.of_nat (length (frameTimings s)))
  else 0.

(** *** Rendering loop *)

(** This routine calculates everything whenever a resize is issued. *)
Definition doResizeCalculation (s : t) : t :=
  let s := with_resizeOnNextDraw false s in
  let s := with_engine (WebGLEngine.onResize (engine s)) s in
  let s :=
    if autoAdjustRays s
    then with_ray_count (calculateOptimalRayCount s) (autoAdjustRays s) s
    else s in
  generateRays s.

(** One iteration of the segment loop of [drawFrame]; the state is
    [segmentRatiosCurrent] and [hasRatioChanged]. *)
Definition easeSegment (step : Q) (target : Vec4 Q) (st : Vec4 Q * bool)
    (i : nat) : Vec4 Q * bool :=
  let '(ratios, hasRatioChanged) := st in
  let cur := vnth ratios i in
  let tar := vnth target i in
  if Qeq_bool cur tar then (ratios, hasRatioChanged)
  else
    let direction := if JS.Qltb tar cur then -1 else 1 in
    let difference := Qabs (tar - cur) in
    if JS.Qltb difference 10e-4 then (vset ratios i tar, true)
    else (vset ratios i (cur + direction * step * difference), true).

(** The body of the ray loop of [drawFrame]. *)
Definition moveRay (speed : Q) (ray : Ray) : Ray :=
  let increment := (max (radius ray) - min (radius ray)) * speed in
  let current :=
    if inc (radius ray) then current (radius ray) + increment
    else current (radius ray) - increment in
  let '(current, inc) :=
    if Qle_bool current (min (radius ray)) then (min (radius ray), true)
    else if Qle_bool (max (radius ray)) current
         then (max (radius ray), false)
         else (current, inc (radius ray)) in
  {| radians := radians ray; width := width ray;
     radius := {| inner := inner (radius ray); min := min (radius ray);
                  max := max (radius ray); current := current;
                  inc := inc |} |}.

(** This routine draws a frame; [now] is [Date.now()].  The triangle
    coordinates and the rotation matrix, built with [Math.sin] and
    [Math.cos], only reach the engine's buffer and matrix uploads. *)
Definition drawFrame (now : Q) (s : t) : t :=
  let deltaMs := now - timestamp s in
  let s := with_timestamp now s in
  let s := if resizeOnNextDraw s then doResizeCalculation s else s in
  let step := deltaMs / segmentAdjustmentAnimationStepDuration s in
  let '(ratios, hasRatioChanged) :=
    fold_left (easeSegment step (segmentRatiosTarget s))
      (seq 0 MAX_SUPPORTED_SEGMENTS) (segmentRatiosCurrent s, false) in
  let s := with_segmentRatiosCurrent ratios s in
  let s := if hasRatioChanged then setSegments s else s in
  let speed := deltaMs / rayMovementSpeed s in
  let s := with_rays (map (moveRay speed) (rays s)) (randomCalls s) s in
  let componentsPerTri := 3%nat in
  let nComponents := (componentsPerTri * length (rays s))%nat in
  with_engine (WebGLEngine.draw nComponents (engine s)) s.

(** The [while] loop of [loop]: shift until at most 120 timings are
    left. *)
Fixpoint shiftFrameTimings (timings : list Q) : list Q :=
  if (120 <? length timings)%nat then
    match timings with
    | [] => []
    | _ :: rest => shiftFrameTimings rest
    end
  else timings.

(** Main loop executor, called with the animation frame's [timestamp].
    Either way the next animation frame is requested. *)
Definition loop (timestamp now : Q) (s : t) : t :=
  let deltaTime :=
    match previousTimestamp s with
    | None => 0
    | Some previous => timestamp - previous
    end in
  if fpsLimitEnabled s && JS.Qltb 0 deltaTime
     && JS.Qltb deltaTime (fpsLimit s)
  then s
  else
    let timings :=
      frameTimings s ++ [if JS.Qltb 0 deltaTime then 1000 / deltaTime else 0] in
    s |> with_frame (shiftFrameTimings timings) (Some timestamp)
      |> drawFrame now.

Definition colormap_blue : Color := (0.2, 0.5, 1.0, 1.0).
Definition colormap_red : Color := (1.0, 0.3, 0.3, 1.0).
Definition colormap_green : Color := (0.3, 1.0, 0.3, 1.0).
Definition colormap_yellow : Color := (1.0, 1.0, 0.3, 1.0).
Definition colormap_purple : Color := (1.0, 0.3, 1.0, 1.0).

(** [new IrisIndicator(gl)] for the context of a canvas of the given CSS
    size; [now] is [Date.now()]. *)
Definition constructor (width height : Z) (dpr : Q) (random : nat -> Q)
    (now : Q) : t :=
  let s :=
    {| engine := WebGLEngine.constructor width height dpr;
       autoRayAdjustmentFactor := 5;
       nRays := 0;
       autoAdjustRays := true;
       segmentAdjustmentAnimationStepDuration := 100;
       msPerRotation := 240000;
       rayMovementSpeed := 5000;
       segmentCounts := vec4 0 0 0 0;
       segmentRatiosTarget := vec4 0 0 0 0;
       segmentRatiosCurrent := vec4 0 0 0 0;
       segmentColors :=
         vec4 colormap_red colormap_green colormap_blue colormap_purple;
       fpsLimitEnabled := true;
       fpsLimit := inject_Z (Qfloor (1000 / 30));
       frameTimings := [];
       timestamp := 0;
       previousTimestamp := None;
       resizeOnNextDraw := false;
       rays := [];
       random := random;
       randomCalls := 0 |} in
  s |> (fun s => with_ray_count (calculateOptimalRayCount s) true s)
    |> generateRays
    |> setSegments
    |> with_timestamp now.

End IrisIndicator.

(** ** Sample states *)

(** An engine on a 300 x 150 canvas at device pixel ratio 2. *)
Definition sampleEngine : WebGLEngine.t := WebGLEngine.constructor 300 150 2.

(** A random source for the sample indicator: 0, 1/7, ..., 6/7, 0, ... *)
Definition sampleRandom (k : nat) : Q := inject_Z (Z.of_nat (k mod 7)) / 7.

(** An indicator on a 40 x 40 canvas at device pixel ratio 1, created at
    time 1000. *)
Definition sampleIndicator : IrisIndicator.t :=
  IrisIndicator.constructor 40 40 1 sampleRandom 1000.

(** ** Vocabulary of the statements *)

(** [m] is a smallest nonzero element of [qs]. *)
Definition smallest_nonzero (m : Q) (qs : list Q) : Prop :=
  In m qs /\ ~ m == 0 /\ forall q, In q qs -> ~ q == 0 -> m <= q.

(** What the scan of [WebGLEngine.setSegments] holds after the ratios
    [seen]: [Infinity] while all of them are zero, then a smallest nonzero
    one. *)
Definition scanned (blendRatio : JS.number) (seen : list Q) : Prop :=
  match blendRatio with
  | JS.PosInf => Forall (fun q => q == 0) seen
  | JS.Fin m => smallest_nonzero m seen
  | _ => False
  end.

(** The segments with the given colors and finite ratios, as
    [IrisIndicator.setSegments] builds them. *)
Definition segmentsOf (colors : Vec4 (Q * Q * Q * Q)) (ratios : Vec4 Q)
    : Vec4 WebGLEngine.Segment :=
  vbuild (fun i =>
    {| WebGLEngine.color := vnth colors i;
       WebGLEngine.ratio := JS.Fin (vnth ratios i) |}).

Definition sampleColors : Vec4 (Q * Q * Q * Q) :=
  vec4 IrisIndicator.colormap_red IrisIndicator.colormap_green
       IrisIndicator.colormap_blue IrisIndicator.colormap_purple.

(** The sample indicator showing one element in the third segment: the
    targets are [0, 0, 1, 0], the current ratios still [0, 0, 0, 0]. *)
Definition sampleCounting : IrisIndicator.t :=
  IrisIndicator.setSegmentCounts (vec4 0 0 1 0) sampleIndicator.

(** What one iteration of the segment loop of [drawFrame] makes of one
    current ratio. *)
Definition ease (step cur tar : Q) : Q :=
  if Qeq_bool cur tar then cur
  else if JS.Qltb (Qabs (tar - cur)) 10e-4 then tar
  else cur + (if JS.Qltb tar cur then -1 else 1) * step * Qabs (tar - cur).

(** [n] frames drawn [deltaMs] milliseconds apart. *)
Fixpoint ticks (n : nat) (deltaMs : Q) (s : IrisIndicator.t) : IrisIndicator.t :=
  match n with
  | O => s
  | S n =>
      ticks n deltaMs
        (IrisIndicator.drawFrame (IrisIndicator.timestamp s + deltaMs) s)
  end.

(** Frames drawn at the given times. *)
Definition drawFrames (nows : list Q) (s : IrisIndicator.t) : IrisIndicator.t :=
  fold_left (fun s now => IrisIndicator.drawFrame now s) nows s.

(** The last [n] elements of a list. *)
Definition lastn {A} (n : nat) (l : list A) : list A :=
  skipn (length l - n) l.

Definition Qsum (l : list Q) : Q := fold_right Qplus 0 l.

(** The arithmetic mean; 0 for no element. *)
Definition mean (l : list Q) : Q :=
  match l with
  | [] => 0
  | _ => Qsum l / inject_Z (Z.of_nat (length l))
  end.

(** Animation frames, each with its frame timestamp and the wall clock
    time at which it runs. *)
Definition runLoop (frames : list (Q * Q)) (s : IrisIndicator.t)
    : IrisIndicator.t :=
  fold_left (fun s frame => IrisIndicator.loop (fst frame) (snd frame) s)
    frames s.

(** Whether [loop] skips the frame with the given timestamp, and the FPS
    sample it records otherwise. *)
Definition frameDelta (timestamp : Q) (s : IrisIndicator.t) : Q :=
  match IrisIndicator.previousTimestamp s with
  | None => 0
  | Some previous => timestamp - previous
  end.

Definition frameSkipped (timestamp : Q) (s : IrisIndicator.t) : bool :=
  IrisIndicator.fpsLimitEnabled s
  && JS.Qltb 0 (frameDelta timestamp s)
  && JS.Qltb (frameDelta timestamp s) (IrisIndicator.fpsLimit s).

Definition frameSample (timestamp : Q) (s : IrisIndicator.t) : Q :=
  if JS.Qltb 0 (frameDelta timestamp s)
  then 1000 / frameDelta timestamp s
  else 0.

(** The samples that the frames that are not skipped record, oldest
    first. *)
Fixpoint recordedSamples (frames : list (Q * Q)) (s : IrisIndicator.t)
    : list Q :=
  match frames with
  | [] => []
  | frame :: frames =>
      (if frameSkipped (fst frame) s then []
       else [frameSample (fst frame) s])
      ++ recordedSamples frames
           (IrisIndicator.loop (fst frame) (snd frame) s)
  end.

(** 130 animation frames, 40 ms apart. *)
Definition sampleFrames : list (Q * Q) :=
  map (fun k => (inject_Z (Z.of_nat k) * 40,
                 1000 + inject_Z (Z.of_nat k) * 40))
      (seq 0 130).

(** [n] eased steps of one ratio. *)
Fixpoint easeN (n : nat) (step cur tar : Q) : Q :=
  match n with
  | O => cur
  | S n => easeN n step (ease step cur tar) tar
  end.

(** A number of frames that suffices for a ratio to reach its target when
    the step is at most 1. *)
Definition easingBound (step cur tar : Q) : nat :=
  S (Z.to_nat (Qceiling (1000 * Qabs (tar - cur) / step))).

(** ** Further vocabulary: the render pipeline *)

(** The texture attached to a framebuffer as color attachment 0 by the
    engine's constructor: each ping-pong framebuffer has its own texture,
    the scene framebuffer the scene texture, and the multisampled framebuffer
    a renderbuffer, which no texture unit can read. *)
Definition attachment (fb : GL.Framebuffer) : option GL.Texture :=
  match fb with
  | GL.PingpongFb slot => Some (GL.PingpongTex slot)
  | GL.SceneFb => Some GL.SceneTex
  | GL.SceneFbMSAA => None
  end.

Definition texture_eqb (a b : GL.Texture) : bool :=
  match a, b with
  | GL.PingpongTex i, GL.PingpongTex j => (i =? j)%nat
  | GL.SceneTex, GL.SceneTex => true
  | _, _ => false
  end.

Definition bound_eqb (unit : option GL.Texture) (t : GL.Texture) : bool :=
  match unit with
  | Some u => texture_eqb u t
  | None => false
  end.

(** The context as the engine leaves it between its operations: the canvas
    is the framebuffer, unit 0 is active, units 0 and 1 have no texture. *)
Definition atRest (c : GL.Context) : Prop :=
  GL.drawFramebuffer c = None /\
  GL.readFramebuffer c = None /\
  GL.activeUnit c = 0%nat /\
  GL.textureUnits c 0%nat = None /\
  GL.textureUnits c 1%nat = None.

(** A draw call without its blur direction. *)
Definition DrawView : Type :=
  (GL.FragmentPass * option GL.Framebuffer * option GL.Texture
   * option GL.Texture * nat)%type.

Definition view (d : GL.DrawCall) : DrawView :=
  (GL.dc_pass d, GL.dc_target d, GL.dc_unit0 d, GL.dc_unit1 d, GL.dc_count d).

(** A draw call is a feedback loop when a texture bound on unit 0 or 1 (the
    two samplers of the program) is attached to the framebuffer it draws
    into. *)
Definition viewFeedback (v : DrawView) : bool :=
  let '(_, target, unit0, unit1, _) := v in
  match target with
  | Some fb =>
      match attachment fb with
      | Some t => bound_eqb unit0 t || bound_eqb unit1 t
      | None => false
      end
  | None => false
  end.

Definition feedback (d : GL.DrawCall) : bool := viewFeedback (view d).

(** The blur draws of a bloom pass: iteration [pass] draws into slot
    [pass mod 2] and reads the other slot on unit 0: the brightness map in
    slot 1 first, then what the iteration before wrote. *)
Definition blurPlan (nPasses : nat) : list DrawView :=
  map (fun pass =>
         (GL.FRAGMENT_PASS_BLUR,
          Some (GL.PingpongFb (pass mod 2)),
          Some (GL.PingpongTex (S pass mod 2)),
          @None GL.Texture, 6%nat))
      (seq 0 (nPasses * 2)).

(** The draw calls of one frame of an engine at rest, in order. *)
Definition framePlan (e : WebGLEngine.t) (count : nat) : list DrawView :=
  let n := WebGLEngine.nBloomPasses e in
  let lastActiveTexture := (Nat.pred (n * 2) mod 2)%nat in
  let output :=
    if WebGLEngine.bloomEnabled e
    then GL.PingpongTex (Nat.lxor lastActiveTexture 1)
    else GL.SceneTex in
  [(GL.FRAGMENT_PASS_NORMAL,
    Some (if WebGLEngine.msaaEnabled e then GL.SceneFbMSAA else GL.SceneFb),
    None, None, count)]
  ++ (if WebGLEngine.bloomEnabled e
      then [(GL.FRAGMENT_PASS_BRIGHTNESS, Some (GL.PingpongFb 1),
             Some GL.SceneTex, None, 6%nat)]
           ++ blurPlan n
           ++ [(GL.FRAGMENT_PASS_COMPOSITE,
                Some (GL.PingpongFb (Nat.lxor lastActiveTexture 1)),
                Some GL.SceneTex,
                Some (GL.PingpongTex lastActiveTexture), 6%nat)]
      else [])
  ++ [(GL.FRAGMENT_PASS_TONEMAP, Some (GL.PingpongFb 1), Some output, None,
       6%nat);
      (GL.FRAGMENT_PASS_PASSTHROUGH, None, Some (GL.PingpongTex 1), None,
       6%nat)].

(** ** Further vocabulary: the indicator *)

From Stdlib Require String.
Import String.StringSyntax.

Definition with_segmentColors (v : Vec4 IrisIndicator.Color)
    (s : IrisIndicator.t) : IrisIndicator.t :=
  {| IrisIndicator.engine := IrisIndicator.engine s;
     IrisIndicator.autoRayAdjustmentFactor :=
       IrisIndicator.autoRayAdjustmentFactor s;
     IrisIndicator.nRays := IrisIndicator.nRays s;
     IrisIndicator.autoAdjustRays := IrisIndicator.autoAdjustRays s;
     IrisIndicator.segmentAdjustmentAnimationStepDuration :=
       IrisIndicator.segmentAdjustmentAnimationStepDuration s;
     IrisIndicator.msPerRotation := IrisIndicator.msPerRotation s;
     IrisIndicator.rayMovementSpeed := IrisIndicator.rayMovementSpeed s;
     IrisIndicator.segmentCounts := IrisIndicator.segmentCounts s;
     IrisIndicator.segmentRatiosTarget := IrisIndicator.segmentRatiosTarget s;
     IrisIndicator.segmentRatiosCurrent :=
       IrisIndicator.segmentRatiosCurrent s;
     IrisIndicator.segmentColors := v;
     IrisIndicator.fpsLimitEnabled := IrisIndicator.fpsLimitEnabled s;
     IrisIndicator.fpsLimit := IrisIndicator.fpsLimit s;
     IrisIndicator.frameTimings := IrisIndicator.frameTimings s;
     IrisIndicator.timestamp := IrisIndicator.timestamp s;
     IrisIndicator.previousTimestamp := IrisIndicator.previousTimestamp s;
     IrisIndicator.resizeOnNextDraw := IrisIndicator.resizeOnNextDraw s;
     IrisIndicator.rays := IrisIndicator.rays s;
     IrisIndicator.random := IrisIndicator.random s;
     IrisIndicator.randomCalls := IrisIndicator.randomCalls s |}.

Section Colors.
Local Open Scope string_scope.

(** The [switch] of [setColors] for one segment: the palette color of a
    known name; there is no default case, so any other name leaves the
    segment's color as it is. *)
Definition switchColor (name : String.string) (old : IrisIndicator.Color)
    : IrisIndicator.Color :=
  if String.eqb name "blue" then IrisIndicator.colormap_blue
  else if String.eqb name "green" then IrisIndicator.colormap_green
  else if String.eqb name "purple" then IrisIndicator.colormap_purple
  else if String.eqb name "red" then IrisIndicator.colormap_red
  else if String.eqb name "yellow" then IrisIndicator.colormap_yellow
  else old.

(** Sets the colors to be used in the indicator. *)
Definition setColors (colors : Vec4 String.string) (s : IrisIndicator.t)
    : IrisIndicator.t :=
  let segmentColors :=
    fold_left
      (fun segmentColors i =>
         vset segmentColors i
           (switchColor (vnth colors i) (vnth segmentColors i)))
      (seq 0 4) (IrisIndicator.segmentColors s) in
  IrisIndicator.setSegments (with_segmentColors segmentColors s).

Definition builtInColors : list String.string :=
  ["blue"; "red"; "yellow"; "green"; "purple"].

(** Sample color names; the third is not one of the built-in colors. *)
Definition sampleColorNames : Vec4 String.string :=
  vec4 "blue" "yellow" "orange" "green".

End Colors.

(** A color as [WebGLEngine.setSegments] uploads it: red, green and blue
    times the HDR factor, alpha as it is. *)
Definition boosted (hdrFactor : Q) (c : Q * Q * Q * Q) : Q * Q * Q * Q :=
  let '(r, g, b, a) := c in (r * hdrFactor, g * hdrFactor, b * hdrFactor, a).

Definition uniformOf (hdrFactor : Q) (seg : WebGLEngine.Segment)
    : GL.SegmentUniform :=
  {| GL.su_color := boosted hdrFactor (WebGLEngine.color seg);
     GL.su_ratio := WebGLEngine.ratio seg |}.

(** The segment uniforms of the engine show the indicator's colors and
    current ratios. *)
Definition synced (s : IrisIndicator.t) : Prop :=
  let e := IrisIndicator.engine s in
  let segments :=
    segmentsOf (IrisIndicator.segmentColors s)
      (IrisIndicator.segmentRatiosCurrent s) in
  GL.u_segments (WebGLEngine.gl e)
    = vmap (uniformOf (WebGLEngine.hdrFactor e)) segments /\
  GL.u_blendRatio (WebGLEngine.gl e) = WebGLEngine.blendRatioOf segments.

(** A ray as [generateRays] makes it for the canvas radius [R]: the given
    angular width, the inner radius at 30%, the minimum between 60% and 70%,
    the maximum between 90% and 100%, and a start radius between 60% and
    100%. *)
Definition generatedRay (R width : Q) (ray : IrisIndicator.Ray) : Prop :=
  let r := IrisIndicator.radius ray in
  IrisIndicator.width ray = width /\
  IrisIndicator.inner r = 0.3 * R /\
  0.6 * R <= IrisIndicator.min r <= 0.7 * R /\
  0.9 * R <= IrisIndicator.max r <= R /\
  IrisIndicator.min r < IrisIndicator.max r /\
  0.6 * R <= IrisIndicator.current r <= R.

(** [Math.random] returns numbers from 0 (inclusive) up to 1. *)
Definition unitRandom (random : nat -> Q) : Prop :=
  forall k, 0 <= random k < 1.

(** ** Matrices and triangles ([src/util/math.ts]) *)

Module MathUtil.

(** A 3x3 matrix as the flat array of nine numbers that it is. *)
Record Mat3 := mat3 {
  e0 : Q; e1 : Q; e2 : Q;
  e3 : Q; e4 : Q; e5 : Q;
  e6 : Q; e7 : Q; e8 : Q
}.

Section Trig.

(** [Math.cos] and [Math.sin]. *)
Variables cos sin : Q -> Q.

(** Calculates a triangle based on some information on a ray. *)
Definition coordsForRay (radians width innerRadius outerRadius : Q) : list Q :=
  let '(rad1, rad2, rad3) := (radians - width, radians, radians + width) in
  [ cos rad1 * innerRadius; sin rad1 * innerRadius;
    cos rad2 * outerRadius; sin rad2 * outerRadius;
    cos rad3 * innerRadius; sin rad3 * innerRadius ].

Definition rotationMatrix (rad : Q) : Mat3 :=
  let c := cos rad in
  let s := sin rad in
  mat3 c (- s) 0
       s c 0
       0 0 1.

End Trig.

Definition translationMatrix (tx ty : Q) : Mat3 :=
  mat3 1 0 0
       0 1 0
       tx ty 1.

Definition mat3mul (mat1 mat2 : Mat3) : Mat3 :=
  let '(a00, a01, a02) := (e0 mat1, e1 mat1, e2 mat1) in
  let '(a10, a11, a12) := (e3 mat1, e4 mat1, e5 mat1) in
  let '(a20, a21, a22) := (e6 mat1, e7 mat1, e8 mat1) in
  let '(b00, b01, b02) := (e0 mat2, e1 mat2, e2 mat2) in
  let '(b10, b11, b12) := (e3 mat2, e4 mat2, e5 mat2) in
  let '(b20, b21, b22) := (e6 mat2, e7 mat2, e8 mat2) in
  mat3 (b00 * a00 + b01 * a10 + b02 * a20)
       (b00 * a01 + b01 * a11 + b02 * a21)
       (b00 * a02 + b01 * a12 + b02 * a22)
       (b10 * a00 + b11 * a10 + b12 * a20)
       (b10 * a01 + b11 * a11 + b12 * a21)
       (b10 * a02 + b11 * a12 + b12 * a22)
       (b20 * a00 + b21 * a10 + b22 * a20)
       (b20 * a01 + b21 * a11 + b22 * a21)
       (b20 * a02 + b21 * a12 + b22 * a22).

End MathUtil.

(** ** The vertex shader *)

Module VertexShader.
Import GL MathUtil.

Record Varyings := {
  gl_Position : Q * Q * Q * Q;
  v_texcoord : Q * Q;
  v_pass : FragmentPass
}.

(** GLSL's [mat3 * vec3].  The matrix is uploaded without transposition, so
    that the flat array holds it column by column. *)
Definition mat3_mul_vec3 (m : Mat3) (v : Q * Q * Q) : Q * Q * Q :=
  let '(x, y, z) := v in
  (e0 m * x + e3 m * y + e6 m * z,
   e1 m * x + e4 m * y + e7 m * z,
   e2 m * x + e5 m * y + e8 m * z).

(** The shader's [main], run for one vertex.  A component of
    [u_resolution] that is zero makes the quotient meaningless. *)
Definition main (u_resolution : Q * Q) (u_matrix : Mat3)
    (u_pass : FragmentPass) (a_position : Q * Q) : Varyings :=
  let transformed :=
    if pass_eqb u_pass FRAGMENT_PASS_NORMAL
    then let '(x, y, _) :=
           mat3_mul_vec3 u_matrix (fst a_position, snd a_position, 1) in
         (x, y)
    else a_position in
  let normalized :=
    (fst transformed / fst u_resolution,
     snd transformed / snd u_resolution) in
  let scaled := (fst normalized * 2.0, snd normalized * 2.0) in
  let centered := (fst scaled - 1.0, snd scaled - 1.0) in
  let clipSpacePx := (fst centered * 1, snd centered * -1) in
  {| gl_Position := (fst clipSpacePx, snd clipSpacePx, 0, 1);
     v_texcoord := (fst clipSpacePx * 0.5 + 0.5, snd clipSpacePx * 0.5 + 0.5);
     v_pass := u_pass |}.

End VertexShader.

(** ** What the engine feeds the vertex shader

    The calls of [draw] and [bloomPass] that set the vertex shader's inputs,
    in the order of the source: the resolution that [setFramebuffer] uploads,
    the pass, the matrix and the contents of the vertex buffer.  Every
    [drawArrays] is logged with the inputs in effect. *)

Module VertexStage.
Import GL MathUtil.

Record Draw := {
  d_pass : FragmentPass;
  d_resolution : Z * Z;
  d_matrix : Mat3;
  d_buffer : list Q;
  d_count : nat
}.

Record State := {
  u_resolution : Z * Z;
  u_pass : FragmentPass;
  u_matrix : Mat3;
  arrayBuffer : list Q;
  draws : list Draw
}.

(** The program after linking: every uniform is zero, the buffer is
    empty. *)
Definition fresh : State :=
  {| u_resolution := (0, 0)%Z;
     u_pass := FRAGMENT_PASS_PASSTHROUGH;
     u_matrix := mat3 0 0 0 0 0 0 0 0 0;
     arrayBuffer := [];
     draws := [] |}.

Definition setFramebuffer (width height : Z) (st : State) : State :=
  {| u_resolution := (width, height); u_pass := u_pass st;
     u_matrix := u_matrix st; arrayBuffer := arrayBuffer st;
     draws := draws st |}.

Definition uniform_pass (p : FragmentPass) (st : State) : State :=
  {| u_resolution := u_resolution st; u_pass := p;
     u_matrix := u_matrix st; arrayBuffer := arrayBuffer st;
     draws := draws st |}.

Definition uniformMatrix3fv (matrix : Mat3) (st : State) : State :=
  {| u_resolution := u_resolution st; u_pass := u_pass st;
     u_matrix := matrix; arrayBuffer := arrayBuffer st;
     draws := draws st |}.

Definition bufferData (data : list Q) (st : State) : State :=
  {| u_resolution := u_resolution st; u_pass := u_pass st;
     u_matrix := u_matrix st; arrayBuffer := data;
     draws := draws st |}.

Definition drawArrays (count : nat) (st : State) : State :=
  {| u_resolution := u_resolution st; u_pass := u_pass st;
     u_matrix := u_matrix st; arrayBuffer := arrayBuffer st;
     draws := draws st ++
       [ {| d_pass := u_pass st; d_resolution := u_resolution st;
            d_matrix := u_matrix st; d_buffer := arrayBuffer st;
            d_count := count |} ] |}.

(** The coordinates of the full-screen rectangle: two triangles. *)
Definition rectangle (width height : Z) : list Q :=
  [ 0.0; 0.0; inject_Z width; 0.0; inject_Z width; inject_Z height;
    0.0; 0.0; inject_Z width; inject_Z height; 0.0; inject_Z height ].

Definition setFramebufferRectangle (width height : Z) (st : State) : State :=
  st |> bufferData (rectangle width height).

Definition bloomPass (e : WebGLEngine.t) (st : State) : State :=
  let '(cWidth, cHeight) := WebGLEngine.textureSize e in
  st |> setFramebufferRectangle cWidth cHeight
     |> setFramebuffer cWidth cHeight
     |> uniform_pass FRAGMENT_PASS_BRIGHTNESS
     |> drawArrays 6
     |> uniform_pass FRAGMENT_PASS_BLUR
     |> (fun st =>
           fold_left
             (fun st (pass : nat) =>
                st |> setFramebuffer cWidth cHeight |> drawArrays 6)
             (seq 0 (WebGLEngine.nBloomPasses e * 2)) st)
     |> setFramebuffer cWidth cHeight
     |> uniform_pass FRAGMENT_PASS_COMPOSITE
     |> drawArrays 6.

Definition draw (triangleData : list Q) (count : nat) (matrix : Mat3)
    (e : WebGLEngine.t) (st : State) : State :=
  let '(cWidth, cHeight) := WebGLEngine.textureSize e in
  st |> (if WebGLEngine.msaaEnabled e
         then setFramebuffer cWidth cHeight
         else setFramebuffer cWidth cHeight)
     |> uniform_pass FRAGMENT_PASS_NORMAL
     |> uniformMatrix3fv matrix
     |> bufferData triangleData
     |> drawArrays count
     |> setFramebuffer cWidth cHeight
     |> (if WebGLEngine.bloomEnabled e then bloomPass e else fun st => st)
     |> setFramebufferRectangle cWidth cHeight
     |> setFramebuffer cWidth cHeight
     |> uniform_pass FRAGMENT_PASS_TONEMAP
     |> drawArrays 6
     |> setFramebuffer (WebGLEngine.clientWidth e) (WebGLEngine.clientHeight e)
     |> uniform_pass FRAGMENT_PASS_PASSTHROUGH
     |> drawArrays 6.

(** The vertices that a [drawArrays] fetches: two numbers each, [count] of
    them from the start of the buffer. *)
Fixpoint vertices (buffer : list Q) (count : nat) : list (Q * Q) :=
  match count, buffer with
  | S count, x :: y :: buffer => (x, y) :: vertices buffer count
  | _, _ => []
  end.

(** The clip space position and the texture coordinate that the vertex
    shader computes for each vertex of a draw. *)
Definition shaded (d : Draw) : list ((Q * Q) * (Q * Q)) :=
  map (fun a_position =>
         let out :=
           VertexShader.main
             (inject_Z (fst (d_resolution d)), inject_Z (snd (d_resolution d)))
             (d_matrix d) (d_pass d) a_position in
         let '(x, y, _, _) := VertexShader.gl_Position out in
         ((x, y), VertexShader.v_texcoord out))
      (vertices (d_buffer d) (d_count d)).

End VertexStage.

(** ** The vertex data and the matrix of a frame ([drawFrame]) *)

(** JavaScript's [%] on numbers: the remainder has the sign of the
    dividend. *)
Definition Qtruncate (q : Q) : Z :=
  if Qle_bool 0 q then Qfloor q else Qceiling q.

Definition remainder (a b : Q) : Q := a - b * inject_Z (Qtruncate (a / b)).

Section FrameGeometry.

Variables cos sin : Q -> Q.

(** The triangles of the rays, flattened. *)
Definition triangleData (rays : list IrisIndicator.Ray) : list Q :=
  flat_map
    (fun ray =>
       MathUtil.coordsForRay cos sin
         (IrisIndicator.radians ray) (IrisIndicator.width ray)
         (IrisIndicator.inner (IrisIndicator.radius ray))
         (IrisIndicator.current (IrisIndicator.radius ray)))
    rays.

(** The angle by which the frame drawn at [now] is rotated. *)
Definition moveByRadians (now : Q) (s : IrisIndicator.t) : Q :=
  let rot :=
    remainder now (IrisIndicator.msPerRotation s)
    / IrisIndicator.msPerRotation s in
  - rot * (2 * JS.PI).

Definition frameMatrix (now : Q) (s : IrisIndicator.t) : MathUtil.Mat3 :=
  let '(cWidth, cHeight) :=
    WebGLEngine.textureSize (IrisIndicator.engine s) in
  let originX := inject_Z cWidth / 2 in
  let originY := inject_Z cHeight / 2 in
  MathUtil.mat3mul
    (MathUtil.translationMatrix originX originY)
    (MathUtil.rotationMatrix cos sin (moveByRadians now s)).

(** What the frame that [drawFrame] draws at [now] feeds the vertex shader:
    the triangles of the rays as they are after the frame's movement, three
    vertices per ray, and the frame's matrix. *)
Definition frameDraws (now : Q) (s : IrisIndicator.t) : list VertexStage.Draw :=
  let s' := IrisIndicator.drawFrame now s in
  VertexStage.draws
    (VertexStage.draw (triangleData (IrisIndicator.rays s'))
       (3 * length (IrisIndicator.rays s')) (frameMatrix now s')
       (IrisIndicator.engine s') VertexStage.fresh).

End FrameGeometry.

(** Rational points of the unit circle, for sample runs: the angle [a]
    stands for the point with parameter [a]. *)
Definition sampleCos (a : Q) : Q := (1 - a * a) / (1 + a * a).
Definition sampleSin (a : Q) : Q := 2 * a / (1 + a * a).

(** Two points are the same point. *)
Definition sameXY (p q : Q * Q) : Prop := fst p == fst q /\ snd p == snd q.

(** The corners of clip space and of a texture in the order of the
    rectangle's vertices. *)
Definition clipCorners : list (Q * Q) :=
  [(-1, 1); (1, 1); (1, -1); (-1, 1); (1, -1); (-1, -1)].

Definition textureCorners : list (Q * Q) :=
  [(0, 1); (1, 1); (1, 0); (0, 1); (1, 0); (0, 0)].

(** The square of the distance, in pixels of a texture of the given size,
    between the texture's centre and the clip space position [p]. *)
Definition centreDistanceSq (size : Z * Z) (p : Q * Q) : Q :=
  let dx := fst p * inject_Z (fst size) / 2 in
  let dy := snd p * inject_Z (snd size) / 2 in
  dx * dx + dy * dy.

(** The pass and the vertex count of a planned draw call. *)
Definition planned (v : DrawView) : GL.FragmentPass * nat :=
  let '(pass, _, _, _, count) := v in (pass, count).

(** A post-processing draw of the engine [e]: the rectangle of the texture
    size, drawn at the resolution of the texture size. *)
Definition offscreenDraw (e : WebGLEngine.t) (matrix : MathUtil.Mat3)
    (pass : GL.FragmentPass) : VertexStage.Draw :=
  let '(cWidth, cHeight) := WebGLEngine.textureSize e in
  {| VertexStage.d_pass := pass;
     VertexStage.d_resolution := (cWidth, cHeight);
     VertexStage.d_matrix := matrix;
     VertexStage.d_buffer := VertexStage.rectangle cWidth cHeight;
     VertexStage.d_count := 6 |}.

(** The last draw: the same rectangle at the resolution of the canvas. *)
Definition canvasDraw (e : WebGLEngine.t) (matrix : MathUtil.Mat3)
    : VertexStage.Draw :=
  let '(cWidth, cHeight) := WebGLEngine.textureSize e in
  {| VertexStage.d_pass := GL.FRAGMENT_PASS_PASSTHROUGH;
     VertexStage.d_resolution :=
       (WebGLEngine.clientWidth e, WebGLEngine.clientHeight e);
     VertexStage.d_matrix := matrix;
     VertexStage.d_buffer := VertexStage.rectangle cWidth cHeight;
     VertexStage.d_count := 6 |}.

(** ** The fragment shader ([src/shaders/fragment_shader.glsl]) *)

Module FragmentShader.

(** GLSL's [vec3] and [vec4] of colors. *)
Definition RGB : Type := Q * Q * Q.
Definition RGBA : Type := Q * Q * Q * Q.


(** The color that is set during inactivity. *)
Definition INACTIVE_COLOR : RGBA := (1.0, 1.0, 1.0, 1.0).

Definition PI : Q := 3.1415926535897932384626433.
Definition MAX_RADIANS : Q := PI * 2.0.

(** One segment of the indicator circle. *)
Record Segment := {
  ratio : Q;
  color : RGBA
}.

(** GLSL's [mix], [+] and [*] on [vec4]. *)
Definition mix (x y : RGBA) (a : Q) : RGBA :=
  let '(x0, x1, x2, x3) := x in
  let '(y0, y1, y2, y3) := y in
  (x0 * (1 - a) + y0 * a, x1 * (1 - a) + y1 * a,
   x2 * (1 - a) + y2 * a, x3 * (1 - a) + y3 * a).

Definition add4 (x y : RGBA) : RGBA :=
  let '(x0, x1, x2, x3) := x in
  let '(y0, y1, y2, y3) := y in
  (x0 + y0, x1 + y1, x2 + y2, x3 + y3).


Definition rgb (c : RGBA) : RGB := let '(r, g, b, _) := c in (r, g, b).

Definition luminance (c : RGB) : Q :=
  let '(r, g, b) := c in r * 0.2126 + g * 0.7152 + b * 0.0722.

(** The first loop of [compute_color]: the color of the last non-empty
    segment. *)
Definition presetPrevColor (u_segments : Vec4 Segment) : RGBA :=
  fst (fold_left
         (fun (st : RGBA * bool) (i : nat) =>
            let '(prevColor, broken) := st in
            if broken then st
            else if JS.Qltb 0 (ratio (vnth u_segments i))
                 then (color (vnth u_segments i), true)
                 else st)
         [3; 2; 1; 0]%nat (INACTIVE_COLOR, false)).

(** The inner loop of [compute_color]: the next available color after
    segment [i]. *)
Definition findNextColor (u_segments : Vec4 Segment) (i : nat) : RGBA :=
  let next := if (i =? 4 - 1)%nat then 0%nat else (i + 1)%nat in
  let '(nextColor, _, _, _) :=
    fold_left
      (fun (st : RGBA * nat * Segment * bool) (j : nat) =>
         let '(nextColor, next, nextSegment, broken) := st in
         if broken then st
         else if JS.Qltb 0 (ratio nextSegment)
              then (color nextSegment, next, nextSegment, true)
              else
                let next := S next in
                let next := if (4 - 1 <=? next)%nat then 0%nat else next in
                (nextColor, next, vnth u_segments next, false))
      (seq 0 4) (INACTIVE_COLOR, next, vnth u_segments next, false) in
  nextColor.

(** One iteration of the segment loop of [compute_color]; the state is
    [segmentStart], [prevColor] and the color returned so far. *)
Definition segmentStep (u_segments : Vec4 Segment) (rad radThreshold : Q)
    (st : Q * RGBA * option RGBA) (i : nat) : Q * RGBA * option RGBA :=
  let '(segmentStart, prevColor, returned) := st in
  match returned with
  | Some _ => st
  | None =>
      if Qeq_bool (ratio (vnth u_segments i)) 0.0 then st
      else
        let currentColor := color (vnth u_segments i) in
        let segmentEnd :=
          segmentStart + ratio (vnth u_segments i) * MAX_RADIANS in
        if Qle_bool segmentStart rad
           && Qle_bool rad (segmentStart + radThreshold)
        then
          let blendStart := segmentStart - radThreshold in
          let blendEnd := segmentStart + radThreshold in
          (segmentStart, prevColor,
           Some (mix prevColor currentColor
                   ((rad - blendStart + 1.0) / (blendEnd - blendStart + 1.0))))
        else if JS.Qltb (segmentStart + radThreshold) rad
                && Qle_bool rad (segmentEnd - radThreshold)
        then (segmentStart, prevColor, Some currentColor)
        else if JS.Qltb (segmentEnd - radThreshold) rad
                && Qle_bool rad segmentEnd
        then
          let nextColor := findNextColor u_segments i in
          let blendStart := segmentEnd - radThreshold in
          let blendEnd := segmentEnd + radThreshold in
          (segmentStart, prevColor,
           Some (mix currentColor nextColor
                   ((rad - blendStart) / (blendEnd - blendStart))))
        else (segmentEnd, color (vnth u_segments i), None)
  end.

(** The loops of [compute_color] for the pixel at the angle [rad] and the
    threshold [radThreshold]. *)
Definition compute_color_at (u_segments : Vec4 Segment)
    (rad radThreshold : Q) : RGBA :=
  let prevColor := presetPrevColor u_segments in
  let '(_, _, returned) :=
    fold_left (segmentStep u_segments rad radThreshold) (seq 0 4)
      (0.0, prevColor, None) in
  match returned with
  | Some fragColor => fragColor
  | None => INACTIVE_COLOR
  end.

(** [compute_color] for the pixel at the angle [rad], which stands for
    [atan(coords.y, coords.x) + PI]. *)
Definition compute_color (u_segments : Vec4 Segment) (u_blendRatio rad : Q)
    : RGBA :=
  let radThreshold := MAX_RADIANS * u_blendRatio in
  compute_color_at u_segments rad radThreshold.


(** The brightness pass of [main]. *)
Definition brightness (fragColor : RGBA) : RGBA :=
  let l := luminance (rgb fragColor) in
  if JS.Qltb 1.0 l then fragColor else (0.0, 0.0, 0.0, 0.0).

(** The compositing pass of [main]. *)
Definition composite (originalColor blurColor : RGBA) : RGBA :=
  add4 originalColor blurColor.

End FragmentShader.

(** Two colors are the same color. *)
Definition sameColor (c d : FragmentShader.RGBA) : Prop :=
  let '(c0, c1, c2, c3) := c in
  let '(d0, d1, d2, d3) := d in
  c0 == d0 /\ c1 == d1 /\ c2 == d2 /\ c3 == d3.

(** Where segment [i] starts on the circle, in radians. *)
Definition segmentStartOf (u_segments : Vec4 FragmentShader.Segment) (i : nat)
    : Q :=
  fold_left
    (fun start k =>
       start + FragmentShader.ratio (vnth u_segments k)
               * FragmentShader.MAX_RADIANS)
    (seq 0 i) 0.

(** Every component of the color lies between [lo] and [hi]. *)
Definition within (lo hi : Q) (c : FragmentShader.RGBA) : Prop :=
  let '(c0, c1, c2, c3) := c in
  lo <= c0 <= hi /\ lo <= c1 <= hi /\ lo <= c2 <= hi /\ lo <= c3 <= hi.


(** Sample uniforms: a quarter, nothing, a half, a quarter. *)
Definition sampleSegments : Vec4 FragmentShader.Segment :=
  vec4 {| FragmentShader.ratio := 1 # 4;
          FragmentShader.color := (10, 3, 3, 1) |}
       {| FragmentShader.ratio := 0;
          FragmentShader.color := (3, 10, 3, 1) |}
       {| FragmentShader.ratio := 1 # 2;
          FragmentShader.color := (2, 5, 10, 1) |}
       {| FragmentShader.ratio := 1 # 4;
          FragmentShader.color := (10, 3, 10, 1) |}.

(** The same with the last segment dropped. *)
Definition sampleThreeQuarters : Vec4 FragmentShader.Segment :=
  vset sampleSegments 3
    {| FragmentShader.ratio := 0;
       FragmentShader.color := (10, 3, 10, 1) |}.

(** One segment only, the last, with the whole circle. *)
Definition sampleLone : Vec4 FragmentShader.Segment :=
  vec4 {| FragmentShader.ratio := 0;
          FragmentShader.color := (10, 3, 3, 1) |}
       {| FragmentShader.ratio := 0;
          FragmentShader.color := (3, 10, 3, 1) |}
       {| FragmentShader.ratio := 0;
          FragmentShader.color := (2, 5, 10, 1) |}
       {| FragmentShader.ratio := 1;
          FragmentShader.color := (10, 3, 10, 1) |}.

(** The built-in colors of the indicator. *)
Definition colormap : list FragmentShader.RGBA :=
  [IrisIndicator.colormap_blue; IrisIndicator.colormap_red;
   IrisIndicator.colormap_green; IrisIndicator.colormap_yellow;
   IrisIndicator.colormap_purple].


(** ** The demo page ([src/index.ts]) *)

Module Index.

(** The rendering resolution derived from [window.devicePixelRatio]: only
    powers of two are allowed. *)
Definition normalizedDPR (devicePixelRatio : Q) : Z :=
  let dpr := Qceiling devicePixelRatio in
  if existsb (Z.eqb dpr) [1; 2; 4; 8; 16]%Z then dpr
  else if (16 <? dpr)%Z then 16%Z
  else if (8 <? dpr)%Z then 8%Z
  else if (4 <? dpr)%Z then 4%Z
  else if (2 <? dpr)%Z then 2%Z
  else 1%Z.

(** The part of [globalState] that [simulationStep] reads and writes. *)
Record GlobalState := {
  simulation : bool;
  segmentCounts : Vec4 Q
}.

(** Runs a simple simulation to automate the segments.  [Math.random] is
    the one of the indicator. *)
Definition simulationStep (st : GlobalState * IrisIndicator.t)
    : GlobalState * IrisIndicator.t :=
  let '(globalState, indicator) := st in
  if negb (simulation globalState) then st
  else
    let rand := IrisIndicator.random indicator
                  (IrisIndicator.randomCalls indicator) in
    let indicator :=
      IrisIndicator.with_rays (IrisIndicator.rays indicator)
        (S (IrisIndicator.randomCalls indicator)) indicator in
    let counts := segmentCounts globalState in
    let counts :=
      if JS.Qltb rand 0.3 then vset counts 0 (vnth counts 0 + 1)
      else if JS.Qltb rand 0.6 then vset counts 1 (vnth counts 1 + 1)
      else if JS.Qltb 0.9 rand
           then vset (vset (vset (vset counts 0 1) 1 0) 2 0) 3 0
           else vset counts 2 (vnth counts 2 + 1) in
    ({| simulation := simulation globalState; segmentCounts := counts |},
     IrisIndicator.setSegmentCounts counts indicator).

End Index.

(** [n] steps of the simulation. *)
Fixpoint simulate (n : nat) (st : Index.GlobalState * IrisIndicator.t)
    : Index.GlobalState * IrisIndicator.t :=
  match n with
  | O => st
  | S n => simulate n (Index.simulationStep st)
  end.

(** The state of the demo page at its start: one element in the third
    segment, the simulation on. *)
Definition sampleGlobalState : Index.GlobalState :=
  {| Index.simulation := true; Index.segmentCounts := vec4 0 0 1 0 |}.

(** Counts that are not negative and not all zero. *)
Definition countable (counts : Vec4 Q) : Prop :=
  0 <= vx counts /\ 0 <= vy counts /\ 0 <= vz counts /\ 0 <= vw counts /\
  1 <= vx counts + vy counts + vz counts + vw counts.
(** ** The bloom pass *)

Section Bloom.
Import GL.
Import WebGLEngine.

#[local] Arguments Nat.modulo : simpl never.
#[local] Arguments Nat.lxor : simpl never.

(** What the blur loop does to the context, whatever the number of
    iterations. *)
Lemma blur_loop (w h : Z) (m : nat) (c : Context) :
  let r := fold_left (blurIteration w h) (seq 0 m) (c, 0%nat) in
  u_pass (fst r) = u_pass c /\
  allocations (fst r) = allocations c /\
  snd r = (Nat.pred m mod 2)%nat /\
  exists ds,
    drawCalls (fst r) = drawCalls c ++ ds /\
    length ds = m /\
    Forall (fun d => dc_pass d = u_pass c) ds /\
    (forall d, last (map Some ds) None = Some d ->
               dc_target d = Some (pingpong_fb (snd r))).
Proof.
  induction m as [|m IH]; intros r.
  - subst r. cbn. repeat split; trivial.
    exists []. rewrite app_nil_r. repeat split; auto. discriminate.
  - subst r. rewrite seq_S, fold_left_app. cbn [Nat.add fold_left].
    destruct IH as (Hp & Ha & Hl & ds & Hd & Hn & Hall & Hlast).
    destruct (fold_left (blurIteration w h) (seq 0 m) (c, 0%nat)) as [c' l].
    cbn [fst snd] in *. unfold blurIteration. cbn [fst snd].
    cbn. repeat split; trivial.
    exists (ds ++ [{| dc_pass := u_pass c';
                      dc_target := Some (PingpongFb (m mod 2));
                      dc_unit0 := textureUnits c' 0%nat;
                      dc_unit1 := textureUnits c' 1%nat;
                      dc_horizontal := (m mod 2)%nat;
                      dc_count := 6 |}]).
    rewrite Hd, <- app_assoc. repeat split.
    + rewrite length_app, Hn. cbn. lia.
    + apply Forall_app. split; trivial. constructor; [exact Hp | constructor].
    + intros d. rewrite map_app. cbn [map]. rewrite last_last.
      intros [= <-]. reflexivity.
Qed.

(** The draw calls of one bloom pass: the brightness extraction, the blur
    iterations, the composite. *)
Lemma bloomPass_draws (sourceTexture : Texture) (nPasses : nat) (e : t) :
  let r := bloomPass sourceTexture nPasses e in
  let lastActiveTexture := (Nat.pred (nPasses * 2) mod 2)%nat in
  exists brightness blurs composite,
    drawCalls (gl (fst r)) =
      drawCalls (gl e) ++ brightness :: blurs ++ [composite] /\
    dc_pass brightness = FRAGMENT_PASS_BRIGHTNESS /\
    length blurs = (nPasses * 2)%nat /\
    Forall (fun d => dc_pass d = FRAGMENT_PASS_BLUR) blurs /\
    (forall d, last (map Some blurs) None = Some d ->
               dc_target d = Some (pingpong_fb lastActiveTexture)) /\
    dc_pass composite = FRAGMENT_PASS_COMPOSITE /\
    dc_target composite =
      Some (pingpong_fb (Nat.lxor lastActiveTexture 1)) /\
    dc_unit1 composite = Some (pingpong_rbuf lastActiveTexture) /\
    snd r = pingpong_rbuf (Nat.lxor lastActiveTexture 1).
Proof.
  intros r last. subst r. unfold bloomPass.
  destruct (textureSize e) as [w h].
  match goal with
  | |- context [fold_left (blurIteration w h) (seq 0 ?m) (?c, 0%nat)] =>
      pose proof (blur_loop w h m c) as H; cbv zeta in H;
      destruct (fold_left (blurIteration w h) (seq 0 m) (c, 0%nat))
        as [c' l]
  end.
  cbn [fst snd] in H. destruct H as (Hp & _ & Hl & ds & Hd & Hn & Hall & Hlast).
  cbn in Hp, Hd, Hall. cbn.
  eexists _, ds, _. rewrite Hd, <- !app_assoc. cbn [app].
  subst last. rewrite <- Hl.
  repeat split; try reflexivity; assumption.
Qed.

Lemma filter_blur_all (ds : list DrawCall) :
  Forall (fun d => dc_pass d = FRAGMENT_PASS_BLUR) ds ->
  filter (fun d => pass_eqb (dc_pass d) FRAGMENT_PASS_BLUR) ds = ds.
Proof.
  induction 1 as [|d ds Hd _ IH]; cbn [filter]; trivial.
  rewrite Hd, IH. reflexivity.
Qed.

(** The number of blur draw calls one [draw] adds: twice the configured
    number of bloom passes with bloom enabled. *)
Lemma draw_blurDraws (count : nat) (e : t) :
  bloomEnabled e = true ->
  length (blurDraws (gl (draw count e))) =
  (length (blurDraws (gl e)) + nBloomPasses e * 2)%nat.
Proof.
  intros Hbloom. unfold draw. destruct (textureSize e) as [w h] eqn:Hsize.
  match goal with
  | |- context [bloomPass ?src ?n ?e'] =>
      assert (Hsize' : textureSize e' = (w, h)) by exact Hsize;
      assert (Hb : bloomEnabled e' = true) by exact Hbloom;
      assert (Hn : nBloomPasses e' = nBloomPasses e) by reflexivity;
      assert (Hpre : exists d,
                drawCalls (gl e') = drawCalls (gl e) ++ [d] /\
                dc_pass d = FRAGMENT_PASS_NORMAL)
        by (destruct (msaaEnabled e); eexists; split; reflexivity);
      generalize dependent e'
  end.
  intros e' He' Hb Hn (d0 & Hpre & Hd0). rewrite Hb, Hn.
  pose proof (bloomPass_draws scenetarget_scene (nBloomPasses e) e') as H.
  cbv zeta in H.
  destruct (bloomPass scenetarget_scene (nBloomPasses e) e') as [e'' out].
  cbn [fst snd] in H.
  destruct H as (b & ds & c & Hd & Hb' & Hlen & Hall & _ & Hc & _).
  unfold blurDraws, setFramebufferRectangle, bufferData. cbn.
  rewrite Hd, Hpre.
  rewrite <- !app_assoc. cbn [app].
  repeat first [ rewrite filter_app
               | progress cbn [filter pass_eqb dc_pass]
               | rewrite Hd0 | rewrite Hb' | rewrite Hc ].
  rewrite (filter_blur_all ds) by assumption.
  rewrite !length_app. cbn [length]. lia.
Qed.

Lemma last_blur_slot (nPasses : nat) :
  (1 <= nPasses)%nat -> (Nat.pred (nPasses * 2) mod 2 = 1)%nat.
Proof.
  intros H. destruct nPasses as [|m]; [lia|].
  replace (Nat.pred (S m * 2)) with (1 + m * 2)%nat by lia.
  rewrite Nat.Div0.mod_add. reflexivity.
Qed.

(** C3, as amended: with bloom enabled, one [draw] after
    [setBloomIntensity k] runs exactly [k * 16] single-direction blur
    draws, twice the [k * 8] passes that the setter stores (so 16, 32, 64
    or 128 for the intensities 1, 2, 4, 8). *)
Theorem draw_blur_pass_count (k count : nat) (e : t) :
  bloomEnabled e = true ->
  nBloomPasses (setBloomIntensity k e) = (k * 8)%nat /\
  length (blurDraws (gl (draw count (setBloomIntensity k e)))) =
  (length (blurDraws (gl e)) + k * 16)%nat.
Proof.
  intros Hbloom. split; [reflexivity|].
  rewrite draw_blurDraws by exact Hbloom.
  cbn [setBloomIntensity nBloomPasses gl]. lia.
Qed.

Lemma draw_blur_pass_count_witness :
  bloomEnabled sampleEngine = true /\
  nBloomPasses (setBloomIntensity 2 sampleEngine) = 16%nat /\
  length (blurDraws (gl (draw 48 (setBloomIntensity 2 sampleEngine)))) =
  (length (blurDraws (gl sampleEngine)) + 32)%nat.
Proof.
  split; [reflexivity|].
  apply (draw_blur_pass_count 2 48 sampleEngine). reflexivity.
Defined.

(** C3 as stated fails: at intensity 1 a draw runs 16 blur draws, not 8. *)
Lemma intensity_1_runs_16_blur_draws :
  bloomEnabled sampleEngine = true /\
  length (blurDraws (gl sampleEngine)) = 0%nat /\
  length (blurDraws (gl (draw 48 (setBloomIntensity 1 sampleEngine)))) = 16%nat /\
  length (blurDraws (gl (draw 48 (setBloomIntensity 1 sampleEngine)))) <>
  (length (blurDraws (gl sampleEngine)) + 1 * 8)%nat.
Proof. vm_compute. repeat split; discriminate. Qed.

(** C9: with at least one configured blur pass, the composite draw of
    [bloomPass] writes into the ping-pong slot other than the one the last
    blur iteration wrote (which is the slot bound on texture unit 1 as the
    blurred source), and the returned texture is the texture of the slot the
    composite wrote. *)
Theorem bloomPass_composite_slot (sourceTexture : Texture) (nPasses : nat)
    (e : t) :
  (1 <= nPasses)%nat ->
  exists blurSlot compositeSlot brightness blurs lastBlur composite,
    drawCalls (gl (fst (bloomPass sourceTexture nPasses e))) =
      drawCalls (gl e) ++ brightness :: blurs ++ [lastBlur; composite] /\
    dc_pass brightness = FRAGMENT_PASS_BRIGHTNESS /\
    Forall (fun d => dc_pass d = FRAGMENT_PASS_BLUR) (blurs ++ [lastBlur]) /\
    dc_target lastBlur = Some (pingpong_fb blurSlot) /\
    dc_pass composite = FRAGMENT_PASS_COMPOSITE /\
    dc_target composite = Some (pingpong_fb compositeSlot) /\
    dc_unit1 composite = Some (pingpong_rbuf blurSlot) /\
    compositeSlot <> blurSlot /\
    snd (bloomPass sourceTexture nPasses e) = pingpong_rbuf compositeSlot.
Proof.
  intros Hn.
  destruct (bloomPass_draws sourceTexture nPasses e)
    as (b & ds & c & Hd & Hb & Hlen & Hall & Hlast & Hc & Ht & Hu & Hr).
  rewrite (last_blur_slot nPasses Hn) in Hlast, Ht, Hu, Hr.
  destruct (exists_last (l := ds)) as (blurs & lastBlur & ->).
  { intros ->. cbn in Hlen. lia. }
  exists 1%nat, 0%nat, b, blurs, lastBlur, c.
  rewrite Hd, <- app_assoc. cbn [app].
  repeat split; trivial.
  apply Hlast. rewrite map_app. cbn [map]. apply last_last.
Qed.

Lemma bloomPass_composite_slot_witness :
  (1 <= 8)%nat /\
  exists blurSlot compositeSlot brightness blurs lastBlur composite,
    drawCalls (gl (fst (bloomPass SceneTex 8 sampleEngine))) =
      drawCalls (gl sampleEngine) ++
      brightness :: blurs ++ [lastBlur; composite] /\
    dc_pass brightness = FRAGMENT_PASS_BRIGHTNESS /\
    Forall (fun d => dc_pass d = FRAGMENT_PASS_BLUR) (blurs ++ [lastBlur]) /\
    dc_target lastBlur = Some (pingpong_fb blurSlot) /\
    dc_pass composite = FRAGMENT_PASS_COMPOSITE /\
    dc_target composite = Some (pingpong_fb compositeSlot) /\
    dc_unit1 composite = Some (pingpong_rbuf blurSlot) /\
    compositeSlot <> blurSlot /\
    snd (bloomPass SceneTex 8 sampleEngine) = pingpong_rbuf compositeSlot.
Proof.
  split; [lia|].
  apply (bloomPass_composite_slot SceneTex 8 sampleEngine). lia.
Defined.
End Bloom.

(** ** Resizing *)

Section Resize.
Import GL.

(** [onResize] reallocates every offscreen target at the texture size. *)
Lemma onResize_allocations (e : WebGLEngine.t) :
  allocations (WebGLEngine.gl (WebGLEngine.onResize e)) =
  allocations (WebGLEngine.gl e) ++
  WebGLEngine.resize_allocations (WebGLEngine.textureSize e).
Proof.
  unfold WebGLEngine.onResize.
  destruct (WebGLEngine.textureSize e) as [w h].
  cbn. unfold texImage2D. cbn. rewrite !Nat.eqb_refl. cbn.
  rewrite <- !app_assoc. reflexivity.
Qed.

(** C4, as amended: every [setTextureSizeModifier] runs the engine's
    [onResize] with the new modifier (at most 2) in place, so that every
    offscreen target is reallocated at the new texture size, and the
    indicator's setter also flags a resize for the next frame;
    [setMSAAEnabled] only stores the flag: it makes no WebGL call, allocates
    nothing and flags no resize (the multisampled target is allocated
    whatever the flag says). *)
Theorem setTextureSizeModifier_resizes (modifier : Q) (enabled : bool)
    (s : IrisIndicator.t) :
  let e := IrisIndicator.engine s in
  let e' := WebGLEngine.setTextureSizeModifier modifier e in
  (IrisIndicator.engine (IrisIndicator.setTextureSizeModifier modifier s) = e' /\
   IrisIndicator.resizeOnNextDraw
     (IrisIndicator.setTextureSizeModifier modifier s) = true /\
   WebGLEngine.textureSizeModifier e' = Qmin modifier 2 /\
   WebGLEngine.textureSize e' =
     (Qceiling (inject_Z (WebGLEngine.clientWidth e) * Qmin modifier 2),
      Qceiling (inject_Z (WebGLEngine.clientHeight e) * Qmin modifier 2)) /\
   allocations (WebGLEngine.gl e') =
     allocations (WebGLEngine.gl e) ++
     WebGLEngine.resize_allocations (WebGLEngine.textureSize e')) /\
  (IrisIndicator.engine (IrisIndicator.setMSAAEnabled enabled s) =
     WebGLEngine.setMSAAEnabled enabled e /\
   IrisIndicator.resizeOnNextDraw (IrisIndicator.setMSAAEnabled enabled s) =
     IrisIndicator.resizeOnNextDraw s /\
   WebGLEngine.msaaEnabled (WebGLEngine.setMSAAEnabled enabled e) = enabled /\
   WebGLEngine.gl (WebGLEngine.setMSAAEnabled enabled e) = WebGLEngine.gl e).
Proof.
  intros e e'. split; [|repeat split].
  repeat split.
  subst e'. unfold WebGLEngine.setTextureSizeModifier.
  rewrite onResize_allocations. reflexivity.
Qed.

(** C4 as stated fails for the anti-aliasing setting: switching MSAA off
    on the sample indicator reallocates nothing, neither at once nor by
    flagging a resize for the next frame. *)
Lemma setMSAAEnabled_no_resize :
  let s := IrisIndicator.setMSAAEnabled false sampleIndicator in
  WebGLEngine.msaaEnabled (IrisIndicator.engine sampleIndicator) = true /\
  WebGLEngine.msaaEnabled (IrisIndicator.engine s) = false /\
  IrisIndicator.resizeOnNextDraw s = false /\
  allocations (WebGLEngine.gl (IrisIndicator.engine s)) =
    allocations (WebGLEngine.gl (IrisIndicator.engine sampleIndicator)) /\
  allocations (WebGLEngine.gl (IrisIndicator.engine s)) <>
    allocations (WebGLEngine.gl (IrisIndicator.engine sampleIndicator)) ++
    WebGLEngine.resize_allocations
      (WebGLEngine.textureSize (IrisIndicator.engine s)).
Proof. vm_compute. repeat split; discriminate. Qed.
End Resize.

(** ** Comparisons on rationals *)

Lemma Qltb_true (a b : Q) : JS.Qltb a b = true <-> a < b.
Proof.
  unfold JS.Qltb. rewrite negb_true_iff, <- not_true_iff_false, Qle_bool_iff.
  split; [apply Qnot_le_lt | apply Qlt_not_le].
Qed.

Lemma Qltb_false (a b : Q) : JS.Qltb a b = false <-> b <= a.
Proof. unfold JS.Qltb. rewrite negb_false_iff. apply Qle_bool_iff. Qed.

Lemma Qeq_bool_false (a b : Q) : Qeq_bool a b = false <-> ~ a == b.
Proof.
  rewrite <- not_true_iff_false, Qeq_bool_iff. reflexivity.
Qed.

Lemma Qhalf (a : Q) : a / 2 == a * (1 # 2).
Proof. reflexivity. Qed.

(** The snap threshold [10e-4] of [drawFrame] is 1e-3. *)
Lemma snap_threshold : 10e-4 == 1 # 1000.
Proof. vm_compute. reflexivity. Qed.

Lemma one_thousandth : 1e-3 == 1 # 1000.
Proof. vm_compute. reflexivity. Qed.

(** Case analysis on the comparisons of a goal, turned into facts. *)
Ltac case_compare :=
  match goal with
  | |- context [JS.Qltb ?a ?b] =>
      let H := fresh "Hlt" in
      destruct (JS.Qltb a b) eqn:H;
      [apply Qltb_true in H | apply Qltb_false in H]
  | |- context [Qle_bool ?a ?b] =>
      let H := fresh "Hle" in
      destruct (Qle_bool a b) eqn:H;
      [apply Qle_bool_iff in H
      | apply not_true_iff_false in H; rewrite Qle_bool_iff in H]
  | |- context [Qeq_bool ?a ?b] =>
      let H := fresh "Heq" in
      destruct (Qeq_bool a b) eqn:H;
      [apply Qeq_bool_iff in H | apply Qeq_bool_false in H]
  end.

(** ** The blend ratio *)

Section BlendRatio.
Import GL.
Import WebGLEngine.

(** The indicator hands its colors and current ratios to the engine. *)
Lemma setSegments_segmentsOf (s : IrisIndicator.t) :
  IrisIndicator.setSegments s =
  IrisIndicator.with_engine
    (setSegments
       (segmentsOf (IrisIndicator.segmentColors s)
          (IrisIndicator.segmentRatiosCurrent s))
       (IrisIndicator.engine s)) s.
Proof. reflexivity. Qed.

Lemma setSegments_u_blendRatio (segments : Vec4 Segment) (e : t) :
  u_blendRatio (gl (setSegments segments e)) = blendRatioOf segments.
Proof. reflexivity. Qed.

(** The scan keeps a smallest nonzero ratio of what it has seen. *)
Lemma scan_finite (l : list Segment) :
  forall (qs seen : list Q) (blendRatio : JS.number),
    map ratio l = map JS.Fin qs ->
    scanned blendRatio seen ->
    scanned
      (fold_left
         (fun blendRatio seg =>
            if JS.strict_eq (ratio seg) (JS.Fin 0) then blendRatio
            else if JS.lt (ratio seg) blendRatio then ratio seg
            else blendRatio) l blendRatio)
      (seen ++ qs).
Proof.
  induction l as [|seg l IH]; intros qs seen acc Hmap Hacc.
  - destruct qs; [|discriminate]. rewrite app_nil_r. exact Hacc.
  - destruct qs as [|q qs]; [discriminate|].
    cbn [map] in Hmap. injection Hmap as Hq Hmap.
    cbn [fold_left]. rewrite Hq.
    replace (seen ++ q :: qs) with ((seen ++ [q]) ++ qs)
      by (rewrite <- app_assoc; reflexivity).
    apply IH; [exact Hmap|].
    cbn [JS.strict_eq]. case_compare.
    + (* a zero ratio is skipped *)
      destruct acc as [m| | |]; cbn [scanned] in *; try contradiction.
      * destruct Hacc as (Hin & Hnz & Hmin). repeat split; trivial.
        -- apply in_or_app. left. exact Hin.
        -- intros q' Hq' Hnz'. apply in_app_or in Hq'.
           destruct Hq' as [Hq'|[<-|[]]]; [auto | contradiction].
      * apply Forall_app. split; [exact Hacc|]. constructor; auto.
    + destruct acc as [m| | |]; cbn [scanned JS.lt] in *; try contradiction.
      * destruct Hacc as (Hin & Hnz & Hmin). case_compare.
        -- repeat split; trivial.
           ++ apply in_or_app. right. left. reflexivity.
           ++ intros q' Hq' Hnz'. apply in_app_or in Hq'.
              destruct Hq' as [Hq'|[<-|[]]]; [|lra].
              specialize (Hmin q' Hq' Hnz'). lra.
        -- repeat split; trivial.
           ++ apply in_or_app. left. exact Hin.
           ++ intros q' Hq' Hnz'. apply in_app_or in Hq'.
              destruct Hq' as [Hq'|[<-|[]]]; auto.
      * repeat split; trivial.
        -- apply in_or_app. right. left. reflexivity.
        -- intros q' Hq' Hnz'. apply in_app_or in Hq'.
           destruct Hq' as [Hq'|[<-|[]]]; [|lra].
           rewrite Forall_forall in Hacc. specialize (Hacc q' Hq').
           contradiction.
Qed.

Lemma smallestRatio_finite (segments : Vec4 Segment) (qs : list Q) :
  map ratio (vlist segments) = map JS.Fin qs ->
  scanned (smallestRatio segments) qs.
Proof.
  intros Hmap. unfold smallestRatio.
  apply (scan_finite (vlist segments) qs [] JS.PosInf Hmap).
  constructor.
Qed.

Lemma smallest_nonzero_unique (m m' : Q) (qs : list Q) :
  smallest_nonzero m qs -> smallest_nonzero m' qs -> m == m'.
Proof.
  intros (Hin & Hnz & Hmin) (Hin' & Hnz' & Hmin').
  specialize (Hmin m' Hin' Hnz'). specialize (Hmin' m Hin Hnz). lra.
Qed.

(** C7: for four finite ratios with a smallest nonzero one [m],
    [setSegments] uploads as blend ratio half of [m] clamped into
    [0.01, 0.1]; below the range the result is the constant 0.01 itself,
    above it the constant 0.1, so [m == 0.001] gives exactly 0.01 and
    [m == 0.5] gives exactly 0.1. *)
Theorem setSegments_blendRatio (segments : Vec4 Segment) (qs : list Q)
    (m : Q) (e : t) :
  map ratio (vlist segments) = map JS.Fin qs ->
  smallest_nonzero m qs ->
  exists r,
    u_blendRatio (gl (setSegments segments e)) = JS.Fin r /\
    r == Qmax (Qmin (m / 2) 0.1) 0.01 /\
    (m / 2 < 0.01 -> r = 0.01) /\
    (0.1 < m / 2 -> r = 0.1) /\
    (m == 0.001 -> r = 0.01) /\
    (m == 0.5 -> r = 0.1).
Proof.
  intros Hmap Hm. rewrite setSegments_u_blendRatio. unfold blendRatioOf.
  pose proof (smallestRatio_finite segments qs Hmap) as Hscan.
  destruct (smallestRatio segments) as [m'| | |]; cbn [scanned] in Hscan;
    try contradiction.
  2:{ destruct Hm as (Hin & Hnz & _). rewrite Forall_forall in Hscan.
      elim Hnz. auto. }
  pose proof (smallest_nonzero_unique m' m qs Hscan Hm) as Heq.
  cbn [JS.div]. change (Qeq_bool 2 0) with false. cbv iota.
  pose proof (Qhalf m) as Hh. pose proof (Qhalf m') as Hh'.
  set (h := m / 2) in *. set (h' := m' / 2) in *.
  destruct (Q.min_spec h 0.1) as [[? Hmin]|[? Hmin]];
    destruct (Q.max_spec (Qmin h 0.1) 0.01) as [[? Hmax]|[? Hmax]];
    cbn [JS.min JS.lt]; case_compare; cbn [JS.max JS.lt]; case_compare;
    try lra; eexists; (split; [reflexivity|]);
    repeat split; intros; try reflexivity; lra.
Qed.

Lemma setSegments_blendRatio_witness :
  let segments := segmentsOf sampleColors (vec4 0.001 0.999 0 0) in
  let qs := [0.001; 0.999; 0; 0] in
  map ratio (vlist segments) = map JS.Fin qs /\
  smallest_nonzero 0.001 qs /\
  exists r,
    u_blendRatio (gl (setSegments segments sampleEngine)) = JS.Fin r /\
    r == Qmax (Qmin (0.001 / 2) 0.1) 0.01 /\
    (0.001 / 2 < 0.01 -> r = 0.01) /\
    (0.1 < 0.001 / 2 -> r = 0.1) /\
    (0.001 == 0.001 -> r = 0.01) /\
    (0.001 == 0.5 -> r = 0.1).
Proof.
  intros segments qs.
  assert (Hmap : map ratio (vlist segments) = map JS.Fin qs) by reflexivity.
  assert (Hm : smallest_nonzero 0.001 qs).
  { repeat split.
    - left. reflexivity.
    - discriminate.
    - intros q [<-|[<-|[<-|[<-|[]]]]] Hnz;
        solve [discriminate | elim Hnz; reflexivity]. }
  split; [exact Hmap|]. split; [exact Hm|].
  apply (setSegments_blendRatio segments qs 0.001 sampleEngine Hmap Hm).
Defined.

(** The two sample vectors of the blend-width clamp, and the new sample
    indicator, whose ratios are all zero. *)
Example blendRatio_samples :
  blendRatioOf (segmentsOf sampleColors (vec4 0.001 0.999 0 0)) = JS.Fin 0.01 /\
  blendRatioOf (segmentsOf sampleColors (vec4 0.5 0 0.5 0)) = JS.Fin 0.1 /\
  blendRatioOf (segmentsOf sampleColors (vec4 0.3 0.1 0.6 0)) = JS.Fin (0.1 / 2) /\
  u_blendRatio (gl (IrisIndicator.engine sampleIndicator)) = JS.Fin 0.1.
Proof. repeat split. Qed.

(** The scan never holds NaN. *)
Lemma scan_not_NaN (l : list Segment) :
  forall blendRatio : JS.number,
    blendRatio <> JS.NaN ->
    fold_left
      (fun blendRatio seg =>
         if JS.strict_eq (ratio seg) (JS.Fin 0) then blendRatio
         else if JS.lt (ratio seg) blendRatio then ratio seg
         else blendRatio) l blendRatio <> JS.NaN.
Proof.
  induction l as [|seg l IH]; intros acc Hacc; cbn [fold_left]; trivial.
  apply IH. destruct (JS.strict_eq (ratio seg) (JS.Fin 0)); trivial.
  destruct (JS.lt (ratio seg) acc) eqn:Hlt; trivial.
  intros Hnan. rewrite Hnan in Hlt. discriminate.
Qed.

Lemma blendRatioOf_range (segments : Vec4 Segment) :
  JS.div (smallestRatio segments) (JS.Fin 2) <> JS.NaN /\
  exists r, blendRatioOf segments = JS.Fin r /\ 0.01 <= r <= 0.1.
Proof.
  unfold blendRatioOf.
  assert (Hnan : smallestRatio segments <> JS.NaN)
    by (apply scan_not_NaN; discriminate).
  destruct (smallestRatio segments) as [m| | |]; try contradiction.
  - cbn [JS.div]. change (Qeq_bool 2 0) with false. cbv iota.
    split; [discriminate|].
    cbn [JS.min JS.lt]. case_compare; cbn [JS.max JS.lt]; case_compare;
      eexists; (split; [reflexivity|]); lra.
  - split; [discriminate|]. exists 0.1. split; [reflexivity|lra].
  - split; [discriminate|]. exists 0.01. split; [reflexivity|lra].
Qed.

(** C10: whatever the four ratios are, [setSegments] divides by the
    constant 2 only, its half of the scanned ratio is not NaN, and the blend
    ratio it uploads is a finite number between 0.01 and 0.1; the ratios
    themselves are uploaded as given.  For four zero ratios the scan leaves
    [Infinity] and the blend ratio is exactly 0.1. *)
Theorem blendRatio_always_defined (segments : Vec4 Segment)
    (colors : Vec4 (Q * Q * Q * Q)) (e : t) :
  let zeros := segmentsOf colors (vec4 0 0 0 0) in
  (blendRatioOf segments =
     JS.max (JS.min (JS.div (smallestRatio segments) (JS.Fin 2)) (JS.Fin 0.1))
            (JS.Fin 0.01) /\
   JS.div (smallestRatio segments) (JS.Fin 2) <> JS.NaN /\
   exists r,
     u_blendRatio (gl (setSegments segments e)) = JS.Fin r /\
     0.01 <= r <= 0.1) /\
  vmap su_ratio (u_segments (gl (setSegments segments e))) =
    vmap ratio segments /\
  smallestRatio zeros = JS.PosInf /\
  u_blendRatio (gl (setSegments zeros e)) = JS.Fin 0.1.
Proof.
  intros zeros.
  destruct (blendRatioOf_range segments) as (Hdiv & r & Hr & Hrange).
  split; [split; [reflexivity | split; [exact Hdiv|]]|].
  - exists r. rewrite setSegments_u_blendRatio. split; assumption.
  - split; [|split; reflexivity].
    destruct segments as [[[[[? ?] ?] ?] ?] [[[[? ?] ?] ?] ?]
                          [[[[? ?] ?] ?] ?] [[[[? ?] ?] ?] ?]].
    reflexivity.
Qed.
End BlendRatio.

(** ** What a frame leaves as it is *)

Section Frame.
Import IrisIndicator.

Lemma generateRays_fields (s : t) :
  let s' := generateRays s in
  engine s' = engine s /\
  nRays s' = nRays s /\
  autoAdjustRays s' = autoAdjustRays s /\
  segmentAdjustmentAnimationStepDuration s' =
    segmentAdjustmentAnimationStepDuration s /\
  rayMovementSpeed s' = rayMovementSpeed s /\
  segmentRatiosTarget s' = segmentRatiosTarget s /\
  segmentRatiosCurrent s' = segmentRatiosCurrent s /\
  segmentColors s' = segmentColors s /\
  fpsLimitEnabled s' = fpsLimitEnabled s /\
  fpsLimit s' = fpsLimit s /\
  frameTimings s' = frameTimings s /\
  timestamp s' = timestamp s /\
  previousTimestamp s' = previousTimestamp s /\
  resizeOnNextDraw s' = resizeOnNextDraw s.
Proof.
  unfold generateRays. destruct (WebGLEngine.textureSize (engine s)).
  destruct (fold_left _ _ _). cbn. repeat split.
Qed.

Lemma doResizeCalculation_fields (s : t) :
  let s' := doResizeCalculation s in
  autoAdjustRays s' = autoAdjustRays s /\
  segmentAdjustmentAnimationStepDuration s' =
    segmentAdjustmentAnimationStepDuration s /\
  rayMovementSpeed s' = rayMovementSpeed s /\
  segmentRatiosTarget s' = segmentRatiosTarget s /\
  segmentRatiosCurrent s' = segmentRatiosCurrent s /\
  fpsLimitEnabled s' = fpsLimitEnabled s /\
  fpsLimit s' = fpsLimit s /\
  frameTimings s' = frameTimings s /\
  timestamp s' = timestamp s /\
  previousTimestamp s' = previousTimestamp s /\
  resizeOnNextDraw s' = false.
Proof.
  unfold doResizeCalculation.
  match goal with
  | |- context [generateRays ?x] =>
      pose proof (generateRays_fields x) as H; cbv zeta in H;
      destruct H as (_ & _ & -> & -> & -> & -> & -> & _ & -> & -> & -> & ->
                     & -> & ->)
  end.
  cbn. destruct (autoAdjustRays s) eqn:Hauto; cbn; rewrite ?Hauto;
    repeat split.
Qed.

(** The eased ratios depend on the time since the last frame, on the step
    duration and on the targets only. *)
Lemma easeSegments_ease (step : Q) (target ratios : Vec4 Q) (changed : bool) :
  fst (fold_left (easeSegment step target) (seq 0 MAX_SUPPORTED_SEGMENTS)
         (ratios, changed)) =
  vec4 (ease step (vx ratios) (vx target)) (ease step (vy ratios) (vy target))
       (ease step (vz ratios) (vz target)) (ease step (vw ratios) (vw target)).
Proof.
  destruct ratios as [c0 c1 c2 c3], target as [t0 t1 t2 t3].
  cbn [seq MAX_SUPPORTED_SEGMENTS fold_left]. unfold easeSegment, ease.
  cbn [vnth vset vx vy vz vw].
  destruct (Qeq_bool c0 t0), (JS.Qltb (Qabs (t0 - c0)) 10e-4);
    cbn [vnth vset vx vy vz vw];
    destruct (Qeq_bool c1 t1), (JS.Qltb (Qabs (t1 - c1)) 10e-4);
    cbn [vnth vset vx vy vz vw];
    destruct (Qeq_bool c2 t2), (JS.Qltb (Qabs (t2 - c2)) 10e-4);
    cbn [vnth vset vx vy vz vw];
    destruct (Qeq_bool c3 t3), (JS.Qltb (Qabs (t3 - c3)) 10e-4);
    reflexivity.
Qed.

Lemma drawFrame_fields (now : Q) (s : t) :
  let s' := drawFrame now s in
  segmentAdjustmentAnimationStepDuration s' =
    segmentAdjustmentAnimationStepDuration s /\
  rayMovementSpeed s' = rayMovementSpeed s /\
  segmentRatiosTarget s' = segmentRatiosTarget s /\
  fpsLimitEnabled s' = fpsLimitEnabled s /\
  fpsLimit s' = fpsLimit s /\
  frameTimings s' = frameTimings s /\
  timestamp s' = now /\
  previousTimestamp s' = previousTimestamp s /\
  resizeOnNextDraw s' = false /\
  autoAdjustRays s' = autoAdjustRays s.
Proof.
  unfold drawFrame.
  set (s1 := if resizeOnNextDraw (with_timestamp now s)
             then doResizeCalculation (with_timestamp now s)
             else with_timestamp now s).
  assert (H1 :
    segmentAdjustmentAnimationStepDuration s1 =
      segmentAdjustmentAnimationStepDuration s /\
    rayMovementSpeed s1 = rayMovementSpeed s /\
    segmentRatiosTarget s1 = segmentRatiosTarget s /\
    fpsLimitEnabled s1 = fpsLimitEnabled s /\
    fpsLimit s1 = fpsLimit s /\
    frameTimings s1 = frameTimings s /\
    timestamp s1 = now /\
    previousTimestamp s1 = previousTimestamp s /\
    resizeOnNextDraw s1 = false /\
    autoAdjustRays s1 = autoAdjustRays s).
  { subst s1. destruct (resizeOnNextDraw (with_timestamp now s)) eqn:Hr.
    - pose proof (doResizeCalculation_fields (with_timestamp now s)) as H.
      cbv zeta in H.
      destruct H as (-> & -> & -> & -> & _ & -> & -> & -> & -> & -> & ->).
      repeat split.
    - repeat split. exact Hr. }
  clearbody s1.
  destruct (fold_left _ _ _) as [ratios changed].
  destruct changed; cbn; exact H1.
Qed.

Lemma drawFrame_ratios (now : Q) (s : t) :
  let step := (now - timestamp s) / segmentAdjustmentAnimationStepDuration s in
  let cur := segmentRatiosCurrent s in
  let tar := segmentRatiosTarget s in
  segmentRatiosCurrent (drawFrame now s) =
  vec4 (ease step (vx cur) (vx tar)) (ease step (vy cur) (vy tar))
       (ease step (vz cur) (vz tar)) (ease step (vw cur) (vw tar)).
Proof.
  intros step cur tar. unfold drawFrame.
  set (s1 := if resizeOnNextDraw (with_timestamp now s)
             then doResizeCalculation (with_timestamp now s)
             else with_timestamp now s).
  assert (H1 :
    segmentAdjustmentAnimationStepDuration s1 =
      segmentAdjustmentAnimationStepDuration s /\
    segmentRatiosTarget s1 = tar /\ segmentRatiosCurrent s1 = cur).
  { subst s1. destruct (resizeOnNextDraw (with_timestamp now s)).
    - pose proof (doResizeCalculation_fields (with_timestamp now s)) as H.
      cbv zeta in H.
      destruct H as (_ & -> & _ & -> & -> & _). repeat split.
    - repeat split. }
  clearbody s1. destruct H1 as (Hd & Ht & Hc).
  pose proof (easeSegments_ease
                ((now - timestamp s) /
                 segmentAdjustmentAnimationStepDuration s1)
                (segmentRatiosTarget s1) (segmentRatiosCurrent s1) false)
    as He.
  destruct (fold_left _ _ _) as [ratios changed]. cbn [fst] in He.
  rewrite Hd, Ht, Hc in He.
  destruct changed; cbn; exact He.
Qed.
End Frame.

(** ** Easing of the segment ratios *)

Section Easing.
Import IrisIndicator.

#[local] Instance Qltb_Proper : Proper (Qeq ==> Qeq ==> eq) JS.Qltb.
Proof.
  intros a a' Ha b b' Hb. unfold JS.Qltb.
  rewrite (Qleb_comp _ _ Hb _ _ Ha). reflexivity.
Qed.

#[local] Instance ease_Proper : Proper (Qeq ==> Qeq ==> Qeq ==> Qeq) ease.
Proof.
  intros step step' Hs cur cur' Hc tar tar' Ht. unfold ease.
  rewrite (Qeqb_comp _ _ Hc _ _ Ht).
  assert (Ha : Qabs (tar - cur) == Qabs (tar' - cur'))
    by (rewrite Hc, Ht; reflexivity).
  rewrite (Qltb_Proper _ _ Ha _ _ (Qeq_refl _)).
  rewrite (Qltb_Proper _ _ Ht _ _ Hc).
  destruct (Qeq_bool cur' tar'); [exact Hc|].
  destruct (JS.Qltb (Qabs (tar' - cur')) 10e-4); [exact Ht|].
  rewrite Ha, Hc, Hs. reflexivity.
Qed.

Lemma ease_fixed (step tar : Q) : ease step tar tar = tar.
Proof. unfold ease. rewrite Qeq_bool_refl. reflexivity. Qed.

(** Element [i] of the eased ratios. *)
Lemma drawFrame_ratio (now : Q) (i : nat) (s : t) :
  (i < MAX_SUPPORTED_SEGMENTS)%nat ->
  vnth (segmentRatiosCurrent (drawFrame now s)) i =
  ease ((now - timestamp s) / segmentAdjustmentAnimationStepDuration s)
       (vnth (segmentRatiosCurrent s) i) (vnth (segmentRatiosTarget s) i).
Proof.
  intros _. rewrite drawFrame_ratios.
  destruct i as [|[|[|[|i]]]]; reflexivity.
Qed.

(** A ratio that is at its target stays there. *)
Lemma drawFrames_at_target (later : list Q) :
  forall (i : nat) (s : t),
    (i < MAX_SUPPORTED_SEGMENTS)%nat ->
    vnth (segmentRatiosCurrent s) i = vnth (segmentRatiosTarget s) i ->
    vnth (segmentRatiosCurrent (drawFrames later s)) i =
    vnth (segmentRatiosTarget s) i.
Proof.
  induction later as [|now later IH]; intros i s Hi Heq; [exact Heq|].
  unfold drawFrames in *. cbn [fold_left].
  destruct (drawFrame_fields now s) as (_ & _ & Ht & _).
  rewrite <- Ht. apply IH; [exact Hi|].
  rewrite drawFrame_ratio, Ht, Heq by exact Hi. apply ease_fixed.
Qed.

(** C5: a current ratio that differs from its target by less than 1e-3
    is set to the target itself by the next frame, whatever the time
    since the last frame, and stays there in every later frame. *)
Theorem ratio_snap (now : Q) (later : list Q) (i : nat) (s : t) :
  (i < MAX_SUPPORTED_SEGMENTS)%nat ->
  ~ vnth (segmentRatiosCurrent s) i == vnth (segmentRatiosTarget s) i ->
  Qabs (vnth (segmentRatiosTarget s) i - vnth (segmentRatiosCurrent s) i)
    < 1e-3 ->
  vnth (segmentRatiosCurrent (drawFrame now s)) i =
    vnth (segmentRatiosTarget s) i /\
  vnth (segmentRatiosCurrent (drawFrames later (drawFrame now s))) i =
    vnth (segmentRatiosTarget s) i.
Proof.
  intros Hi Hne Hgap.
  assert (Hsnap : vnth (segmentRatiosCurrent (drawFrame now s)) i =
                  vnth (segmentRatiosTarget s) i).
  { rewrite drawFrame_ratio by exact Hi. unfold ease.
    apply Qeq_bool_false in Hne. rewrite Hne.
    replace (JS.Qltb _ 10e-4) with true; [reflexivity|].
    symmetry. apply Qltb_true. rewrite snap_threshold.
    rewrite one_thousandth in Hgap. exact Hgap. }
  split; [exact Hsnap|].
  destruct (drawFrame_fields now s) as (_ & _ & Ht & _).
  rewrite <- Ht. apply drawFrames_at_target; [exact Hi|].
  rewrite Ht. exact Hsnap.
Qed.

Lemma ratio_snap_witness :
  let s := with_segmentRatiosCurrent (vec4 0 0 0.9995 0) sampleCounting in
  (2 < MAX_SUPPORTED_SEGMENTS)%nat /\
  ~ vnth (segmentRatiosCurrent s) 2 == vnth (segmentRatiosTarget s) 2 /\
  Qabs (vnth (segmentRatiosTarget s) 2 - vnth (segmentRatiosCurrent s) 2)
    < 1e-3 /\
  vnth (segmentRatiosCurrent (drawFrame 1033 s)) 2 =
    vnth (segmentRatiosTarget s) 2 /\
  vnth (segmentRatiosCurrent
          (drawFrames [1066; 1100] (drawFrame 1033 s))) 2 =
    vnth (segmentRatiosTarget s) 2.
Proof.
  intros s.
  assert (H1 : (2 < MAX_SUPPORTED_SEGMENTS)%nat) by (vm_compute; lia).
  assert (H2 : ~ vnth (segmentRatiosCurrent s) 2
                 == vnth (segmentRatiosTarget s) 2) by (vm_compute; discriminate).
  assert (H3 : Qabs (vnth (segmentRatiosTarget s) 2
                     - vnth (segmentRatiosCurrent s) 2) < 1e-3)
    by (vm_compute; reflexivity).
  split; [exact H1|]. split; [exact H2|]. split; [exact H3|].
  apply (ratio_snap 1033 [1066; 1100] 2 s H1 H2 H3).
Defined.

(** With frames 200 ms apart and the step duration of 100 ms, a ratio
    with target 1 alternates between 0 and 2. *)
Lemma ticks_oscillate (n : nat) :
  forall s : t,
    segmentAdjustmentAnimationStepDuration s = 100 ->
    vz (segmentRatiosTarget s) = 1 ->
    (vz (segmentRatiosCurrent s) == 0 ->
     vz (segmentRatiosCurrent (ticks n 200 s))
     == if Nat.even n then 0 else 2) /\
    (vz (segmentRatiosCurrent s) == 2 ->
     vz (segmentRatiosCurrent (ticks n 200 s))
     == if Nat.even n then 2 else 0).
Proof.
  induction n as [|n IH]; intros s Hd Ht; [split; trivial|].
  cbn [ticks]. rewrite Nat.even_succ, <- Nat.negb_even.
  set (s' := drawFrame (timestamp s + 200) s).
  destruct (drawFrame_fields (timestamp s + 200) s) as (Hd' & _ & Ht' & _).
  fold s' in Hd', Ht'. rewrite Hd in Hd'.
  assert (Ht'' : vz (segmentRatiosTarget s') = 1) by (rewrite Ht'; exact Ht).
  destruct (IH s' Hd' Ht'') as [IH0 IH2].
  assert (Hstep : (timestamp s + 200 - timestamp s) / 100 == 2)
    by (field_simplify; reflexivity).
  assert (Hcur : vz (segmentRatiosCurrent s') =
                 ease ((timestamp s + 200 - timestamp s) / 100)
                      (vz (segmentRatiosCurrent s)) 1).
  { subst s'. rewrite drawFrame_ratios, Hd, Ht. reflexivity. }
  split; intros H0.
  - assert (H' : vz (segmentRatiosCurrent s') == 2)
      by (rewrite Hcur, Hstep, H0; reflexivity).
    rewrite (IH2 H'). destruct (Nat.even n); reflexivity.
  - assert (H' : vz (segmentRatiosCurrent s') == 0)
      by (rewrite Hcur, Hstep, H0; reflexivity).
    rewrite (IH0 H'). destruct (Nat.even n); reflexivity.
Qed.

(** C1 fails on the code: with the default step duration of 100 ms and
    frames that are 200 ms apart, the third ratio of the sample indicator,
    whose target is 1, is 2 after every odd number of frames and 0 after
    every even number: it overshoots the target and never reaches it. *)
Theorem easing_overshoots (n : nat) :
  let s := ticks n 200 sampleCounting in
  segmentAdjustmentAnimationStepDuration sampleCounting = 100 /\
  vz (segmentRatiosTarget s) = 1 /\
  vz (segmentRatiosCurrent s) == (if Nat.even n then 0 else 2) /\
  ~ vz (segmentRatiosCurrent s) == vz (segmentRatiosTarget s) /\
  vz (segmentRatiosTarget sampleCounting)
    < vz (segmentRatiosCurrent (ticks 1 200 sampleCounting)).
Proof.
  intros s.
  assert (Ht : vz (segmentRatiosTarget s) = 1).
  { subst s. generalize sampleCounting,
      (eq_refl : vz (segmentRatiosTarget sampleCounting) = 1).
    induction n as [|n IH]; intros s0 H0; [exact H0|].
    cbn [ticks]. apply IH.
    destruct (drawFrame_fields (timestamp s0 + 200) s0) as (_ & _ & -> & _).
    exact H0. }
  assert (Hc : vz (segmentRatiosCurrent s) == (if Nat.even n then 0 else 2)).
  { apply (ticks_oscillate n sampleCounting); reflexivity. }
  split; [reflexivity|]. split; [exact Ht|]. split; [exact Hc|].
  split.
  - rewrite Ht, Hc. destruct (Nat.even n); discriminate.
  - vm_compute. reflexivity.
Qed.
End Easing.

(** ** Where the easing converges *)

Section Convergence.
Import IrisIndicator.

Variables step tar : Q.
Hypothesis step_pos : 0 < step.
Hypothesis step_le_1 : step <= 1.

(** One eased step does not pass the target and shrinks the gap by the
    factor [1 - step] at least. *)
Lemma ease_no_overshoot (cur : Q) :
  (cur <= tar -> cur <= ease step cur tar <= tar) /\
  (tar <= cur -> tar <= ease step cur tar <= cur) /\
  Qabs (tar - ease step cur tar) <= (1 - step) * Qabs (tar - cur).
Proof.
  unfold ease.
  destruct (Qeq_bool cur tar) eqn:Heq;
    [apply Qeq_bool_iff in Heq | apply Qeq_bool_false in Heq].
  { assert (Ha : Qabs (tar - cur) == 0)
      by (rewrite Heq; setoid_replace (tar - tar) with 0 by ring; reflexivity).
    rewrite Ha. repeat split; intros; lra. }
  destruct (JS.Qltb (Qabs (tar - cur)) 10e-4) eqn:Hsnap.
  { assert (Ha : Qabs (tar - tar) == 0)
      by (setoid_replace (tar - tar) with 0 by ring; reflexivity).
    pose proof (Qabs_nonneg (tar - cur)) as Hnn. rewrite Ha.
    repeat split; intros; try lra. nra. }
  case_compare.
  - assert (Ha : Qabs (tar - cur) == cur - tar)
      by (rewrite Qabs_neg; lra).
    rewrite Ha. repeat split; intros; try nra.
    rewrite Qabs_neg; nra.
  - assert (Ha : Qabs (tar - cur) == tar - cur)
      by (rewrite Qabs_pos; lra).
    rewrite Ha. repeat split; intros; try nra.
    rewrite Qabs_pos; nra.
Qed.

Lemma easeN_S (n : nat) :
  forall cur : Q,
    easeN (S n) step cur tar = ease step (easeN n step cur tar) tar.
Proof.
  induction n as [|n IH]; intros cur; [reflexivity|].
  cbn [easeN] in *. rewrite IH. reflexivity.
Qed.

Lemma ease_at_target (cur : Q) : cur == tar -> ease step cur tar == tar.
Proof.
  intros H. unfold ease. apply Qeq_bool_iff in H as Hb. rewrite Hb. exact H.
Qed.

Lemma easeN_at_target (n : nat) :
  forall cur : Q, cur == tar -> easeN n step cur tar == tar.
Proof.
  induction n as [|n IH]; intros cur H; [exact H|].
  cbn [easeN]. apply IH, ease_at_target, H.
Qed.

Lemma ease_snaps (cur : Q) :
  Qabs (tar - cur) < 1 # 1000 -> ease step cur tar == tar.
Proof.
  intros H. unfold ease.
  destruct (Qeq_bool cur tar) eqn:Heq; [apply Qeq_bool_iff, Heq|].
  replace (JS.Qltb _ 10e-4) with true; [reflexivity|].
  symmetry. apply Qltb_true. rewrite snap_threshold. exact H.
Qed.

Lemma easeN_no_overshoot (n : nat) :
  forall cur : Q,
    (cur <= tar -> cur <= easeN n step cur tar <= tar) /\
    (tar <= cur -> tar <= easeN n step cur tar <= cur).
Proof.
  induction n as [|n IH]; intros cur; [cbn [easeN]; split; intros; lra|].
  cbn [easeN]. destruct (ease_no_overshoot cur) as (Hup & Hdown & _).
  destruct (IH (ease step cur tar)) as [IHup IHdown].
  split; intros H.
  - specialize (Hup H). specialize (IHup (proj2 Hup)). lra.
  - specialize (Hdown H). specialize (IHdown (proj1 Hdown)). lra.
Qed.

(** The gap after [n] steps, unless the target is reached. *)
Lemma easeN_gap (n : nat) :
  forall cur : Q,
    Qabs (tar - easeN n step cur tar) * (1 + inject_Z (Z.of_nat n) * step)
    <= Qabs (tar - cur).
Proof.
  induction n as [|n IH]; intros cur.
  - cbn [easeN]. change (inject_Z (Z.of_nat 0)) with 0. lra.
  - cbn [easeN]. specialize (IH (ease step cur tar)).
    destruct (ease_no_overshoot cur) as (_ & _ & Hshrink).
    rewrite Nat2Z.inj_succ, <- Z.add_1_r, inject_Z_plus.
    change (inject_Z 1) with 1.
    pose proof (Qabs_nonneg (tar - easeN n step (ease step cur tar) tar)) as HG.
    pose proof (Qabs_nonneg (tar - cur)) as Hg.
    assert (Hn : 0 <= inject_Z (Z.of_nat n))
      by (change 0 with (inject_Z 0); rewrite <- Zle_Qle; lia).
    set (G := Qabs (tar - easeN n step (ease step cur tar) tar)) in *.
    set (g' := Qabs (tar - ease step cur tar)) in *.
    set (g := Qabs (tar - cur)) in *.
    set (x := inject_Z (Z.of_nat n)) in *.
    assert (Hx : 0 <= G * (x * step))
      by (apply Qmult_le_0_compat; [|apply Qmult_le_0_compat]; lra).
    assert (HGg : G <= g) by nra.
    assert (Hs : G * step <= g * step)
      by (apply Qmult_le_compat_r; lra).
    nra.
Qed.

(** With a step in (0, 1], a ratio is at its target after [easingBound]
    steps and from then on. *)
Lemma easeN_converges (cur : Q) (n : nat) :
  (easingBound step cur tar <= n)%nat -> easeN n step cur tar == tar.
Proof.
  unfold easingBound. intros Hn.
  set (N := Z.to_nat (Qceiling (1000 * Qabs (tar - cur) / step))) in *.
  replace n with ((n - S N) + S N)%nat by lia.
  assert (Hsplit : forall a b c, easeN (a + b) step c tar
                                 = easeN a step (easeN b step c tar) tar).
  { intros a b. induction b as [|b IHb]; intros c.
    - rewrite Nat.add_0_r. reflexivity.
    - rewrite Nat.add_succ_r. cbn [easeN]. apply IHb. }
  rewrite Hsplit. apply easeN_at_target.
  rewrite easeN_S. apply ease_snaps.
  pose proof (easeN_gap N cur) as Hgap.
  pose proof (Qabs_nonneg (tar - easeN N step cur tar)) as HG.
  pose proof (Qabs_nonneg (tar - cur)) as Hg.
  set (G := Qabs (tar - easeN N step cur tar)) in *.
  set (g := Qabs (tar - cur)) in *.
  assert (Hq : 0 <= 1000 * g / step).
  { apply Qle_shift_div_l; [exact step_pos|]. lra. }
  assert (HN : 1000 * g / step <= inject_Z (Z.of_nat N)).
  { subst N. rewrite Z2Nat.id.
    - apply Qle_ceiling.
    - apply Qceiling_resp_le in Hq. exact Hq. }
  assert (HNs : 1000 * g <= inject_Z (Z.of_nat N) * step).
  { setoid_replace (1000 * g) with (1000 * g / step * step)
      by (field; lra).
    apply Qmult_le_compat_r; [exact HN | lra]. }
  set (x := inject_Z (Z.of_nat N)) in *.
  assert (Hx : 0 <= x) by (apply Qle_trans with (1000 * g / step); trivial).
  assert (Hxs : 0 <= x * step) by (apply Qmult_le_0_compat; lra).
  assert (HGx : 0 <= G * (x * step)) by (apply Qmult_le_0_compat; lra).
  nra.
Qed.
End Convergence.

Section ShortFrames.
Import IrisIndicator.

#[local] Instance easeN_Proper (n : nat) :
  Proper (Qeq ==> Qeq ==> Qeq ==> Qeq) (easeN n).
Proof.
  induction n as [|n IH]; intros step step' Hs cur cur' Hc tar tar' Ht;
    cbn [easeN]; [exact Hc|].
  apply IH; trivial. apply ease_Proper; trivial.
Qed.

(** The ratios after [n] frames that are [deltaMs] apart. *)
Lemma ticks_ratio (deltaMs : Q) (i : nat) (n : nat) :
  forall s : t,
    (i < MAX_SUPPORTED_SEGMENTS)%nat ->
    segmentRatiosTarget (ticks n deltaMs s) = segmentRatiosTarget s /\
    vnth (segmentRatiosCurrent (ticks n deltaMs s)) i
    == easeN n (deltaMs / segmentAdjustmentAnimationStepDuration s)
         (vnth (segmentRatiosCurrent s) i) (vnth (segmentRatiosTarget s) i).
Proof.
  induction n as [|n IH]; intros s Hi; [split; reflexivity|].
  cbn [ticks easeN].
  destruct (drawFrame_fields (timestamp s + deltaMs) s) as (Hd & _ & Ht & _).
  destruct (IH (drawFrame (timestamp s + deltaMs) s) Hi) as [IHt IHc].
  split; [rewrite IHt; exact Ht|].
  rewrite IHc, Hd, Ht, drawFrame_ratio by exact Hi.
  apply easeN_Proper; try reflexivity.
  apply ease_Proper; try reflexivity.
  apply Qdiv_comp; [ring | reflexivity].
Qed.

(** Where C1 holds: with frames at most one step duration apart
    ([0 < step <= 1]), each current ratio moves towards its target without
    passing it, and is at the target after [easingBound] frames and from then
    on. *)
Lemma easing_converges_short_frames (deltaMs : Q) (i n : nat) (s : t) :
  (i < MAX_SUPPORTED_SEGMENTS)%nat ->
  let step := deltaMs / segmentAdjustmentAnimationStepDuration s in
  let cur := vnth (segmentRatiosCurrent s) i in
  let tar := vnth (segmentRatiosTarget s) i in
  let cur' := vnth (segmentRatiosCurrent (ticks n deltaMs s)) i in
  0 < step -> step <= 1 ->
  ((easingBound step cur tar <= n)%nat -> cur' == tar) /\
  (cur <= tar -> cur <= cur' <= tar) /\
  (tar <= cur -> tar <= cur' <= cur).
Proof.
  intros Hi step cur tar cur' Hpos Hle.
  destruct (ticks_ratio deltaMs i n s Hi) as [_ Hc].
  fold step cur tar cur' in Hc.
  destruct (easeN_no_overshoot step tar Hpos Hle n cur) as [Hup Hdown].
  split; [|split]; intros H; rewrite Hc.
  - apply easeN_converges; assumption.
  - apply Hup. exact H.
  - apply Hdown. exact H.
Qed.
End ShortFrames.

(** ** The rays *)

Section Rays.
Import IrisIndicator.

Lemma generateRay_length (nRays : nat) (canvasRadius widthInRadians : Q)
    (random : nat -> Q) (l : list nat) :
  forall (rays : list Ray) (k : nat),
    length (fst (fold_left
                   (generateRay nRays canvasRadius widthInRadians random)
                   l (rays, k))) = (length rays + length l)%nat.
Proof.
  induction l as [|i l IH]; intros rays k; cbn [fold_left length fst].
  - lia.
  - unfold generateRay at 2. rewrite IH, length_app. cbn [length]. lia.
Qed.

(** [generateRays] leaves exactly [nRays] rays. *)
Lemma generateRays_length (s : t) :
  length (rays (generateRays s)) = nRays s.
Proof.
  unfold generateRays. destruct (WebGLEngine.textureSize (engine s)).
  match goal with
  | |- context [fold_left ?f ?l ?a] =>
      pose proof (generateRay_length (nRays s)
                    (inject_Z (Z.min z z0) / 2)
                    (2 * JS.PI / (inject_Z (Z.of_nat (nRays s)) * 3) * 3)
                    (random s) l [] (randomCalls s)) as H;
      destruct (fold_left f l a) as [rs calls]
  end.
  cbn [fst length] in H. rewrite length_seq in H. cbn. exact H.
Qed.

(** The sibling setter regenerates the rays. *)
Lemma enableAutomaticRayAdjustment_regenerates (s : t) :
  length (rays (enableAutomaticRayAdjustment s)) =
  nRays (enableAutomaticRayAdjustment s).
Proof.
  unfold enableAutomaticRayAdjustment. rewrite generateRays_length.
  destruct (generateRays_fields
              (with_ray_count (calculateOptimalRayCount s) true s))
    as (_ & -> & _).
  reflexivity.
Qed.

(** C2 fails on the code: [setRayCount] stores the count and switches the
    automatic adjustment off, and leaves the rays as they are.  On the
    sample indicator, [setRayCount 32] leaves the 16 rays generated before,
    and the next frame still draws these 16 triangles. *)
Theorem setRayCount_keeps_rays (count : nat) (s : t) :
  (autoAdjustRays (setRayCount count s) = false /\
   nRays (setRayCount count s) = count /\
   rays (setRayCount count s) = rays s /\
   randomCalls (setRayCount count s) = randomCalls s /\
   resizeOnNextDraw (setRayCount count s) = resizeOnNextDraw s) /\
  (length (rays (setRayCount 32 sampleIndicator)) = 16%nat /\
   map (fun d => (GL.dc_pass d, GL.dc_count d))
     (firstn 1 (GL.drawCalls
                  (WebGLEngine.gl
                     (engine (drawFrame 1033
                                (setRayCount 32 sampleIndicator))))))
   = [(GL.FRAGMENT_PASS_NORMAL, 48%nat)]).
Proof.
  split; [repeat split|]. vm_compute. split; reflexivity.
Qed.
End Rays.

(** ** The radius of a ray *)

Section Radius.
Import IrisIndicator.




(** Without a pending resize, a frame moves every ray by the speed
    [deltaMs / rayMovementSpeed]. *)
Lemma drawFrame_rays (now : Q) (s : t) :
  resizeOnNextDraw s = false ->
  rays (drawFrame now s) =
  map (moveRay ((now - timestamp s) / rayMovementSpeed s)) (rays s).
Proof.
  intros Hr. unfold drawFrame. cbn [resizeOnNextDraw with_timestamp].
  rewrite Hr. destruct (fold_left _ _ _) as [ratios changed].
  destruct changed; reflexivity.
Qed.


End Radius.

(** ** The FPS window *)

Section Fps.
Import IrisIndicator.

Lemma shiftFrameTimings_lastn (timings : list Q) :
  shiftFrameTimings timings = lastn 120 timings.
Proof.
  unfold lastn. induction timings as [|x timings IH]; [reflexivity|].
  cbn [shiftFrameTimings]. destruct (Nat.ltb_spec 120 (length (x :: timings)))
    as [Hlt|Hge]; cbn [length] in *.
  - rewrite IH. replace (S (length timings) - 120)%nat
      with (S (length timings - 120)) by lia. reflexivity.
  - replace (S (length timings) - 120)%nat with 0%nat by lia. reflexivity.
Qed.

Lemma lastn_length {A} (n : nat) (l : list A) :
  (length (lastn n l) <= n)%nat.
Proof. unfold lastn. rewrite length_skipn. lia. Qed.

Lemma lastn_all {A} (n : nat) (l : list A) :
  (length l <= n)%nat -> lastn n l = l.
Proof.
  intros H. unfold lastn. replace (length l - n)%nat with 0%nat by lia.
  reflexivity.
Qed.

Lemma lastn_lastn_app {A} (n : nat) (l more : list A) :
  lastn n (lastn n l ++ more) = lastn n (l ++ more).
Proof.
  unfold lastn. rewrite !length_app, length_skipn.
  rewrite !skipn_app, skipn_skipn, length_skipn. f_equal.
  - f_equal. lia.
  - f_equal. lia.
Qed.

(** What one animation frame does to the window. *)
Lemma loop_frameTimings (timestamp now : Q) (s : t) :
  frameTimings (loop timestamp now s) =
  if frameSkipped timestamp s then frameTimings s
  else lastn 120 (frameTimings s ++ [frameSample timestamp s]).
Proof.
  unfold loop, frameSkipped, frameSample, frameDelta.
  destruct (_ && _ && _); [reflexivity|].
  match goal with
  | |- context [drawFrame now ?x] =>
      destruct (drawFrame_fields now x) as (_ & _ & _ & _ & _ & -> & _)
  end.
  cbn [frameTimings with_frame]. apply shiftFrameTimings_lastn.
Qed.

Lemma runLoop_frameTimings (frames : list (Q * Q)) :
  forall s : t,
    (length (frameTimings s) <= 120)%nat ->
    frameTimings (runLoop frames s) =
    lastn 120 (frameTimings s ++ recordedSamples frames s).
Proof.
  induction frames as [|[timestamp now] frames IH]; intros s Hlen.
  - cbn. rewrite app_nil_r, lastn_all; trivial.
  - unfold runLoop in *. cbn [fold_left recordedSamples fst snd].
    pose proof (loop_frameTimings timestamp now s) as Hloop.
    rewrite IH.
    + rewrite Hloop. destruct (frameSkipped timestamp s); [reflexivity|].
      rewrite lastn_lastn_app, <- app_assoc. reflexivity.
    + rewrite Hloop. destruct (frameSkipped timestamp s); [exact Hlen|].
      apply lastn_length.
Qed.

Lemma fold_left_Qsum (l : list Q) :
  forall acc : Q, fold_left (fun p c => p + c) l acc == acc + Qsum l.
Proof.
  induction l as [|x l IH]; intros acc; cbn [fold_left Qsum fold_right].
  - ring.
  - rewrite IH. fold (Qsum l). ring.
Qed.

Lemma getCurrentFps_mean (s : t) : getCurrentFps s == mean (frameTimings s).
Proof.
  unfold getCurrentFps, mean. destruct (frameTimings s) as [|x l];
    [reflexivity|].
  cbn [length Nat.ltb Nat.leb]. rewrite fold_left_Qsum.
  apply Qdiv_comp; [ring | reflexivity].
Qed.

(** C8: from a window of at most 120 samples (it is empty in a new
    indicator), after any number of animation frames the window holds at
    most 120 samples, namely the last 120 of the old ones followed by those
    that the frames which were not skipped recorded; [getCurrentFps] is the
    arithmetic mean of the window, and 0 for an empty one. *)
Theorem fps_window (frames : list (Q * Q)) (s : t) :
  (length (frameTimings s) <= 120)%nat ->
  let s' := runLoop frames s in
  (length (frameTimings s') <= 120)%nat /\
  frameTimings s' = lastn 120 (frameTimings s ++ recordedSamples frames s) /\
  getCurrentFps s' == mean (frameTimings s') /\
  getCurrentFps (with_frame [] (previousTimestamp s') s') = 0.
Proof.
  intros Hlen s'.
  assert (Hw : frameTimings s' =
               lastn 120 (frameTimings s ++ recordedSamples frames s))
    by (apply runLoop_frameTimings; exact Hlen).
  split; [rewrite Hw; apply lastn_length|].
  split; [exact Hw|].
  split; [apply getCurrentFps_mean | reflexivity].
Qed.

(** The sample run: 130 frames record 130 samples, of which the window
    keeps the last 120, all of them 25 frames per second. *)
Example sample_run_window :
  length (recordedSamples sampleFrames sampleIndicator) = 130%nat /\
  length (frameTimings (runLoop sampleFrames sampleIndicator)) = 120%nat /\
  getCurrentFps (runLoop sampleFrames sampleIndicator) == 25 /\
  getCurrentFps (runLoop (firstn 5 sampleFrames) sampleIndicator) == 20.
Proof. vm_compute. repeat split. Qed.

Lemma fps_window_witness :
  let s' := runLoop sampleFrames sampleIndicator in
  (length (frameTimings sampleIndicator) <= 120)%nat /\
  (length (frameTimings s') <= 120)%nat /\
  frameTimings s' =
    lastn 120 (frameTimings sampleIndicator
               ++ recordedSamples sampleFrames sampleIndicator) /\
  getCurrentFps s' == mean (frameTimings s') /\
  getCurrentFps (with_frame [] (previousTimestamp s') s') = 0.
Proof.
  intros s'.
  assert (H : (length (frameTimings sampleIndicator) <= 120)%nat)
    by (vm_compute; lia).
  split; [exact H|].
  apply (fps_window sampleFrames sampleIndicator H).
Defined.
End Fps.

(** ** The frame pipeline *)

Section Pipeline.
Import GL.
Import WebGLEngine.

#[local] Arguments Nat.modulo : simpl never.
#[local] Arguments Nat.lxor : simpl never.

(** The blur loop on a context with unit 0 active: which slot each iteration
    writes and reads, and what it leaves bound. *)
Lemma blur_loop_plan (w h : Z) (m : nat) (c : Context) :
  activeUnit c = 0%nat ->
  u_pass c = FRAGMENT_PASS_BLUR ->
  textureUnits c 0%nat = Some (pingpong_rbuf 1) ->
  textureUnits c 1%nat = None ->
  let r := fold_left (blurIteration w h) (seq 0 m) (c, 0%nat) in
  activeUnit (fst r) = 0%nat /\
  u_pass (fst r) = FRAGMENT_PASS_BLUR /\
  textureUnits (fst r) 0%nat = Some (pingpong_rbuf (S m mod 2)) /\
  textureUnits (fst r) 1%nat = None /\
  u_segments (fst r) = u_segments c /\
  u_blendRatio (fst r) = u_blendRatio c /\
  allocations (fst r) = allocations c /\
  renderbufferBound (fst r) = renderbufferBound c /\
  exists ds,
    drawCalls (fst r) = drawCalls c ++ ds /\
    map view ds =
      map (fun pass =>
             (FRAGMENT_PASS_BLUR, Some (PingpongFb (pass mod 2)),
              Some (PingpongTex (S pass mod 2)), @None Texture, 6%nat))
          (seq 0 m) /\
    map dc_horizontal ds = map (fun pass => (pass mod 2)%nat) (seq 0 m).
Proof.
  intros Hact Hpass H0 H1. induction m as [|m IH]; intros r.
  - subst r. cbn [seq fold_left fst snd]. repeat split; trivial.
    exists []. rewrite app_nil_r. repeat split.
  - subst r. rewrite seq_S, fold_left_app. cbn [Nat.add fold_left].
    cbv zeta in IH.
    destruct IH as (Ha & Hp & Hu0 & Hu1 & Hs & Hb & Hal & Hrb & ds & Hd & Hv & Hh).
    destruct (fold_left (blurIteration w h) (seq 0 m) (c, 0%nat)) as [c' l].
    cbn [fst snd] in *. unfold blurIteration. cbn [fst snd].
    unfold setFramebuffer, viewport. cbn. rewrite Ha. cbn.
    repeat split; trivial.
    + replace (S (S m)) with (m + 1 * 2)%nat by lia.
      rewrite Nat.Div0.mod_add. reflexivity.
    + eexists. rewrite Hd, <- app_assoc. split; [reflexivity|].
      rewrite !map_app, Hv, Hh. cbn [map view dc_pass dc_target dc_unit0
        dc_unit1 dc_count dc_horizontal].
      rewrite Hp, Hu0, Hu1. split; reflexivity.
Qed.

(** One [draw] of an engine at rest: the draw calls it makes, and what it
    leaves as it was. *)
Lemma draw_frame (count : nat) (e : t) :
  atRest (gl e) ->
  let e' := draw count e in
  atRest (gl e') /\
  (clientWidth e' = clientWidth e /\ clientHeight e' = clientHeight e /\
   bloomEnabled e' = bloomEnabled e /\ nBloomPasses e' = nBloomPasses e /\
   textureSizeModifier e' = textureSizeModifier e /\
   msaaEnabled e' = msaaEnabled e /\ hdrFactor e' = hdrFactor e) /\
  (u_segments (gl e') = u_segments (gl e) /\
   u_blendRatio (gl e') = u_blendRatio (gl e) /\
   allocations (gl e') = allocations (gl e) /\
   renderbufferBound (gl e') = renderbufferBound (gl e)) /\
  exists ds,
    drawCalls (gl e') = drawCalls (gl e) ++ ds /\
    map view ds = framePlan e count.
Proof.
  intros (Hdf & Hrf & Hact & Hu0 & Hu1) e'. subst e'.
  destruct e as [c cw ch bloom n modifier msaa hdr].
  unfold draw, framePlan, bloomPass, textureSize.
  cbn [gl clientWidth clientHeight bloomEnabled nBloomPasses
       textureSizeModifier msaaEnabled hdrFactor with_gl] in *.
  set (w := Qceiling (inject_Z cw * modifier)).
  set (h := Qceiling (inject_Z ch * modifier)).
  unfold setFramebuffer, setFramebufferRectangle, viewport,
    bufferData, clear, bindVertexArray, uniformMatrix3fv, blitFramebuffer.
  destruct bloom, msaa.
  1, 2:
    match goal with
    | |- context [fold_left (blurIteration ?w' ?h') (seq 0 ?m) (?c1, 0%nat)] =>
        assert (Hloop := blur_loop_plan w' h' m c1);
        assert (Hold := blur_loop w' h' m c1);
        destruct (fold_left (blurIteration w' h') (seq 0 m) (c1, 0%nat))
          as [c2 l] eqn:Hfold
    end;
    cbv zeta in Hloop, Hold; cbn [fst snd] in Hloop, Hold;
    destruct Hold as (_ & _ & Hl & _);
    destruct Hloop
      as (Ha & Hp & H0 & H1 & Hs & Hb & Hal & Hrb & ds & Hd & Hv & Hh);
    [ cbn; exact Hact | cbn; reflexivity
    | cbn; rewrite Hact; reflexivity | cbn; rewrite Hact; exact Hu1 | ];
    cbn in Hs, Hb, Hal, Hrb, Hd;
    unfold atRest; cbn; rewrite ?Ha; cbn;
    (split; [repeat split|]); (split; [repeat split|]);
    (split; [rewrite Hs, Hb, Hal, Hrb; repeat split|]);
    eexists; rewrite Hd, <- !app_assoc; cbn [app];
    (split; [reflexivity|]);
    subst l; unfold blurPlan;
    rewrite map_cons, map_cons, map_app, Hv; cbn; rewrite ?Hact, ?Ha; cbn;
    rewrite ?Hu0, ?Hu1; reflexivity.
  all: unfold atRest; cbn; rewrite ?Hact; cbn; rewrite ?Hu0, ?Hu1;
    (split; [repeat split; assumption|]);
    (split; [repeat split|]); (split; [repeat split|]);
    eexists; rewrite <- !app_assoc; cbn [app];
    (split; [reflexivity|]); reflexivity.
Qed.

Lemma draw_allocations (count : nat) (e : t) :
  allocations (gl (draw count e)) = allocations (gl e).
Proof.
  destruct e as [c cw ch bloom n modifier msaa hdr].
  unfold draw, bloomPass, textureSize.
  cbn [gl clientWidth clientHeight bloomEnabled nBloomPasses
       textureSizeModifier msaaEnabled hdrFactor with_gl].
  unfold setFramebuffer, setFramebufferRectangle, viewport,
    bufferData, clear, bindVertexArray, uniformMatrix3fv, blitFramebuffer.
  destruct bloom, msaa; try reflexivity.
  all:
    match goal with
    | |- context [fold_left (blurIteration ?w' ?h') (seq 0 ?m) (?c1, 0%nat)] =>
        assert (Hold := blur_loop w' h' m c1);
        destruct (fold_left (blurIteration w' h') (seq 0 m) (c1, 0%nat))
          as [c2 l]
    end;
    cbv zeta in Hold; cbn [fst snd] in Hold;
    destruct Hold as (_ & Hal & _); cbn in Hal |- *; exact Hal.
Qed.

Lemma blurPlan_no_feedback (n : nat) :
  Forall (fun v => viewFeedback v = false) (blurPlan n).
Proof.
  unfold blurPlan. apply Forall_map, Forall_forall. intros pass _.
  cbn [viewFeedback attachment bound_eqb texture_eqb orb].
  rewrite orb_false_r. apply Nat.eqb_neq.
  replace (S pass) with (1 + pass)%nat by reflexivity.
  rewrite <- Nat.Div0.add_mod_idemp_r.
  pose proof (Nat.mod_upper_bound pass 2 ltac:(lia)) as Hlt.
  destruct (pass mod 2)%nat as [|[|k]]; [vm_compute; lia..|lia].
Qed.

Lemma texImage2D_bindings (w h : Z) (c : Context) :
  drawFramebuffer (texImage2D w h c) = drawFramebuffer c /\
  readFramebuffer (texImage2D w h c) = readFramebuffer c /\
  activeUnit (texImage2D w h c) = activeUnit c /\
  textureUnits (texImage2D w h c) = textureUnits c /\
  u_segments (texImage2D w h c) = u_segments c /\
  u_blendRatio (texImage2D w h c) = u_blendRatio c /\
  drawCalls (texImage2D w h c) = drawCalls c.
Proof.
  unfold texImage2D. destruct (textureUnits c (activeUnit c)); repeat split.
Qed.

Lemma onResize_bindings (e : t) :
  drawFramebuffer (gl (onResize e)) = drawFramebuffer (gl e) /\
  readFramebuffer (gl (onResize e)) = readFramebuffer (gl e) /\
  activeUnit (gl (onResize e)) = activeUnit (gl e) /\
  (forall unit,
     textureUnits (gl (onResize e)) unit =
     if (unit =? activeUnit (gl e))%nat then None
     else textureUnits (gl e) unit) /\
  u_segments (gl (onResize e)) = u_segments (gl e) /\
  u_blendRatio (gl (onResize e)) = u_blendRatio (gl e) /\
  drawCalls (gl (onResize e)) = drawCalls (gl e).
Proof.
  destruct e as [c cw ch bloom n m msaa hdr].
  unfold onResize, textureSize. cbn [gl with_gl clientWidth clientHeight
    textureSizeModifier fold_left].
  set (w := Qceiling _). set (h := Qceiling _).
  unfold renderbufferStorageMultisample.
  cbn [bindRenderbuffer renderbufferBound allocate drawFramebuffer
       readFramebuffer activeUnit textureUnits u_segments u_blendRatio
       drawCalls bindTexture].
  repeat match goal with
  | |- context [texImage2D w h ?c] =>
      destruct (texImage2D_bindings w h c) as (-> & -> & -> & -> & -> & -> & ->);
      cbn [drawFramebuffer readFramebuffer activeUnit textureUnits u_segments
           u_blendRatio drawCalls bindTexture]
  end.
  repeat split. intros unit. destruct (unit =? activeUnit c)%nat; reflexivity.
Qed.



(** X2: the draw calls of one [draw] of an engine at rest, in order: the
    rays into the scene target (the multisampled one with MSAA); with bloom,
    the brightness map into slot 1, blur iteration [p] into slot [p mod 2]
    reading the other slot, and the composite of the scene with the last
    blurred slot into the other slot; the tone mapping of the result into
    slot 1; slot 1 onto the canvas.  Without bloom there are three draw
    calls, with it [2 * nBloomPasses + 5]. *)
Theorem draw_pipeline (count : nat) (e : t) :
  atRest (gl e) ->
  exists ds,
    drawCalls (gl (draw count e)) = drawCalls (gl e) ++ ds /\
    map view ds = framePlan e count /\
    length ds =
      (if bloomEnabled e then nBloomPasses e * 2 + 5 else 3)%nat.
Proof.
  intros Hrest.
  destruct (draw_frame count e Hrest) as (_ & _ & _ & ds & Hd & Hv).
  exists ds. split; [exact Hd|]. split; [exact Hv|].
  rewrite <- (length_map view), Hv. unfold framePlan, blurPlan.
  destruct (bloomEnabled e); cbn [app length]; [|reflexivity].
  rewrite !length_app, length_map, length_seq. cbn [length]. lia.
Qed.

Lemma draw_pipeline_witness :
  atRest (gl sampleEngine) /\
  exists ds,
    drawCalls (gl (draw 48 sampleEngine)) = drawCalls (gl sampleEngine) ++ ds /\
    map view ds = framePlan sampleEngine 48 /\
    length ds =
      (if bloomEnabled sampleEngine
       then nBloomPasses sampleEngine * 2 + 5 else 3)%nat.
Proof.
  assert (H : atRest (gl sampleEngine)) by (repeat split).
  split; [exact H|]. apply (draw_pipeline 48 sampleEngine H).
Defined.

(** X3: no draw call of a frame is a feedback loop: for an engine at rest
    whose bloom, if enabled, has at least one pass, no draw call of [draw]
    reads on unit 0 or 1 the texture attached to the framebuffer it draws
    into. *)
Theorem draw_no_feedback (count : nat) (e : t) :
  atRest (gl e) ->
  (bloomEnabled e = true -> (1 <= nBloomPasses e)%nat) ->
  exists ds,
    drawCalls (gl (draw count e)) = drawCalls (gl e) ++ ds /\
    Forall (fun d => feedback d = false) ds.
Proof.
  intros Hrest Hpasses.
  destruct (draw_frame count e Hrest) as (_ & _ & _ & ds & Hd & Hv).
  exists ds. split; [exact Hd|].
  unfold feedback.
  apply (proj1 (Forall_map view (fun v => viewFeedback v = false) ds)).
  rewrite Hv. unfold framePlan.
  destruct (bloomEnabled e).
  - rewrite (last_blur_slot (nBloomPasses e) (Hpasses eq_refl)).
    change (Nat.lxor 1 1) with 0%nat.
    repeat (apply Forall_app; split); try apply blurPlan_no_feedback;
      repeat constructor; destruct (msaaEnabled e); reflexivity.
  - repeat constructor; destruct (msaaEnabled e); reflexivity.
Qed.

Lemma draw_no_feedback_witness :
  atRest (gl sampleEngine) /\
  (bloomEnabled sampleEngine = true -> (1 <= nBloomPasses sampleEngine)%nat) /\
  exists ds,
    drawCalls (gl (draw 48 sampleEngine)) = drawCalls (gl sampleEngine) ++ ds /\
    Forall (fun d => feedback d = false) ds.
Proof.
  assert (H : atRest (gl sampleEngine)) by (repeat split).
  assert (Hp : bloomEnabled sampleEngine = true ->
               (1 <= nBloomPasses sampleEngine)%nat)
    by (intros _; vm_compute; lia).
  split; [exact H|]. split; [exact Hp|].
  apply (draw_no_feedback 48 sampleEngine H Hp).
Defined.
End Pipeline.

(** ** What the engine's operations keep *)

Section Keeps.
Import GL.
Import WebGLEngine.

Lemma blur_loop_uniforms (w h : Z) (m : nat) (c : Context) :
  let r := fold_left (blurIteration w h) (seq 0 m) (c, 0%nat) in
  u_segments (fst r) = u_segments c /\
  u_blendRatio (fst r) = u_blendRatio c /\
  renderbufferBound (fst r) = renderbufferBound c.
Proof.
  induction m as [|m IH]; intros r; [repeat split|].
  subst r. rewrite seq_S, fold_left_app. cbn [Nat.add fold_left].
  cbv zeta in IH. destruct IH as (Hs & Hb & Hr).
  destruct (fold_left (blurIteration w h) (seq 0 m) (c, 0%nat)) as [c' l].
  cbn [fst snd] in *. repeat split; assumption.
Qed.

(** [draw] changes neither the settings, nor the uniforms of the segments,
    nor any storage. *)
Lemma draw_keeps (count : nat) (e : t) :
  let e' := draw count e in
  (clientWidth e' = clientWidth e /\ clientHeight e' = clientHeight e /\
   bloomEnabled e' = bloomEnabled e /\ nBloomPasses e' = nBloomPasses e /\
   textureSizeModifier e' = textureSizeModifier e /\
   msaaEnabled e' = msaaEnabled e /\ hdrFactor e' = hdrFactor e) /\
  u_segments (gl e') = u_segments (gl e) /\
  u_blendRatio (gl e') = u_blendRatio (gl e) /\
  allocations (gl e') = allocations (gl e).
Proof.
  intros e'. subst e'. destruct e as [c cw ch bloom n modifier msaa hdr].
  unfold draw, bloomPass, textureSize.
  cbn [gl clientWidth clientHeight bloomEnabled nBloomPasses
       textureSizeModifier msaaEnabled hdrFactor with_gl].
  unfold setFramebuffer, setFramebufferRectangle, viewport,
    bufferData, clear, bindVertexArray, uniformMatrix3fv, blitFramebuffer.
  destruct bloom, msaa; try (repeat split; fail).
  all:
    match goal with
    | |- context [fold_left (blurIteration ?w' ?h') (seq 0 ?m) (?c1, 0%nat)] =>
        assert (Hold := blur_loop w' h' m c1);
        assert (Hnew := blur_loop_uniforms w' h' m c1);
        destruct (fold_left (blurIteration w' h') (seq 0 m) (c1, 0%nat))
          as [c2 l]
    end;
    cbv zeta in Hold, Hnew; cbn [fst snd] in Hold, Hnew;
    destruct Hold as (_ & Hal & _); destruct Hnew as (Hs & Hb & _);
    cbn in Hal, Hs, Hb |- *; repeat split; assumption.
Qed.

(** [setSegments] writes the segment uniforms and the blend ratio, and
    nothing else. *)
Lemma setSegments_keeps (segments : Vec4 Segment) (e : t) :
  let e' := setSegments segments e in
  (clientWidth e' = clientWidth e /\ clientHeight e' = clientHeight e /\
   bloomEnabled e' = bloomEnabled e /\ nBloomPasses e' = nBloomPasses e /\
   textureSizeModifier e' = textureSizeModifier e /\
   msaaEnabled e' = msaaEnabled e /\ hdrFactor e' = hdrFactor e) /\
  u_segments (gl e') = vmap (uniformOf (hdrFactor e)) segments /\
  u_blendRatio (gl e') = blendRatioOf segments /\
  allocations (gl e') = allocations (gl e) /\
  drawCalls (gl e') = drawCalls (gl e).
Proof.
  destruct segments as [[[[[? ?] ?] ?] ?] [[[[? ?] ?] ?] ?]
                        [[[[? ?] ?] ?] ?] [[[[? ?] ?] ?] ?]].
  repeat split.
Qed.

Lemma onResize_settings (e : t) :
  clientWidth (onResize e) = clientWidth e /\
  clientHeight (onResize e) = clientHeight e /\
  bloomEnabled (onResize e) = bloomEnabled e /\
  nBloomPasses (onResize e) = nBloomPasses e /\
  textureSizeModifier (onResize e) = textureSizeModifier e /\
  msaaEnabled (onResize e) = msaaEnabled e /\
  hdrFactor (onResize e) = hdrFactor e /\
  textureSize (onResize e) = textureSize e.
Proof. unfold onResize. destruct (textureSize e) eqn:H. repeat split. exact H. Qed.
End Keeps.

(** ** The indicator and its engine *)

Section Sync.
Import IrisIndicator.

Lemma doResizeCalculation_engine (s : t) :
  engine (doResizeCalculation s) = WebGLEngine.onResize (engine s) /\
  segmentColors (doResizeCalculation s) = segmentColors s.
Proof.
  unfold doResizeCalculation.
  match goal with
  | |- context [generateRays ?x] =>
      pose proof (generateRays_fields x) as H; cbv zeta in H;
      destruct H as (-> & _ & _ & _ & _ & _ & _ & -> & _)
  end.
  cbn. destruct (autoAdjustRays s); split; reflexivity.
Qed.

(** Without a changed ratio the ratios are as they were. *)
Lemma easeSegments_unchanged (step : Q) (target ratios : Vec4 Q) :
  let r := fold_left (easeSegment step target) (seq 0 MAX_SUPPORTED_SEGMENTS)
             (ratios, false) in
  snd r = false -> fst r = ratios.
Proof.
  destruct ratios as [c0 c1 c2 c3], target as [t0 t1 t2 t3].
  cbn [seq MAX_SUPPORTED_SEGMENTS fold_left]. unfold easeSegment.
  cbn [vnth vset vx vy vz vw].
  destruct (Qeq_bool c0 t0), (JS.Qltb (Qabs (t0 - c0)) 10e-4);
    cbn [vnth vset vx vy vz vw];
    destruct (Qeq_bool c1 t1), (JS.Qltb (Qabs (t1 - c1)) 10e-4);
    cbn [vnth vset vx vy vz vw];
    destruct (Qeq_bool c2 t2), (JS.Qltb (Qabs (t2 - c2)) 10e-4);
    cbn [vnth vset vx vy vz vw];
    destruct (Qeq_bool c3 t3), (JS.Qltb (Qabs (t3 - c3)) 10e-4);
    cbn [fst snd]; intros H; first [reflexivity | discriminate H].
Qed.

(** The engine after a frame: resized if a resize was flagged, with the
    segments uploaded again if a ratio changed, and after one [draw] of three
    vertices per ray. *)
Lemma drawFrame_engine (now : Q) (s : t) :
  let e1 := if resizeOnNextDraw s then WebGLEngine.onResize (engine s)
            else engine s in
  let s' := drawFrame now s in
  segmentColors s' = segmentColors s /\
  exists e2,
    engine s' = WebGLEngine.draw (3 * length (rays s')) e2 /\
    (e2 = WebGLEngine.setSegments
            (segmentsOf (segmentColors s) (segmentRatiosCurrent s')) e1 \/
     e2 = e1 /\ segmentRatiosCurrent s' = segmentRatiosCurrent s).
Proof.
  intros e1 s'. subst e1 s'. unfold drawFrame.
  set (s1 := if resizeOnNextDraw (with_timestamp now s)
             then doResizeCalculation (with_timestamp now s)
             else with_timestamp now s).
  assert (H1 : engine s1 = (if resizeOnNextDraw s
                            then WebGLEngine.onResize (engine s)
                            else engine s) /\
               segmentColors s1 = segmentColors s /\
               segmentRatiosCurrent s1 = segmentRatiosCurrent s).
  { subst s1. cbn [resizeOnNextDraw with_timestamp].
    destruct (resizeOnNextDraw s); [|repeat split].
    destruct (doResizeCalculation_engine (with_timestamp now s)) as [-> ->].
    destruct (doResizeCalculation_fields (with_timestamp now s))
      as (_ & _ & _ & _ & -> & _).
    repeat split. }
  clearbody s1. destruct H1 as (He & Hc & Hr).
  pose proof (easeSegments_unchanged
                ((now - timestamp s) / segmentAdjustmentAnimationStepDuration s1)
                (segmentRatiosTarget s1) (segmentRatiosCurrent s1)) as Hun.
  cbv zeta in Hun.
  destruct (fold_left _ _ _) as [ratios changed]. cbn [fst snd] in Hun.
  destruct changed; cbn [setSegments with_segmentRatiosCurrent with_engine
    with_rays engine segmentColors segmentRatiosCurrent rays randomCalls];
    rewrite ?length_map; (split; [exact Hc|]); eexists;
    (split; [reflexivity|]).
  - left. rewrite He, Hc. reflexivity.
  - right. rewrite He, (Hun eq_refl), Hr. split; reflexivity.
Qed.

(** X4: storage is allocated by a frame only when a resize was flagged:
    [onResize] of the indicator only sets the flag, the next [drawFrame]
    reallocates every offscreen target once, at the texture size, and clears
    the flag; a frame without the flag allocates nothing. *)
Theorem drawFrame_allocations (now : Q) (s : t) :
  engine (onResize s) = engine s /\
  resizeOnNextDraw (onResize s) = true /\
  resizeOnNextDraw (drawFrame now s) = false /\
  GL.allocations (WebGLEngine.gl (engine (drawFrame now s))) =
    GL.allocations (WebGLEngine.gl (engine s)) ++
    (if resizeOnNextDraw s
     then WebGLEngine.resize_allocations (WebGLEngine.textureSize (engine s))
     else []).
Proof.
  split; [reflexivity|]. split; [reflexivity|].
  split; [apply drawFrame_fields|].
  destruct (drawFrame_engine now s) as (_ & e2 & -> & He2).
  destruct (draw_keeps (3 * length (rays (drawFrame now s))) e2)
    as (_ & _ & _ & ->).
  assert (H1 : GL.allocations
                 (WebGLEngine.gl (if resizeOnNextDraw s
                                  then WebGLEngine.onResize (engine s)
                                  else engine s)) =
               GL.allocations (WebGLEngine.gl (engine s)) ++
               (if resizeOnNextDraw s
                then WebGLEngine.resize_allocations
                       (WebGLEngine.textureSize (engine s))
                else [])).
  { destruct (resizeOnNextDraw s); [apply onResize_allocations|].
    rewrite app_nil_r. reflexivity. }
  destruct He2 as [-> | [-> _]]; [|exact H1].
  match goal with
  | |- context [WebGLEngine.setSegments ?segs ?e] =>
      destruct (setSegments_keeps segs e) as (_ & _ & _ & -> & _)
  end.
  exact H1.
Qed.

(** X5: the engine shows what the indicator holds: once the segment
    uniforms are the indicator's colors (boosted by the HDR factor) and
    current ratios, with the blend ratio computed from these ratios, they
    stay so after [drawFrame], [loop], [setSegmentCounts], [setColors] and
    [setSegments]. *)
Theorem uniforms_stay_synced (now timestamp : Q) (counts : Vec4 Q)
    (colors : Vec4 String.string) (s : t) :
  synced s ->
  synced (drawFrame now s) /\
  synced (loop timestamp now s) /\
  synced (setSegmentCounts counts s) /\
  synced (setColors colors s) /\
  synced (setSegments s).
Proof.
  intros Hs.
  assert (Hset : forall s0, synced (setSegments s0)).
  { intros s0. unfold synced, setSegments.
    cbn [engine with_engine segmentColors segmentRatiosCurrent].
    match goal with
    | |- context [WebGLEngine.setSegments ?segs ?e] =>
        destruct (setSegments_keeps segs e)
          as ((_ & _ & _ & _ & _ & _ & ->) & -> & -> & _)
    end.
    split; reflexivity. }
  assert (Hframe : forall now0 s0, synced s0 -> synced (drawFrame now0 s0)).
  { intros now0 s0 [Hu Hb]. unfold synced.
    destruct (drawFrame_engine now0 s0) as (-> & e2 & -> & He2).
    destruct (draw_keeps (3 * length (rays (drawFrame now0 s0))) e2)
      as ((_ & _ & _ & _ & _ & _ & ->) & -> & -> & _).
    assert (H1 : forall e1,
      e1 = (if resizeOnNextDraw s0 then WebGLEngine.onResize (engine s0)
            else engine s0) ->
      WebGLEngine.hdrFactor e1 = WebGLEngine.hdrFactor (engine s0) /\
      GL.u_segments (WebGLEngine.gl e1)
        = GL.u_segments (WebGLEngine.gl (engine s0)) /\
      GL.u_blendRatio (WebGLEngine.gl e1)
        = GL.u_blendRatio (WebGLEngine.gl (engine s0))).
    { intros e1 ->. destruct (resizeOnNextDraw s0); [|repeat split].
      destruct (onResize_settings (engine s0)) as (_ & _ & _ & _ & _ & _ & -> & _).
      destruct (onResize_bindings (engine s0)) as (_ & _ & _ & _ & -> & -> & _).
      repeat split. }
    destruct He2 as [-> | [-> ->]].
    - match goal with
      | |- context [WebGLEngine.setSegments ?segs ?e] =>
          destruct (setSegments_keeps segs e)
            as ((_ & _ & _ & _ & _ & _ & ->) & -> & -> & _);
          destruct (H1 e eq_refl) as (-> & _)
      end.
      split; reflexivity.
    - destruct (H1 _ eq_refl) as (-> & -> & ->). split; assumption. }
  split; [apply Hframe, Hs|]. split.
  - unfold loop. destruct (_ && _ && _); [exact Hs|].
    apply Hframe. exact Hs.
  - split; [|split]; [ | | apply Hset].
    + unfold setSegmentCounts. destruct (fold_left _ _ _) as [c sum].
      apply Hset.
    + unfold setColors. apply Hset.
Qed.

Lemma uniforms_stay_synced_witness :
  let colors := sampleColorNames in
  synced sampleIndicator /\
  synced (drawFrame 1033 sampleIndicator) /\
  synced (loop 33 1033 sampleIndicator) /\
  synced (setSegmentCounts (vec4 1 2 3 0) sampleIndicator) /\
  synced (setColors colors sampleIndicator) /\
  synced (setSegments sampleIndicator).
Proof.
  intros colors.
  assert (H : synced sampleIndicator) by (split; reflexivity).
  split; [exact H|].
  apply (uniforms_stay_synced 1033 33 (vec4 1 2 3 0) colors sampleIndicator H).
Defined.
End Sync.

(** ** Counts and colors *)

Section Counts.
Import IrisIndicator.

Lemma setSegmentCounts_fields (counts : Vec4 Q) (s : t) :
  let sum := 0 + vx counts + vy counts + vz counts + vw counts in
  let s' := setSegmentCounts counts s in
  segmentCounts s' = counts /\
  segmentRatiosTarget s' =
    (if Qeq_bool sum 0 then vec4 0 0 0 0
     else vec4 (vx counts / sum) (vy counts / sum) (vz counts / sum)
               (vw counts / sum)) /\
  segmentRatiosCurrent s' = segmentRatiosCurrent s /\
  segmentColors s' = segmentColors s /\
  rays s' = rays s /\ frameTimings s' = frameTimings s /\
  resizeOnNextDraw s' = resizeOnNextDraw s.
Proof.
  destruct counts as [c0 c1 c2 c3]. unfold setSegmentCounts.
  cbn [seq fold_left vnth vset vx vy vz vw].
  destruct (Qeq_bool _ 0); repeat split.
Qed.

(** X6: for non-negative counts that are not all zero, [setSegmentCounts]
    stores the counts and makes each target ratio its count's share of the
    sum: the targets lie between 0 and 1 and add up to 1.  The current ratios
    are not touched: they are eased towards the targets by the frames. *)
Theorem setSegmentCounts_shares (counts : Vec4 Q) (s : t) :
  0 <= vx counts -> 0 <= vy counts -> 0 <= vz counts -> 0 <= vw counts ->
  0 < vx counts + vy counts + vz counts + vw counts ->
  let sum := vx counts + vy counts + vz counts + vw counts in
  let s' := setSegmentCounts counts s in
  let tar := segmentRatiosTarget s' in
  segmentCounts s' = counts /\
  segmentRatiosCurrent s' = segmentRatiosCurrent s /\
  (vx tar == vx counts / sum /\ vy tar == vy counts / sum /\
   vz tar == vz counts / sum /\ vw tar == vw counts / sum) /\
  (0 <= vx tar <= 1 /\ 0 <= vy tar <= 1 /\
   0 <= vz tar <= 1 /\ 0 <= vw tar <= 1) /\
  vx tar + vy tar + vz tar + vw tar == 1.
Proof.
  intros H0 H1 H2 H3 Hsum sum s' tar.
  destruct (setSegmentCounts_fields counts s) as (Hc & Ht & Hr & _).
  split; [exact Hc|]. split; [exact Hr|].
  subst tar s'. rewrite Ht. clear Hc Ht Hr.
  assert (Hs : 0 + vx counts + vy counts + vz counts + vw counts == sum)
    by (subst sum; ring).
  assert (Hne : Qeq_bool (0 + vx counts + vy counts + vz counts + vw counts) 0
                = false).
  { apply Qeq_bool_false. rewrite Hs. subst sum. lra. }
  rewrite Hne. cbn [vx vy vz vw].
  assert (Hq : forall c, 0 <= c -> c <= sum ->
               c / (0 + vx counts + vy counts + vz counts + vw counts)
               == c / sum /\ 0 <= c / sum <= 1).
  { intros c Hc0 Hc1. split; [rewrite Hs; reflexivity|]. split.
    - apply Qle_shift_div_l; [exact Hsum|]. lra.
    - apply Qle_shift_div_r; [exact Hsum|]. lra. }
  destruct (Hq (vx counts) H0 ltac:(subst sum; lra)) as [E0 B0].
  destruct (Hq (vy counts) H1 ltac:(subst sum; lra)) as [E1 B1].
  destruct (Hq (vz counts) H2 ltac:(subst sum; lra)) as [E2 B2].
  destruct (Hq (vw counts) H3 ltac:(subst sum; lra)) as [E3 B3].
  split; [repeat split; assumption|].
  split; [rewrite E0, E1, E2, E3; repeat split; lra|].
  rewrite E0, E1, E2, E3. subst sum. field. lra.
Qed.

Lemma setSegmentCounts_shares_witness :
  let counts := vec4 3 0 1 4 in
  let s := sampleIndicator in
  let sum := vx counts + vy counts + vz counts + vw counts in
  let s' := setSegmentCounts counts s in
  let tar := segmentRatiosTarget s' in
  (0 <= vx counts /\ 0 <= vy counts /\ 0 <= vz counts /\ 0 <= vw counts /\
   0 < vx counts + vy counts + vz counts + vw counts) /\
  segmentCounts s' = counts /\
  segmentRatiosCurrent s' = segmentRatiosCurrent s /\
  (vx tar == vx counts / sum /\ vy tar == vy counts / sum /\
   vz tar == vz counts / sum /\ vw tar == vw counts / sum) /\
  (0 <= vx tar <= 1 /\ 0 <= vy tar <= 1 /\
   0 <= vz tar <= 1 /\ 0 <= vw tar <= 1) /\
  vx tar + vy tar + vz tar + vw tar == 1.
Proof.
  intros counts s sum s' tar.
  assert (H0 : 0 <= vx counts) by (cbn; lra).
  assert (H1 : 0 <= vy counts) by (cbn; lra).
  assert (H2 : 0 <= vz counts) by (cbn; lra).
  assert (H3 : 0 <= vw counts) by (cbn; lra).
  assert (H4 : 0 < vx counts + vy counts + vz counts + vw counts)
    by (cbn; lra).
  split; [repeat split; assumption|].
  apply (setSegmentCounts_shares counts s H0 H1 H2 H3 H4).
Defined.


End Counts.

Section ColorNames.
Import IrisIndicator.
Local Open Scope string_scope.

Lemma setColors_fields (colors : Vec4 String.string) (s : t) :
  let s' := setColors colors s in
  segmentColors s' =
    vec4 (switchColor (vx colors) (vx (segmentColors s)))
         (switchColor (vy colors) (vy (segmentColors s)))
         (switchColor (vz colors) (vz (segmentColors s)))
         (switchColor (vw colors) (vw (segmentColors s))) /\
  segmentCounts s' = segmentCounts s /\
  segmentRatiosTarget s' = segmentRatiosTarget s /\
  segmentRatiosCurrent s' = segmentRatiosCurrent s /\
  rays s' = rays s.
Proof.
  destruct colors as [n0 n1 n2 n3].
  destruct (segmentColors s) as [c0 c1 c2 c3] eqn:Hc.
  unfold setColors. rewrite Hc. repeat split.
Qed.

(** X8: [setColors] gives each segment the palette color of its name, and
    leaves the color of a segment whose name is none of the five built-in
    ones as it was; counts and ratios are not touched, and the engine
    receives the new colors, boosted by its HDR factor. *)
Theorem setColors_palette (colors : Vec4 String.string) (i : nat) (s : t) :
  (i < MAX_SUPPORTED_SEGMENTS)%nat ->
  let s' := setColors colors s in
  let name := vnth colors i in
  let color := vnth (segmentColors s') i in
  (name = "blue" -> color = colormap_blue) /\
  (name = "red" -> color = colormap_red) /\
  (name = "yellow" -> color = colormap_yellow) /\
  (name = "green" -> color = colormap_green) /\
  (name = "purple" -> color = colormap_purple) /\
  (~ In name builtInColors -> color = vnth (segmentColors s) i) /\
  GL.su_color (vnth (GL.u_segments (WebGLEngine.gl (engine s'))) i) =
    boosted (WebGLEngine.hdrFactor (engine s)) color /\
  segmentCounts s' = segmentCounts s /\
  segmentRatiosTarget s' = segmentRatiosTarget s /\
  segmentRatiosCurrent s' = segmentRatiosCurrent s.
Proof.
  intros Hi s' name color.
  destruct (setColors_fields colors s) as (Hc & Hn & Ht & Hr & _).
  assert (Hcolor : color = switchColor name (vnth (segmentColors s) i)).
  { subst color name s'. rewrite Hc.
    clear Hi. destruct i as [|[|[|[|i]]]]; reflexivity. }
  repeat match goal with |- _ /\ _ => split end; trivial.
  1-5: intros Hname; rewrite Hcolor, Hname; reflexivity.
  - intros Hnot. rewrite Hcolor. unfold switchColor, builtInColors in *.
    cbn [In] in Hnot.
    repeat match goal with
    | |- context [String.eqb name ?x] =>
        destruct (String.eqb_spec name x); [exfalso; apply Hnot; auto 10|]
    end.
    reflexivity.
  - subst color s'. unfold setColors, setSegments.
    cbn [engine with_engine segmentColors segmentRatiosCurrent
         with_segmentColors].
    match goal with
    | |- context [WebGLEngine.setSegments ?segs ?e] =>
        destruct (setSegments_keeps segs e) as (_ & -> & _)
    end.
    clear Hi Hcolor. destruct i as [|[|[|[|i]]]]; reflexivity.
Qed.

Lemma setColors_palette_witness :
  let s' := setColors sampleColorNames sampleCounting in
  let name := vnth sampleColorNames 2 in
  let color := vnth (segmentColors s') 2 in
  (2 < MAX_SUPPORTED_SEGMENTS)%nat /\
  (name = "blue" -> color = colormap_blue) /\
  (name = "red" -> color = colormap_red) /\
  (name = "yellow" -> color = colormap_yellow) /\
  (name = "green" -> color = colormap_green) /\
  (name = "purple" -> color = colormap_purple) /\
  (~ In name builtInColors -> color = vnth (segmentColors sampleCounting) 2) /\
  GL.su_color (vnth (GL.u_segments (WebGLEngine.gl (engine s'))) 2) =
    boosted (WebGLEngine.hdrFactor (engine sampleCounting)) color /\
  segmentCounts s' = segmentCounts sampleCounting /\
  segmentRatiosTarget s' = segmentRatiosTarget sampleCounting /\
  segmentRatiosCurrent s' = segmentRatiosCurrent sampleCounting.
Proof.
  intros s' name color.
  assert (H : (2 < MAX_SUPPORTED_SEGMENTS)%nat) by (vm_compute; lia).
  split; [exact H|].
  apply (setColors_palette sampleColorNames 2 sampleCounting H).
Defined.
End ColorNames.

(** ** The generated rays *)

Section Geometry.
Import IrisIndicator.

Lemma generateRay_generated (nRays : nat) (R w : Q) (random : nat -> Q)
    (l : list nat) :
  unitRandom random -> 0 < R ->
  forall (rays : list Ray) (k : nat),
    let r := fold_left (generateRay nRays R w random) l (rays, k) in
    Forall (generatedRay R w) rays ->
    Forall (generatedRay R w) (fst r) /\
    map radians (fst r) =
      map radians rays ++
      map (fun i => inject_Z (Z.of_nat i) / inject_Z (Z.of_nat nRays)
                    * 2 * JS.PI) l /\
    snd r = (k + 4 * length l)%nat.
Proof.
  intros Hrand HR. induction l as [|i l IH]; intros rays k r Hrays.
  - subst r. cbn. rewrite app_nil_r. repeat split; [exact Hrays | lia].
  - subst r. cbn [fold_left]. unfold generateRay at 2 4 6.
    match goal with
    | |- context [fold_left _ l (?rs, ?k')] =>
        specialize (IH rs k'); cbv zeta in IH;
        destruct IH as (IH1 & IH2 & IH3)
    end.
    + apply Forall_app. split; [exact Hrays|]. constructor; [|constructor].
      pose proof (Hrand k) as [H0 H0'].
      pose proof (Hrand (k + 1)%nat) as [H1 H1'].
      pose proof (Hrand (k + 2)%nat) as [H2 H2'].
      unfold generatedRay. cbn [radius width inner min max current].
      set (a := random k) in *. set (b := random (k + 1)%nat) in *.
      set (c := random (k + 2)%nat) in *.
      assert (Ha : 0 <= a * R <= R) by nra.
      assert (Hb : 0 <= b * R <= R) by nra.
      assert (Hmin : 0.6 * R + a * 0.1 * R == 0.6 * R + 0.1 * (a * R)) by ring.
      assert (Hmax : 1.0 * R - b * 0.1 * R == R - 0.1 * (b * R)) by ring.
      set (mn := 0.6 * R + a * 0.1 * R) in *.
      set (mx := 1.0 * R - b * 0.1 * R) in *.
      assert (Hd : 0 <= mx - mn <= 0.4 * R) by lra.
      assert (Hc : 0 <= (mx - mn) * c <= mx - mn) by nra.
      repeat split; try lra.
    + split; [exact IH1|]. split.
      * rewrite IH2, map_app, <- app_assoc. reflexivity.
      * rewrite IH3. cbn [length]. lia.
Qed.

(** X9: with [Math.random] in [0, 1) and a canvas of positive size,
    [generateRays] makes exactly [nRays] rays, evenly spaced around the
    circle (ray [i] at [i / nRays] of a full turn), each with the inner radius
    at 30% of the canvas radius, its minimum within 60%..70%, its maximum
    within 90%..100% (so the minimum is below the maximum) and a start radius
    within 60%..100%; it draws four random numbers per ray. *)
Theorem generateRays_geometry (s : t) :
  unitRandom (random s) ->
  (0 < Z.min (fst (WebGLEngine.textureSize (engine s)))
             (snd (WebGLEngine.textureSize (engine s))))%Z ->
  let R := inject_Z (Z.min (fst (WebGLEngine.textureSize (engine s)))
                           (snd (WebGLEngine.textureSize (engine s)))) / 2 in
  let n := inject_Z (Z.of_nat (nRays s)) in
  let s' := generateRays s in
  length (rays s') = nRays s /\
  randomCalls s' = (randomCalls s + 4 * nRays s)%nat /\
  map radians (rays s') =
    map (fun i => inject_Z (Z.of_nat i) / n * 2 * JS.PI) (seq 0 (nRays s)) /\
  Forall (generatedRay R (2 * JS.PI / (n * 3) * 3)) (rays s').
Proof.
  intros Hrand Hsize R n s'.
  split; [apply generateRays_length|].
  subst s' R n. unfold generateRays.
  destruct (WebGLEngine.textureSize (engine s)) as [cw ch].
  cbn [fst snd] in *.
  match goal with
  | |- context [fold_left (generateRay ?n ?R ?w ?rnd) ?l (?rs, ?k)] =>
      pose proof (generateRay_generated n R w rnd l Hrand) as H;
      cbv zeta in H; specialize (fun HR => H HR rs k);
      destruct (fold_left (generateRay n R w rnd) l (rs, k)) as [rays' calls]
  end.
  cbn [fst snd] in H. destruct H as (H1 & H2 & H3).
  - apply Qlt_shift_div_l; [reflexivity|].
    change (0 * 2) with (inject_Z 0). rewrite <- Zlt_Qlt. exact Hsize.
  - constructor.
  - cbn [rays randomCalls with_rays]. rewrite length_seq in H3.
    split; [exact H3|]. split; [exact H2 | exact H1].
Qed.

Lemma sampleRandom_unit : unitRandom sampleRandom.
Proof.
  intros k. unfold sampleRandom.
  pose proof (Nat.mod_upper_bound k 7 ltac:(lia)) as Hlt.
  assert (H0 : 0 <= inject_Z (Z.of_nat (k mod 7)))
    by (change 0 with (inject_Z 0); rewrite <- Zle_Qle; lia).
  assert (H7 : inject_Z (Z.of_nat (k mod 7)) < 7)
    by (change 7 with (inject_Z 7); rewrite <- Zlt_Qlt; lia).
  split.
  - apply Qle_shift_div_l; [reflexivity | lra].
  - apply Qlt_shift_div_r; [reflexivity | lra].
Qed.

Lemma generateRays_geometry_witness :
  let s := sampleIndicator in
  let R := inject_Z (Z.min (fst (WebGLEngine.textureSize (engine s)))
                           (snd (WebGLEngine.textureSize (engine s)))) / 2 in
  let n := inject_Z (Z.of_nat (nRays s)) in
  let s' := generateRays s in
  unitRandom (random s) /\
  (0 < Z.min (fst (WebGLEngine.textureSize (engine s)))
             (snd (WebGLEngine.textureSize (engine s))))%Z /\
  length (rays s') = nRays s /\
  randomCalls s' = (randomCalls s + 4 * nRays s)%nat /\
  map radians (rays s') =
    map (fun i => inject_Z (Z.of_nat i) / n * 2 * JS.PI) (seq 0 (nRays s)) /\
  Forall (generatedRay R (2 * JS.PI / (n * 3) * 3)) (rays s').
Proof.
  intros s R n s'.
  assert (H1 : unitRandom (random s)) by exact sampleRandom_unit.
  assert (H2 : (0 < Z.min (fst (WebGLEngine.textureSize (engine s)))
                          (snd (WebGLEngine.textureSize (engine s))))%Z)
    by (vm_compute; reflexivity).
  split; [exact H1|]. split; [exact H2|].
  apply (generateRays_geometry s H1 H2).
Defined.

Lemma calculateOptimalRayCount_resized (s : t) :
  calculateOptimalRayCount
    (with_engine (WebGLEngine.onResize (engine s)) s)
  = calculateOptimalRayCount s.
Proof.
  unfold calculateOptimalRayCount. cbn [engine with_engine].
  destruct (onResize_settings (engine s)) as (_ & _ & _ & _ & _ & _ & _ & ->).
  reflexivity.
Qed.

(** X10: a ray count takes effect at the next resize: the frame after a
    flagged resize holds exactly [nRays] rays, where [nRays] is the stored
    count if the automatic adjustment is off, and otherwise the optimal count
    for the texture size, which is at least 16.  So [setRayCount n] followed
    by a resize gives [n] rays. *)
Theorem rays_regenerated_at_resize (now : Q) (n : nat) (s : t) :
  let s' := drawFrame now (onResize s) in
  length (rays s') = nRays s' /\
  nRays s' =
    (if autoAdjustRays s then calculateOptimalRayCount s else nRays s) /\
  (16 <= calculateOptimalRayCount s)%nat /\
  length (rays (drawFrame now (onResize (setRayCount n s)))) = n.
Proof.
  assert (H : forall s0,
            let s1 := drawFrame now (onResize s0) in
            length (rays s1) = nRays s1 /\
            nRays s1 = (if autoAdjustRays s0 then calculateOptimalRayCount s0
                        else nRays s0)).
  { intros s0 s1. subst s1. unfold drawFrame.
    cbn [onResize resizeOnNextDraw with_resizeOnNextDraw with_timestamp].
    match goal with
    | |- context [doResizeCalculation ?x] =>
        set (s2 := doResizeCalculation x);
        assert (H2 : length (rays s2) = nRays s2 /\
                     nRays s2 = (if autoAdjustRays s0
                                 then calculateOptimalRayCount s0
                                 else nRays s0))
    end.
    { subst s2. unfold doResizeCalculation.
      cbn [autoAdjustRays with_engine with_resizeOnNextDraw].
      rewrite generateRays_length.
      match goal with
      | |- context [generateRays ?x] =>
          destruct (generateRays_fields x) as (_ & -> & _)
      end.
      split; [reflexivity|].
      cbn [autoAdjustRays with_engine with_resizeOnNextDraw with_timestamp
           onResize].
      destruct (autoAdjustRays s0); [|reflexivity].
      cbn [nRays with_ray_count].
      apply (calculateOptimalRayCount_resized
               (with_resizeOnNextDraw false
                  (with_timestamp now (with_resizeOnNextDraw true s0)))). }
    clearbody s2. destruct H2 as [Hlen Hn].
    destruct (fold_left _ _ _) as [ratios changed].
    destruct changed;
      cbn [rays nRays with_engine with_rays setSegments
           with_segmentRatiosCurrent];
      rewrite length_map; split; assumption. }
  intros s'. destruct (H s) as [H1 H2].
  split; [exact H1|]. split; [exact H2|]. split.
  - unfold calculateOptimalRayCount.
    destruct (WebGLEngine.textureSize (engine s)). lia.
  - destruct (H (setRayCount n s)) as [-> ->]. reflexivity.
Qed.
End Geometry.

(** ** The frame loop *)

Section Limiter.
Import IrisIndicator.

Lemma loop_fields (timestamp now : Q) (s : t) :
  fpsLimitEnabled (loop timestamp now s) = fpsLimitEnabled s /\
  fpsLimit (loop timestamp now s) = fpsLimit s.
Proof.
  unfold loop. destruct (_ && _ && _); [split; reflexivity|].
  match goal with
  | |- context [drawFrame now ?x] =>
      destruct (drawFrame_fields now x) as (_ & _ & _ & -> & -> & _)
  end.
  split; reflexivity.
Qed.

Lemma Forall_lastn {A} (P : A -> Prop) (n : nat) (l : list A) :
  Forall P l -> Forall P (lastn n l).
Proof.
  intros H. unfold lastn.
  rewrite <- (firstn_skipn (length l - n) l) in H.
  apply Forall_app in H. apply H.
Qed.

Lemma Qsum_bounds (B : Q) (l : list Q) :
  Forall (fun x => 0 <= x <= B) l ->
  0 <= Qsum l <= B * inject_Z (Z.of_nat (length l)).
Proof.
  induction 1 as [|x l Hx _ IH]; cbn [Qsum fold_right length].
  - change (inject_Z (Z.of_nat 0)) with 0. lra.
  - fold (Qsum l). rewrite Nat2Z.inj_succ, <- Z.add_1_r, inject_Z_plus.
    change (inject_Z 1) with 1. lra.
Qed.

Lemma mean_bounds (B : Q) (l : list Q) :
  0 <= B -> Forall (fun x => 0 <= x <= B) l -> 0 <= mean l <= B.
Proof.
  intros HB H. pose proof (Qsum_bounds B l H) as Hs.
  destruct l as [|x l]; [cbn; lra|]. unfold mean.
  set (len := inject_Z (Z.of_nat (length (x :: l)))) in *.
  assert (Hlen : 0 < len).
  { subst len. change 0 with (inject_Z 0). rewrite <- Zlt_Qlt.
    cbn [length]. lia. }
  split.
  - apply Qle_shift_div_l; [exact Hlen | lra].
  - apply Qle_shift_div_r; [exact Hlen | lra].
Qed.

(** The sample of a frame that the limiter lets through. *)
Lemma frameSample_bounds (timestamp : Q) (s : t) :
  0 < fpsLimit s ->
  frameSkipped timestamp s = false ->
  0 <= frameSample timestamp s /\
  (fpsLimitEnabled s = true -> frameSample timestamp s <= 1000 / fpsLimit s).
Proof.
  unfold frameSkipped, frameSample. intros Hlimit Hskip.
  set (d := frameDelta timestamp s) in *.
  assert (HB : 0 <= 1000 / fpsLimit s)
    by (apply Qle_shift_div_l; [exact Hlimit | lra]).
  destruct (JS.Qltb 0 d) eqn:Hd; [apply Qltb_true in Hd|split; intros; lra].
  split.
  - apply Qle_shift_div_l; [exact Hd | lra].
  - intros Hen. rewrite Hen in Hskip. cbn in Hskip.
    apply Qltb_false in Hskip.
    apply Qle_shift_div_r; [exact Hd|].
    assert (HBL : 1000 / fpsLimit s * fpsLimit s == 1000) by (field; lra).
    set (B := 1000 / fpsLimit s) in *. nra.
Qed.
End Limiter.

Section LimiterBound.
Import IrisIndicator.

Lemma loop_limited (timestamp now : Q) (s : t) :
  fpsLimitEnabled s = true -> 0 < fpsLimit s ->
  Forall (fun x => 0 <= x <= 1000 / fpsLimit s) (frameTimings s) ->
  Forall (fun x => 0 <= x <= 1000 / fpsLimit s)
         (frameTimings (loop timestamp now s)).
Proof.
  intros Hen Hlimit Hall. rewrite loop_frameTimings.
  destruct (frameSkipped timestamp s) eqn:Hskip; [exact Hall|].
  apply Forall_lastn, Forall_app. split; [exact Hall|].
  constructor; [|constructor].
  destruct (frameSample_bounds timestamp s Hlimit Hskip) as [H0 H1].
  split; [exact H0 | exact (H1 Hen)].
Qed.

(** X11: with the limiter on and a positive frame duration [fpsLimit]
    (milliseconds per frame), no frame that is let through records more than
    [1000 / fpsLimit] frames per second: the window stays within
    [0, 1000 / fpsLimit] over any run of animation frames, and so does the
    reported mean. *)
Theorem fps_limiter_bound (frames : list (Q * Q)) (s : t) :
  fpsLimitEnabled s = true -> 0 < fpsLimit s ->
  Forall (fun x => 0 <= x <= 1000 / fpsLimit s) (frameTimings s) ->
  let s' := runLoop frames s in
  Forall (fun x => 0 <= x <= 1000 / fpsLimit s) (frameTimings s') /\
  0 <= getCurrentFps s' <= 1000 / fpsLimit s.
Proof.
  intros Hen Hlimit Hall s'.
  assert (H : fpsLimitEnabled s' = true /\ fpsLimit s' = fpsLimit s /\
              Forall (fun x => 0 <= x <= 1000 / fpsLimit s) (frameTimings s')).
  { subst s'. revert s Hen Hlimit Hall.
    induction frames as [|[timestamp now] frames IH]; intros s Hen Hlimit Hall;
      [repeat split; assumption|].
    unfold runLoop in *. cbn [fold_left fst snd].
    destruct (loop_fields timestamp now s) as [He Hl].
    destruct (IH (loop timestamp now s)) as (IH1 & IH2 & IH3).
    - rewrite He. exact Hen.
    - rewrite Hl. exact Hlimit.
    - rewrite Hl. apply loop_limited; assumption.
    - rewrite Hl in IH2, IH3. repeat split; assumption. }
  destruct H as (_ & _ & H). split; [exact H|].
  rewrite getCurrentFps_mean. apply mean_bounds; [|exact H].
  apply Qle_shift_div_l; [exact Hlimit | lra].
Qed.

Lemma fps_limiter_bound_witness :
  let s := setFpsLimitEnabled true (setFpsLimit 30 sampleIndicator) in
  let s' := runLoop sampleFrames s in
  fpsLimit s == 33 /\
  Forall (fun x => 0 <= x <= 1000 / fpsLimit s) (frameTimings s') /\
  0 <= getCurrentFps s' <= 1000 / fpsLimit s.
Proof.
  intros s s'. split; [vm_compute; reflexivity|].
  apply (fps_limiter_bound sampleFrames s).
  - reflexivity.
  - vm_compute. reflexivity.
  - vm_compute. constructor.
Defined.
End LimiterBound.

(** ** Settling of the ratios *)

Section Settle.
Import IrisIndicator.

Lemma ease_keeps_settled (step cur tar : Q) :
  cur == tar -> ease step cur tar = cur.
Proof.
  intros H. unfold ease. apply Qeq_bool_iff in H. rewrite H. reflexivity.
Qed.

(** X12: frames that are at most one step duration apart bring all four
    current ratios to their targets: after as many frames as the largest
    [easingBound] the current ratios equal the targets, the targets are as
    set, and every further frame leaves the current ratios as they are. *)
Theorem ratios_settle (deltaMs : Q) (n : nat) (s : t) :
  0 < deltaMs / segmentAdjustmentAnimationStepDuration s ->
  deltaMs / segmentAdjustmentAnimationStepDuration s <= 1 ->
  (forall i, (i < MAX_SUPPORTED_SEGMENTS)%nat ->
     (easingBound (deltaMs / segmentAdjustmentAnimationStepDuration s)
        (vnth (segmentRatiosCurrent s) i) (vnth (segmentRatiosTarget s) i)
      <= n)%nat) ->
  let s' := ticks n deltaMs s in
  segmentRatiosTarget s' = segmentRatiosTarget s /\
  (forall i, (i < MAX_SUPPORTED_SEGMENTS)%nat ->
     vnth (segmentRatiosCurrent s') i == vnth (segmentRatiosTarget s) i) /\
  (forall now, segmentRatiosCurrent (drawFrame now s') =
               segmentRatiosCurrent s').
Proof.
  intros Hpos Hle Hn s'.
  assert (Ht : segmentRatiosTarget s' = segmentRatiosTarget s).
  { apply (ticks_ratio deltaMs 0 n s). unfold MAX_SUPPORTED_SEGMENTS. lia. }
  assert (Hc : forall i, (i < MAX_SUPPORTED_SEGMENTS)%nat ->
             vnth (segmentRatiosCurrent s') i == vnth (segmentRatiosTarget s) i).
  { intros i Hi.
    destruct (ticks_ratio deltaMs i n s Hi) as [_ Hr]. subst s'. rewrite Hr.
    apply easeN_converges; [exact Hpos | exact Hle | apply Hn; exact Hi]. }
  split; [exact Ht|]. split; [exact Hc|].
  intros now. rewrite drawFrame_ratios, Ht.
  pose proof (Hc 0%nat ltac:(unfold MAX_SUPPORTED_SEGMENTS; lia)) as H0.
  pose proof (Hc 1%nat ltac:(unfold MAX_SUPPORTED_SEGMENTS; lia)) as H1.
  pose proof (Hc 2%nat ltac:(unfold MAX_SUPPORTED_SEGMENTS; lia)) as H2.
  pose proof (Hc 3%nat ltac:(unfold MAX_SUPPORTED_SEGMENTS; lia)) as H3.
  cbn [vnth] in H0, H1, H2, H3.
  rewrite !ease_keeps_settled by assumption.
  destruct (segmentRatiosCurrent s'). reflexivity.
Qed.

Lemma ratios_settle_witness :
  let s' := ticks 2002 50 sampleCounting in
  segmentRatiosTarget s' = segmentRatiosTarget sampleCounting /\
  (forall i, (i < MAX_SUPPORTED_SEGMENTS)%nat ->
     vnth (segmentRatiosCurrent s') i
     == vnth (segmentRatiosTarget sampleCounting) i) /\
  (forall now, segmentRatiosCurrent (drawFrame now s') =
               segmentRatiosCurrent s').
Proof.
  apply (ratios_settle 50 2002 sampleCounting).
  - vm_compute. reflexivity.
  - vm_compute. discriminate.
  - intros i Hi. destruct i as [|[|[|[|i]]]];
      [vm_compute; lia .. | unfold MAX_SUPPORTED_SEGMENTS in Hi; lia].
Defined.
End Settle.

(** ** The texture size *)

Section TextureSize.
Import GL WebGLEngine.

Lemma Qceiling_le_Z (q : Q) (z : Z) : q <= inject_Z z -> (Qceiling q <= z)%Z.
Proof.
  intros H. apply Qceiling_resp_le in H. rewrite Qceiling_Z in H. exact H.
Qed.

Lemma Qceiling_ge_Z (q : Q) (z : Z) : inject_Z z <= q -> (z <= Qceiling q)%Z.
Proof.
  intros H. apply Qceiling_resp_le in H. rewrite Qceiling_Z in H. exact H.
Qed.

Lemma scaled_size_bounds (client : Z) (modifier : Q) :
  (0 <= client)%Z ->
  let size := Qceiling (inject_Z client * Qmin modifier 2) in
  (size <= 2 * client)%Z /\
  (0 <= modifier -> (0 <= size)%Z) /\
  (1 <= modifier -> (client <= size)%Z).
Proof.
  intros Hc size.
  assert (Hq : 0 <= inject_Z client)
    by (change 0 with (inject_Z 0); rewrite <- Zle_Qle; exact Hc).
  pose proof (Q.le_min_r modifier 2) as Hm.
  split; [|split].
  - apply Qceiling_le_Z. rewrite inject_Z_mult.
    change (inject_Z 2) with 2. nra.
  - intros H0. apply Qceiling_ge_Z. change (inject_Z 0) with 0.
    assert (0 <= Qmin modifier 2) by (apply Q.min_glb; lra). nra.
  - intros H1. apply Qceiling_ge_Z.
    assert (1 <= Qmin modifier 2) by (apply Q.min_glb; lra). nra.
Qed.

(** X13: for a canvas of non-negative client size, the offscreen texture
    size after [setTextureSizeModifier] is at most twice the client size in
    each dimension whatever the modifier, is non-negative for a non-negative
    modifier and at least the client size for a modifier of at least 1; the
    four targets that the call allocates all have exactly this size. *)
Theorem textureSize_bounds (modifier : Q) (e : t) :
  (0 <= clientWidth e)%Z -> (0 <= clientHeight e)%Z ->
  let e' := setTextureSizeModifier modifier e in
  let size := textureSize e' in
  (fst size <= 2 * clientWidth e)%Z /\ (snd size <= 2 * clientHeight e)%Z /\
  (0 <= modifier -> (0 <= fst size)%Z /\ (0 <= snd size)%Z) /\
  (1 <= modifier ->
   (clientWidth e <= fst size)%Z /\ (clientHeight e <= snd size)%Z) /\
  exists allocated,
    allocations (gl e') = allocations (gl e) ++ allocated /\
    length allocated = 4%nat /\
    Forall (fun a => al_width a = fst size /\ al_height a = snd size)
           allocated.
Proof.
  intros Hw Hh e' size.
  destruct (scaled_size_bounds (clientWidth e) modifier Hw) as (W1 & W2 & W3).
  destruct (scaled_size_bounds (clientHeight e) modifier Hh) as (H1 & H2 & H3).
  assert (Hsize : size =
            (Qceiling (inject_Z (clientWidth e) * Qmin modifier 2),
             Qceiling (inject_Z (clientHeight e) * Qmin modifier 2))).
  { subst size e'. unfold setTextureSizeModifier.
    match goal with
    | |- textureSize (onResize ?x) = _ =>
        destruct (onResize_settings x) as (_ & _ & _ & _ & _ & _ & _ & ->)
    end. reflexivity. }
  rewrite Hsize. cbn [fst snd].
  split; [exact W1|]. split; [exact H1|].
  split; [intros H; split; [apply W2 | apply H2]; exact H|].
  split; [intros H; split; [apply W3 | apply H3]; exact H|].
  exists (resize_allocations size). split; [|split].
  - subst size e'. unfold setTextureSizeModifier.
    match goal with
    | |- allocations (gl (onResize ?x)) = _ =>
        rewrite (onResize_allocations x);
        destruct (onResize_settings x) as (_ & _ & _ & _ & _ & _ & _ & ->)
    end. reflexivity.
  - rewrite Hsize. reflexivity.
  - rewrite Hsize. cbn [resize_allocations].
    repeat constructor.
Qed.

Lemma textureSize_bounds_witness :
  let e' := setTextureSizeModifier 3 sampleEngine in
  textureSize e' = (600, 300)%Z /\
  (fst (textureSize e') <= 2 * clientWidth sampleEngine)%Z /\
  (snd (textureSize e') <= 2 * clientHeight sampleEngine)%Z.
Proof.
  intros e'. split; [vm_compute; reflexivity|].
  assert (Hw : (0 <= clientWidth sampleEngine)%Z) by (vm_compute; discriminate).
  assert (Hh : (0 <= clientHeight sampleEngine)%Z) by (vm_compute; discriminate).
  pose proof (textureSize_bounds 3 sampleEngine Hw Hh) as H. cbv zeta in H.
  destruct H as (H1 & H2 & _). split; [exact H1 | exact H2].
Defined.

(** X14: resizing is repeatable: [onResize] keeps every setting and the
    texture size, so a second resize allocates the same four targets at the
    same size again, and a [draw] in between changes neither the texture size
    nor what is allocated. *)
Theorem onResize_repeatable (count : nat) (e : t) :
  let size := textureSize e in
  textureSize (onResize e) = size /\
  textureSize (draw count (onResize e)) = size /\
  allocations (gl (onResize (draw count (onResize e)))) =
    allocations (gl e) ++ resize_allocations size ++ resize_allocations size /\
  Forall (fun a => al_width a = fst size /\ al_height a = snd size)
         (resize_allocations size).
Proof.
  intros size.
  destruct (onResize_settings e) as (_ & _ & _ & _ & _ & _ & _ & Hs).
  pose proof (draw_keeps count (onResize e)) as Hk. cbv zeta in Hk.
  assert (Hd : textureSize (draw count (onResize e)) = size).
  { unfold textureSize in *.
    destruct Hk as ((-> & -> & _ & _ & -> & _) & _). exact Hs. }
  split; [exact Hs|]. split; [exact Hd|]. split.
  - rewrite onResize_allocations, Hd, draw_allocations, onResize_allocations.
    rewrite <- app_assoc. reflexivity.
  - destruct size as [w h]. cbn [resize_allocations fst snd].
    repeat constructor.
Qed.
End TextureSize.

(** ** Matrices and the vertex shader *)

Section Matrices.
Import GL MathUtil VertexShader.

Lemma frame_matrix_entries (cos sin : Q -> Q) (tx ty rad : Q) :
  mat3mul (translationMatrix tx ty) (rotationMatrix cos sin rad) =
  mat3 (cos rad * 1 + - sin rad * 0 + 0 * tx)
       (cos rad * 0 + - sin rad * 1 + 0 * ty)
       (cos rad * 0 + - sin rad * 0 + 0 * 1)
       (sin rad * 1 + cos rad * 0 + 0 * tx)
       (sin rad * 0 + cos rad * 1 + 0 * ty)
       (sin rad * 0 + cos rad * 0 + 0 * 1)
       (0 * 1 + 0 * 0 + 1 * tx)
       (0 * 0 + 0 * 1 + 1 * ty)
       (0 * 0 + 0 * 0 + 1 * 1).
Proof. reflexivity. Qed.

(** X15: in the vertex shader, the product [mat3mul a b] acts as [b]
    followed by [a]; so the frame's matrix, the product of the translation
    and the rotation, rotates a vertex about the origin first and then moves
    it by the translation. *)
Theorem mat3mul_composes (cos sin : Q -> Q) (a b : Mat3) (v : Q * Q * Q)
    (tx ty rad x y : Q) :
  let p := mat3_mul_vec3 (mat3mul a b) v in
  let q := mat3_mul_vec3 a (mat3_mul_vec3 b v) in
  let r := mat3_mul_vec3
             (mat3mul (translationMatrix tx ty) (rotationMatrix cos sin rad))
             (x, y, 1) in
  (fst (fst p) == fst (fst q) /\ snd (fst p) == snd (fst q) /\
   snd p == snd q) /\
  (fst (fst r) == cos rad * x + sin rad * y + tx /\
   snd (fst r) == - sin rad * x + cos rad * y + ty /\
   snd r == 1).
Proof.
  destruct a, b, v as [[vx vy] vz]. cbn. repeat split; ring.
Qed.
End Matrices.

(** ** The rectangle of the post-processing passes *)

Section Rectangle.
Import GL MathUtil VertexStage.

(** The blur loop draws the buffer once per iteration at the given
    resolution. *)
Lemma blur_loop_draws (w h : Z) (l : list nat) :
  forall st : State,
    let st' :=
      fold_left
        (fun st (pass : nat) => st |> setFramebuffer w h |> drawArrays 6)
        l st in
    u_pass st' = u_pass st /\ u_matrix st' = u_matrix st /\
    arrayBuffer st' = arrayBuffer st /\
    draws st' =
      draws st ++
      repeat {| d_pass := u_pass st; d_resolution := (w, h);
                d_matrix := u_matrix st; d_buffer := arrayBuffer st;
                d_count := 6 |} (length l).
Proof.
  induction l as [|pass l IH]; intros st; cbn [fold_left length repeat].
  - rewrite app_nil_r. repeat split.
  - destruct (IH (st |> setFramebuffer w h |> drawArrays 6))
      as (Hp & Hm & Hb & Hd).
    cbv zeta. rewrite Hp, Hm, Hb, Hd. cbn. rewrite <- app_assoc.
    repeat split.
Qed.

(** The draws of one frame: the rays, then the rectangle of the texture
    size in every post-processing pass, at the resolution of the texture
    size but for the last draw, which has the resolution of the canvas. *)
Lemma draw_draws (triangleData : list Q) (count : nat) (matrix : Mat3)
    (e : WebGLEngine.t) :
  draws (draw triangleData count matrix e fresh) =
  {| d_pass := FRAGMENT_PASS_NORMAL;
     d_resolution := WebGLEngine.textureSize e;
     d_matrix := matrix; d_buffer := triangleData; d_count := count |}
  :: ((if WebGLEngine.bloomEnabled e
       then offscreenDraw e matrix FRAGMENT_PASS_BRIGHTNESS
            :: repeat (offscreenDraw e matrix FRAGMENT_PASS_BLUR)
                 (WebGLEngine.nBloomPasses e * 2)
            ++ [offscreenDraw e matrix FRAGMENT_PASS_COMPOSITE]
       else [])
      ++ [offscreenDraw e matrix FRAGMENT_PASS_TONEMAP])
  ++ [canvasDraw e matrix].
Proof.
  unfold draw, bloomPass, offscreenDraw, canvasDraw.
  destruct (WebGLEngine.textureSize e) as [w h].
  destruct (WebGLEngine.bloomEnabled e).
  - unfold setFramebufferRectangle.
    match goal with
    | |- context [fold_left ?f ?l ?st] =>
        destruct (blur_loop_draws w h l st) as (Hp & Hm & Hb & Hd);
        set (st' := fold_left f l st) in *
    end.
    cbv zeta in *. cbn [draws drawArrays setFramebuffer uniform_pass
                        bufferData u_pass u_matrix arrayBuffer u_resolution
                        uniformMatrix3fv] in *.
    rewrite ?Hp, ?Hm, ?Hb, Hd, length_seq.
    destruct (WebGLEngine.msaaEnabled e); cbn; rewrite <- !app_assoc;
      reflexivity.
  - destruct (WebGLEngine.msaaEnabled e); reflexivity.
Qed.

Lemma repeat_map {A B} (f : A -> B) (x : A) (n : nat) :
  map f (repeat x n) = repeat (f x) n.
Proof. induction n as [|n IH]; cbn; [|rewrite IH]; reflexivity. Qed.

Lemma map_const_seq {A} (x : A) (k : nat) :
  forall start, map (fun _ => x) (seq start k) = repeat x k.
Proof.
  induction k as [|k IH]; intros start; cbn [seq map repeat];
    [|rewrite IH]; reflexivity.
Qed.

Lemma blurPlan_planned (n : nat) :
  map planned (blurPlan n) = repeat (FRAGMENT_PASS_BLUR, 6%nat) (n * 2).
Proof.
  unfold blurPlan. rewrite map_map. cbn [planned]. apply map_const_seq.
Qed.

(** The draws of the vertex stage are the draw calls of the frame plan. *)
Lemma draw_follows_plan (triangleData : list Q) (count : nat) (matrix : Mat3)
    (e : WebGLEngine.t) :
  map (fun d => (d_pass d, d_count d))
      (draws (draw triangleData count matrix e fresh))
  = map planned (framePlan e count).
Proof.
  rewrite draw_draws. unfold framePlan, offscreenDraw, canvasDraw.
  destruct (WebGLEngine.textureSize e) as [w h].
  destruct (WebGLEngine.bloomEnabled e).
  - cbn [map app]. rewrite ?map_app. cbn [map app planned d_pass d_count].
    rewrite ?map_app, blurPlan_planned, repeat_map.
    cbn [map app planned d_pass d_count].
    rewrite <- ?app_assoc. reflexivity.
  - reflexivity.
Qed.

(** The vertex shader on the rectangle of the size of the resolution. *)
Lemma shaded_offscreenDraw (e : WebGLEngine.t) (matrix : Mat3)
    (pass : FragmentPass) :
  (0 < fst (WebGLEngine.textureSize e))%Z ->
  (0 < snd (WebGLEngine.textureSize e))%Z ->
  pass <> FRAGMENT_PASS_NORMAL ->
  Forall2 sameXY (map fst (shaded (offscreenDraw e matrix pass))) clipCorners /\
  Forall2 sameXY (map snd (shaded (offscreenDraw e matrix pass)))
          textureCorners.
Proof.
  unfold offscreenDraw. destruct (WebGLEngine.textureSize e) as [w h].
  cbn [fst snd]. intros Hw Hh Hpass.
  assert (HW : 0 < inject_Z w)
    by (change 0 with (inject_Z 0); rewrite <- Zlt_Qlt; exact Hw).
  assert (HH : 0 < inject_Z h)
    by (change 0 with (inject_Z 0); rewrite <- Zlt_Qlt; exact Hh).
  assert (Hp : pass_eqb pass FRAGMENT_PASS_NORMAL = false)
    by (destruct pass; try reflexivity; contradiction Hpass; reflexivity).
  unfold shaded, VertexShader.main, rectangle, clipCorners, textureCorners,
    sameXY.
  cbn [d_pass d_resolution d_matrix d_buffer d_count vertices map fst snd
       VertexShader.gl_Position VertexShader.v_texcoord].
  rewrite Hp. cbn [fst snd].
  split; repeat constructor; cbn [fst snd]; field; lra.
Qed.
End Rectangle.

Section Coverage.
Import GL MathUtil VertexStage.

(** X16: the vertex stage of one frame.  The first draw has the ray
    triangles, the frame's matrix and the resolution of the texture size;
    every draw between the first and the last is a post-processing pass whose
    six vertices the vertex shader puts onto the corners of clip space, with
    the corners of the texture as texture coordinates, so that each pass
    covers its whole target; the last draw is the one onto the canvas.  The
    passes and vertex counts are those of the frame's draw calls. *)
Theorem postprocessing_covers_target (triangleData : list Q) (count : nat)
    (matrix : Mat3) (e : WebGLEngine.t) :
  (0 < fst (WebGLEngine.textureSize e))%Z ->
  (0 < snd (WebGLEngine.textureSize e))%Z ->
  exists first middle last,
    draws (draw triangleData count matrix e fresh) = first :: middle ++ [last] /\
    first = {| d_pass := FRAGMENT_PASS_NORMAL;
               d_resolution := WebGLEngine.textureSize e;
               d_matrix := matrix; d_buffer := triangleData;
               d_count := count |} /\
    length middle =
      (if WebGLEngine.bloomEnabled e
       then WebGLEngine.nBloomPasses e * 2 + 3 else 1)%nat /\
    Forall (fun d =>
              d_count d = 6%nat /\
              d_resolution d = WebGLEngine.textureSize e /\
              Forall2 sameXY (map fst (shaded d)) clipCorners /\
              Forall2 sameXY (map snd (shaded d)) textureCorners) middle /\
    last = canvasDraw e matrix /\
    map (fun d => (d_pass d, d_count d)) (first :: middle ++ [last])
    = map planned (framePlan e count).
Proof.
  intros Hw Hh.
  pose proof (draw_draws triangleData count matrix e) as Hd.
  pose proof (draw_follows_plan triangleData count matrix e) as Hplan.
  rewrite Hd in Hplan.
  assert (Hoff : forall pass, pass <> FRAGMENT_PASS_NORMAL ->
            let d := offscreenDraw e matrix pass in
            d_count d = 6%nat /\
            d_resolution d = WebGLEngine.textureSize e /\
            Forall2 sameXY (map fst (shaded d)) clipCorners /\
            Forall2 sameXY (map snd (shaded d)) textureCorners).
  { intros pass Hpass d.
    destruct (shaded_offscreenDraw e matrix pass Hw Hh Hpass) as [H1 H2].
    subst d. split; [|split; [|split; assumption]];
      unfold offscreenDraw; destruct (WebGLEngine.textureSize e);
      reflexivity. }
  eexists _, _, _. split; [exact Hd|]. split; [reflexivity|].
  split; [|split; [|split; [reflexivity | exact Hplan]]].
  - destruct (WebGLEngine.bloomEnabled e); [|reflexivity].
    rewrite length_app. cbn [length]. rewrite length_app, repeat_length.
    cbn [length]. lia.
  - apply Forall_app. split; [|constructor; [|constructor]].
    + destruct (WebGLEngine.bloomEnabled e); [|constructor].
      constructor; [apply Hoff; discriminate|].
      apply Forall_app. split.
      * apply Forall_forall. intros d Hin. apply repeat_spec in Hin.
        subst d. apply Hoff. discriminate.
      * constructor; [apply Hoff; discriminate | constructor].
    + apply Hoff. discriminate.
Qed.

Lemma postprocessing_covers_target_witness :
  exists first middle last,
    draws (draw [] 0 (translationMatrix 0 0) sampleEngine fresh)
      = first :: middle ++ [last] /\
    length middle = 67%nat /\
    Forall (fun d =>
              Forall2 sameXY (map fst (shaded d)) clipCorners /\
              Forall2 sameXY (map snd (shaded d)) textureCorners) middle.
Proof.
  assert (Hw : (0 < fst (WebGLEngine.textureSize sampleEngine))%Z)
    by (vm_compute; reflexivity).
  assert (Hh : (0 < snd (WebGLEngine.textureSize sampleEngine))%Z)
    by (vm_compute; reflexivity).
  destruct (postprocessing_covers_target [] 0 (translationMatrix 0 0)
              sampleEngine Hw Hh)
    as (first & middle & last & Hd & _ & Hlen & Hall & _).
  exists first, middle, last. split; [exact Hd|]. split; [exact Hlen|].
  apply Forall_impl with (2 := Hall). intros d (_ & _ & H1 & H2).
  split; assumption.
Defined.

Lemma ceiling_of_scaled (client : Z) (modifier : Q) :
  (0 <= client)%Z -> 1 <= modifier ->
  (client <= Qceiling (inject_Z client * modifier))%Z.
Proof.
  intros Hc Hm.
  assert (H : inject_Z client <= inject_Z client * modifier).
  { assert (0 <= inject_Z client)
      by (change 0 with (inject_Z 0); rewrite <- Zle_Qle; exact Hc).
    nra. }
  apply Qceiling_resp_le in H. rewrite Qceiling_Z in H. exact H.
Qed.

Lemma covers_iff (c w : Q) : 0 < w -> (w <= c <-> 1 <= 2 * c / w - 1).
Proof.
  intros Hw. assert (Hq : 2 * c / w * w == 2 * c) by (field; lra).
  set (q := 2 * c / w) in *. split; intros H; nra.
Qed.

(** X17: the last draw of a frame, onto the canvas, uses the rectangle of
    the texture size at the resolution of the canvas: its far corner lands at
    [2 * cWidth / clientWidth - 1] and [1 - 2 * cHeight / clientHeight] in
    clip space, and the texture coordinate of a vertex is its clip space
    position halved plus one half.  With a texture size modifier of at least
    1 the rectangle covers the canvas; where the texture is smaller than the
    canvas the rectangle ends inside it. *)
Theorem canvas_draw_coverage (triangleData : list Q) (count : nat)
    (matrix : Mat3) (e : WebGLEngine.t) :
  (0 < WebGLEngine.clientWidth e)%Z -> (0 < WebGLEngine.clientHeight e)%Z ->
  let cWidth := fst (WebGLEngine.textureSize e) in
  let cHeight := snd (WebGLEngine.textureSize e) in
  let X := 2 * inject_Z cWidth / inject_Z (WebGLEngine.clientWidth e) - 1 in
  let Y := 1 - 2 * inject_Z cHeight / inject_Z (WebGLEngine.clientHeight e) in
  (exists earlier,
     draws (draw triangleData count matrix e fresh)
     = earlier ++ [canvasDraw e matrix]) /\
  Forall2 sameXY (map fst (shaded (canvasDraw e matrix)))
    [(-1, 1); (X, 1); (X, Y); (-1, 1); (X, Y); (-1, Y)] /\
  Forall (fun v => sameXY (snd v)
                     (fst (fst v) * 0.5 + 0.5, snd (fst v) * 0.5 + 0.5))
         (shaded (canvasDraw e matrix)) /\
  (1 <= WebGLEngine.textureSizeModifier e -> 1 <= X /\ Y <= -1) /\
  ((cWidth < WebGLEngine.clientWidth e)%Z -> X < 1) /\
  ((cHeight < WebGLEngine.clientHeight e)%Z -> -1 < Y).
Proof.
  intros Hw Hh cWidth cHeight X Y.
  assert (HW : 0 < inject_Z (WebGLEngine.clientWidth e))
    by (change 0 with (inject_Z 0); rewrite <- Zlt_Qlt; exact Hw).
  assert (HH : 0 < inject_Z (WebGLEngine.clientHeight e))
    by (change 0 with (inject_Z 0); rewrite <- Zlt_Qlt; exact Hh).
  assert (HX : forall c : Z,
            (WebGLEngine.clientWidth e <= c)%Z <->
            1 <= 2 * inject_Z c / inject_Z (WebGLEngine.clientWidth e) - 1).
  { intros c. rewrite Zle_Qle. apply covers_iff. exact HW. }
  assert (HY : forall c : Z,
            (WebGLEngine.clientHeight e <= c)%Z <->
            1 - 2 * inject_Z c / inject_Z (WebGLEngine.clientHeight e) <= -1).
  { intros c. rewrite Zle_Qle.
    rewrite (covers_iff (inject_Z c) _ HH). split; intros; lra. }
  split; [|split; [|split; [|split; [|split]]]].
  - rewrite draw_draws. eexists (_ :: _). reflexivity.
  - subst X Y cWidth cHeight. unfold canvasDraw.
    destruct (WebGLEngine.textureSize e) as [w h]. cbn [fst snd].
    unfold shaded, VertexShader.main, rectangle, sameXY.
    cbn [d_pass d_resolution d_matrix d_buffer d_count vertices map fst snd
         VertexShader.gl_Position VertexShader.v_texcoord pass_eqb].
    repeat constructor; cbn [fst snd]; field; lra.
  - unfold canvasDraw. destruct (WebGLEngine.textureSize e) as [w h].
    unfold shaded, VertexShader.main, rectangle, sameXY.
    cbn [d_pass d_resolution d_matrix d_buffer d_count vertices map fst snd
         VertexShader.gl_Position VertexShader.v_texcoord pass_eqb].
    repeat constructor; cbn [fst snd]; reflexivity.
  - intros Hm. subst X Y cWidth cHeight. unfold WebGLEngine.textureSize.
    cbn [fst snd]. split; [apply HX | apply HY];
      apply ceiling_of_scaled; trivial; lia.
  - intros Hlt. destruct (Qlt_le_dec X 1) as [H|H]; [exact H|].
    apply HX in H. lia.
  - intros Hlt. destruct (Qlt_le_dec (-1) Y) as [H|H]; [exact H|].
    apply HY in H. lia.
Qed.

Lemma canvas_draw_coverage_witness :
  let e := WebGLEngine.setTextureSizeModifier (1 # 2) sampleEngine in
  WebGLEngine.textureSize e = (150, 75)%Z /\
  2 * inject_Z (fst (WebGLEngine.textureSize e))
    / inject_Z (WebGLEngine.clientWidth e) - 1 < 1 /\
  -1 < 1 - 2 * inject_Z (snd (WebGLEngine.textureSize e))
           / inject_Z (WebGLEngine.clientHeight e).
Proof.
  intros e. split; [vm_compute; reflexivity|].
  assert (Hw : (0 < WebGLEngine.clientWidth e)%Z) by (vm_compute; reflexivity).
  assert (Hh : (0 < WebGLEngine.clientHeight e)%Z) by (vm_compute; reflexivity).
  pose proof (canvas_draw_coverage [] 0 (translationMatrix 0 0) e Hw Hh) as H.
  cbv zeta in H. destruct H as (_ & _ & _ & _ & H1 & H2).
  split; [apply H1 | apply H2]; vm_compute; reflexivity.
Defined.
End Coverage.

(** ** The rays on the screen *)

Section RayTriangles.
Import GL MathUtil VertexStage.

Variables cos sin : Q -> Q.
Hypothesis circle : forall a, cos a * cos a + sin a * sin a == 1.

(** A frame changes no setting of the engine. *)
Lemma drawFrame_engine_settings (now : Q) (s : IrisIndicator.t) :
  let e := IrisIndicator.engine s in
  let e' := IrisIndicator.engine (IrisIndicator.drawFrame now s) in
  WebGLEngine.clientWidth e' = WebGLEngine.clientWidth e /\
  WebGLEngine.clientHeight e' = WebGLEngine.clientHeight e /\
  WebGLEngine.bloomEnabled e' = WebGLEngine.bloomEnabled e /\
  WebGLEngine.nBloomPasses e' = WebGLEngine.nBloomPasses e /\
  WebGLEngine.textureSizeModifier e' = WebGLEngine.textureSizeModifier e /\
  WebGLEngine.msaaEnabled e' = WebGLEngine.msaaEnabled e /\
  WebGLEngine.hdrFactor e' = WebGLEngine.hdrFactor e.
Proof.
  intros e e'. subst e e'.
  pose proof (drawFrame_engine now s) as H. cbv zeta in H.
  destruct H as (_ & e2 & -> & He2).
  pose proof (draw_keeps
                (3 * length (IrisIndicator.rays (IrisIndicator.drawFrame now s)))
                e2) as Hk.
  cbv zeta in Hk. destruct Hk as ((-> & -> & -> & -> & -> & -> & ->) & _).
  assert (H1 : let e1 := if IrisIndicator.resizeOnNextDraw s
                         then WebGLEngine.onResize (IrisIndicator.engine s)
                         else IrisIndicator.engine s in
               WebGLEngine.clientWidth e1
                 = WebGLEngine.clientWidth (IrisIndicator.engine s) /\
               WebGLEngine.clientHeight e1
                 = WebGLEngine.clientHeight (IrisIndicator.engine s) /\
               WebGLEngine.bloomEnabled e1
                 = WebGLEngine.bloomEnabled (IrisIndicator.engine s) /\
               WebGLEngine.nBloomPasses e1
                 = WebGLEngine.nBloomPasses (IrisIndicator.engine s) /\
               WebGLEngine.textureSizeModifier e1
                 = WebGLEngine.textureSizeModifier (IrisIndicator.engine s) /\
               WebGLEngine.msaaEnabled e1
                 = WebGLEngine.msaaEnabled (IrisIndicator.engine s) /\
               WebGLEngine.hdrFactor e1
                 = WebGLEngine.hdrFactor (IrisIndicator.engine s)).
  { cbv zeta. destruct (IrisIndicator.resizeOnNextDraw s); [|repeat split].
    destruct (onResize_settings (IrisIndicator.engine s))
      as (-> & -> & -> & -> & -> & -> & -> & _).
    repeat split. }
  cbv zeta in H1. destruct He2 as [-> | [-> _]]; [|exact H1].
  match goal with
  | |- context [WebGLEngine.setSegments ?segs ?e1] =>
      pose proof (setSegments_keeps segs e1) as Hs
  end.
  cbv zeta in Hs. destruct Hs as ((-> & -> & -> & -> & -> & -> & ->) & _).
  exact H1.
Qed.

Lemma drawFrame_textureSize (now : Q) (s : IrisIndicator.t) :
  WebGLEngine.textureSize (IrisIndicator.engine (IrisIndicator.drawFrame now s))
  = WebGLEngine.textureSize (IrisIndicator.engine s).
Proof.
  pose proof (drawFrame_engine_settings now s) as H. cbv zeta in H.
  destruct H as (Hw & Hh & _ & _ & Hm & _).
  unfold WebGLEngine.textureSize. rewrite Hw, Hh, Hm. reflexivity.
Qed.

(** The three vertices of a ray's triangle. *)
Lemma vertices_triangleData (rays : list IrisIndicator.Ray) :
  vertices (triangleData cos sin rays) (length rays * 3) =
  flat_map
    (fun ray =>
       vertices
         (coordsForRay cos sin
            (IrisIndicator.radians ray) (IrisIndicator.width ray)
            (IrisIndicator.inner (IrisIndicator.radius ray))
            (IrisIndicator.current (IrisIndicator.radius ray))) 3)
    rays.
Proof.
  induction rays as [|ray rays IH]; [reflexivity|].
  cbn [length Nat.mul Nat.add triangleData flat_map coordsForRay app vertices].
  f_equal. f_equal. f_equal. exact IH.
Qed.

(** The vertex shader puts a point of the circle of radius [R] about the
    origin at the distance [R] from the centre of the texture. *)
Lemma ray_vertex_distance (w h : Z) (angle rad R : Q) :
  (0 < w)%Z -> (0 < h)%Z ->
  let out :=
    VertexShader.main (inject_Z w, inject_Z h)
      (mat3mul (translationMatrix (inject_Z w / 2) (inject_Z h / 2))
               (rotationMatrix cos sin angle))
      FRAGMENT_PASS_NORMAL (cos rad * R, sin rad * R) in
  centreDistanceSq (w, h)
    (fst (fst (fst (VertexShader.gl_Position out))),
     snd (fst (fst (VertexShader.gl_Position out)))) == R * R.
Proof.
  intros Hw Hh.
  assert (HW : 0 < inject_Z w)
    by (change 0 with (inject_Z 0); rewrite <- Zlt_Qlt; exact Hw).
  assert (HH : 0 < inject_Z h)
    by (change 0 with (inject_Z 0); rewrite <- Zlt_Qlt; exact Hh).
  cbv zeta. unfold VertexShader.main, centreDistanceSq.
  rewrite frame_matrix_entries.
  cbn [pass_eqb VertexShader.mat3_mul_vec3 e0 e1 e2 e3 e4 e5 e6 e7 e8 fst snd
       VertexShader.gl_Position].
  set (c := cos angle). set (s := sin angle).
  set (x := cos rad * R). set (y := sin rad * R).
  assert (Hdx : ((c * 1 + - s * 0 + 0 * (inject_Z w / 2)) * x
                 + (s * 1 + c * 0 + 0 * (inject_Z w / 2)) * y
                 + (0 * 1 + 0 * 0 + 1 * (inject_Z w / 2)) * 1)
                / inject_Z w * 2.0 - 1.0
                == 2 * (c * x + s * y) / inject_Z w)
    by (field; lra).
  assert (Hdy : ((c * 0 + - s * 1 + 0 * (inject_Z h / 2)) * x
                 + (s * 0 + c * 1 + 0 * (inject_Z h / 2)) * y
                 + (0 * 0 + 0 * 1 + 1 * (inject_Z h / 2)) * 1)
                / inject_Z h * 2.0 - 1.0
                == 2 * (- s * x + c * y) / inject_Z h)
    by (field; lra).
  rewrite Hdx, Hdy.
  setoid_replace (2 * (c * x + s * y) / inject_Z w * 1 * inject_Z w / 2)
    with (c * x + s * y) by (field; lra).
  setoid_replace (2 * (- s * x + c * y) / inject_Z h * -1 * inject_Z h / 2)
    with (s * x - c * y) by (field; lra).
  setoid_replace ((c * x + s * y) * (c * x + s * y)
                  + (s * x - c * y) * (s * x - c * y))
    with ((c * c + s * s) * (x * x + y * y)) by ring.
  subst c s x y. rewrite circle.
  setoid_replace (cos rad * R * (cos rad * R) + sin rad * R * (sin rad * R))
    with ((cos rad * cos rad + sin rad * sin rad) * (R * R)) by ring.
  rewrite circle. ring.
Qed.

(** The clip space positions of the ray triangles, ray by ray. *)
Lemma shaded_rays (w h : Z) (matrix : Mat3) (angle : Q)
    (rays : list IrisIndicator.Ray) :
  (0 < w)%Z -> (0 < h)%Z ->
  matrix = mat3mul (translationMatrix (inject_Z w / 2) (inject_Z h / 2))
                   (rotationMatrix cos sin angle) ->
  let d := {| d_pass := FRAGMENT_PASS_NORMAL; d_resolution := (w, h);
              d_matrix := matrix; d_buffer := triangleData cos sin rays;
              d_count := 3 * length rays |} in
  exists tris : list ((Q * Q) * (Q * Q) * (Q * Q)),
    map fst (shaded d)
    = flat_map (fun t => [fst (fst t); snd (fst t); snd t]) tris /\
    Forall2
      (fun ray t =>
         let r := IrisIndicator.radius ray in
         centreDistanceSq (w, h) (fst (fst t))
         == IrisIndicator.inner r * IrisIndicator.inner r /\
         centreDistanceSq (w, h) (snd (fst t))
         == IrisIndicator.current r * IrisIndicator.current r /\
         centreDistanceSq (w, h) (snd t)
         == IrisIndicator.inner r * IrisIndicator.inner r)
      rays tris.
Proof.
  intros Hw Hh Hmatrix d. subst d matrix. unfold shaded.
  cbn [d_pass d_resolution d_matrix d_buffer d_count fst snd].
  rewrite Nat.mul_comm, vertices_triangleData, map_map.
  induction rays as [ | ray rays IH].
  - exists []. split; [reflexivity | constructor].
  - destruct IH as (tris & IHm & IHf).
    cbn [flat_map coordsForRay vertices app map].
    eexists ((_, _, _) :: tris). cbn [flat_map app fst snd]. split.
    + f_equal. f_equal. f_equal. exact IHm.
    + constructor; [|exact IHf]. cbv zeta. split; [|split].
      * exact (ray_vertex_distance w h angle _ _ Hw Hh).
      * exact (ray_vertex_distance w h angle _ _ Hw Hh).
      * exact (ray_vertex_distance w h angle _ _ Hw Hh).
Qed.
End RayTriangles.

Section RaysOnScreen.
Import GL MathUtil VertexStage.

(** X18: on the screen the rays are triangles about the centre of the
    texture: for cosine and sine on the unit circle and a texture of positive
    size, the first draw of a frame has three vertices per ray, and the
    vertex shader puts the two base corners of each ray at the distance of
    its inner radius from the centre of the texture and its tip at the
    distance of its current radius, whatever the rotation of the frame. *)
Theorem rays_on_circles (cos sin : Q -> Q) (now : Q) (s : IrisIndicator.t) :
  (forall a, cos a * cos a + sin a * sin a == 1) ->
  let size := WebGLEngine.textureSize (IrisIndicator.engine s) in
  (0 < fst size)%Z -> (0 < snd size)%Z ->
  let s' := IrisIndicator.drawFrame now s in
  exists first rest (tris : list ((Q * Q) * (Q * Q) * (Q * Q))),
    frameDraws cos sin now s = first :: rest /\
    d_pass first = FRAGMENT_PASS_NORMAL /\
    d_count first = (3 * length (IrisIndicator.rays s'))%nat /\
    map fst (shaded first)
    = flat_map (fun t => [fst (fst t); snd (fst t); snd t]) tris /\
    Forall2
      (fun ray t =>
         let r := IrisIndicator.radius ray in
         centreDistanceSq size (fst (fst t))
         == IrisIndicator.inner r * IrisIndicator.inner r /\
         centreDistanceSq size (snd (fst t))
         == IrisIndicator.current r * IrisIndicator.current r /\
         centreDistanceSq size (snd t)
         == IrisIndicator.inner r * IrisIndicator.inner r)
      (IrisIndicator.rays s') tris.
Proof.
  intros circle size Hw Hh s'.
  unfold frameDraws. fold s'. rewrite draw_draws.
  assert (Hsize : WebGLEngine.textureSize (IrisIndicator.engine s') = size)
    by apply drawFrame_textureSize.
  rewrite Hsize. destruct size as [w h] eqn:Esize. cbn [fst snd] in Hw, Hh.
  destruct (shaded_rays cos sin circle w h
              (frameMatrix cos sin now s') (moveByRadians now s')
              (IrisIndicator.rays s') Hw Hh) as (tris & Hm & Hf).
  { unfold frameMatrix. rewrite Hsize. reflexivity. }
  eexists _, _, tris. split; [reflexivity|].
  split; [reflexivity|]. split; [reflexivity|].
  split; [exact Hm | exact Hf].
Qed.

Lemma sample_circle (a : Q) :
  sampleCos a * sampleCos a + sampleSin a * sampleSin a == 1.
Proof.
  unfold sampleCos, sampleSin. field. nra.
Qed.

Lemma rays_on_circles_witness :
  let s' := IrisIndicator.drawFrame 1016 sampleIndicator in
  exists first rest (tris : list ((Q * Q) * (Q * Q) * (Q * Q))),
    frameDraws sampleCos sampleSin 1016 sampleIndicator = first :: rest /\
    d_count first = (3 * length (IrisIndicator.rays s'))%nat /\
    map fst (shaded first)
    = flat_map (fun t => [fst (fst t); snd (fst t); snd t]) tris /\
    Forall2
      (fun ray t =>
         let r := IrisIndicator.radius ray in
         centreDistanceSq
           (WebGLEngine.textureSize (IrisIndicator.engine sampleIndicator))
           (snd (fst t))
         == IrisIndicator.current r * IrisIndicator.current r)
      (IrisIndicator.rays s') tris.
Proof.
  intros s'.
  assert (Hw : (0 < fst (WebGLEngine.textureSize
                           (IrisIndicator.engine sampleIndicator)))%Z)
    by (vm_compute; reflexivity).
  assert (Hh : (0 < snd (WebGLEngine.textureSize
                           (IrisIndicator.engine sampleIndicator)))%Z)
    by (vm_compute; reflexivity).
  destruct (rays_on_circles sampleCos sampleSin 1016 sampleIndicator
              sample_circle Hw Hh)
    as (first & rest & tris & Hd & _ & Hc & Hm & Hf).
  exists first, rest, tris. split; [exact Hd|]. split; [exact Hc|].
  split; [exact Hm|].
  apply Forall2_impl with (2 := Hf). intros ray t (_ & H & _). exact H.
Defined.
End RaysOnScreen.

(** ** The rotation *)

Section Rotation.

Lemma Qfloor_unique (q : Q) (z : Z) :
  inject_Z z <= q -> q < inject_Z (z + 1) -> Qfloor q = z.
Proof.
  intros Hle Hlt.
  pose proof (Qfloor_le q) as H1. pose proof (Qlt_floor q) as H2.
  assert (Ha : inject_Z z < inject_Z (Qfloor q + 1)) by lra.
  assert (Hb : inject_Z (Qfloor q) < inject_Z (z + 1)) by lra.
  rewrite <- Zlt_Qlt in Ha, Hb. lia.
Qed.

(** The remainder of a non-negative number by a positive one. *)
Lemma remainder_bounds (a b : Q) :
  0 <= a -> 0 < b ->
  remainder a b == a - b * inject_Z (Qfloor (a / b)) /\
  0 <= remainder a b < b.
Proof.
  intros Ha Hb. unfold remainder, Qtruncate.
  assert (Hq : 0 <= a / b) by (apply Qle_shift_div_l; [exact Hb | lra]).
  assert (Hab : a / b * b == a) by (field; lra).
  destruct (Qle_bool 0 (a / b)) eqn:E.
  - split; [reflexivity|].
    pose proof (Qfloor_le (a / b)) as H1. pose proof (Qlt_floor (a / b)) as H2.
    rewrite inject_Z_plus in H2. change (inject_Z 1) with 1 in H2.
    set (q := a / b) in *. set (f := inject_Z (Qfloor q)) in *. split; nra.
  - exfalso. apply Qle_bool_iff in Hq. congruence.
Qed.

Lemma remainder_period (a b : Q) :
  0 <= a -> 0 < b -> remainder (a + b) b == remainder a b.
Proof.
  intros Ha Hb.
  destruct (remainder_bounds a b Ha Hb) as [-> _].
  destruct (remainder_bounds (a + b) b ltac:(lra) Hb) as [-> _].
  assert (Hf : Qfloor ((a + b) / b) = (Qfloor (a / b) + 1)%Z).
  { assert (E : (a + b) / b == a / b + 1) by (field; lra).
    rewrite E. apply Qfloor_unique.
    - rewrite inject_Z_plus. change (inject_Z 1) with 1.
      pose proof (Qfloor_le (a / b)). lra.
    - rewrite !inject_Z_plus. change (inject_Z 1) with 1.
      pose proof (Qlt_floor (a / b)) as H. rewrite inject_Z_plus in H.
      change (inject_Z 1) with 1 in H. lra. }
  rewrite Hf, inject_Z_plus. change (inject_Z 1) with 1. ring.
Qed.

Lemma PI_positive : 0 < JS.PI.
Proof. reflexivity. Qed.

(** X19: the rotation of a frame.  For a time that is not negative and a
    positive duration of a rotation, the angle of the frame is the fraction
    of the rotation that has passed, taken clockwise: it lies in
    (-2 pi, 0], is 0 at the start of each rotation, and is the same one
    duration later; so after [setRotationSpeed seconds] the picture repeats
    every [seconds * 1000] milliseconds. *)
Theorem rotation_period (now seconds : Q) (s : IrisIndicator.t) :
  0 <= now -> 0 < IrisIndicator.msPerRotation s -> 0 < seconds ->
  let period := IrisIndicator.msPerRotation s in
  let s' := IrisIndicator.setRotationSpeed seconds s in
  (- (2 * JS.PI) < moveByRadians now s <= 0) /\
  moveByRadians 0 s == 0 /\
  moveByRadians (now + period) s == moveByRadians now s /\
  moveByRadians (now + seconds * 1000) s' == moveByRadians now s'.
Proof.
  intros Hnow Hperiod Hseconds period s'. fold period in Hperiod.
  assert (Hstep : forall t p, 0 <= t -> 0 < p ->
            - (remainder (t + p) p / p) * (2 * JS.PI)
            == - (remainder t p / p) * (2 * JS.PI)).
  { intros t p Ht Hp. rewrite (remainder_period t p Ht Hp). reflexivity. }
  split; [|split; [|split]].
  - unfold moveByRadians. fold period. clearbody period.
    destruct (remainder_bounds now period Hnow Hperiod) as [_ [H0 H1]].
    set (r := remainder now period) in *.
    assert (Hq : 0 <= r / period < 1).
    { split; [apply Qle_shift_div_l | apply Qlt_shift_div_r]; lra. }
    pose proof PI_positive. set (q := r / period) in *. split; nra.
  - unfold moveByRadians. fold period. clearbody period.
    assert (E : remainder 0 period == 0).
    { destruct (remainder_bounds 0 period ltac:(lra) Hperiod) as [-> _].
      assert (Hz : 0 / period == 0) by (field; lra).
      rewrite Hz. change (Qfloor 0) with 0%Z. change (inject_Z 0) with 0.
      ring. }
    rewrite E. field. lra.
  - unfold moveByRadians. fold period. apply Hstep; assumption.
  - unfold moveByRadians. subst s'.
    cbn [IrisIndicator.setRotationSpeed IrisIndicator.with_durations
         IrisIndicator.msPerRotation].
    apply Hstep; [exact Hnow | lra].
Qed.

Lemma rotation_period_witness :
  let s := IrisIndicator.setRotationSpeed 60 sampleIndicator in
  moveByRadians 15000 s == - (JS.PI / 2) /\
  moveByRadians (15000 + 60 * 1000) s == moveByRadians 15000 s.
Proof.
  intros s. split; [vm_compute; reflexivity|].
  assert (H0 : 0 <= 15000) by lra.
  assert (H1 : 0 < IrisIndicator.msPerRotation sampleIndicator)
    by (vm_compute; reflexivity).
  assert (H2 : 0 < 60) by lra.
  pose proof (rotation_period 15000 60 sampleIndicator H0 H1 H2) as H.
  cbv zeta in H. destruct H as (_ & _ & _ & H). exact H.
Defined.
End Rotation.

(** ** The colors of the circle (fragment shader) *)

Section SegmentLoop.
Import FragmentShader.

Lemma MAX_RADIANS_pos : 0 < MAX_RADIANS.
Proof. reflexivity. Qed.

Lemma fold_returned (u : Vec4 Segment) (rad T : Q) (l : list nat) :
  forall start prev c,
    fold_left (segmentStep u rad T) l (start, prev, Some c)
    = (start, prev, Some c).
Proof. induction l as [ | i l IH]; intros; [reflexivity | apply IH]. Qed.

Variable u : Vec4 Segment.
Variables rad T : Q.
Hypothesis T_nonneg : 0 <= T.

(** A segment without a share is skipped. *)
Lemma segmentStep_skip (start : Q) (prev : RGBA) (i : nat) :
  ratio (vnth u i) == 0 ->
  segmentStep u rad T (start, prev, None) i = (start, prev, None).
Proof.
  intros H. unfold segmentStep.
  assert (E : Qeq_bool (ratio (vnth u i)) 0.0 = true)
    by (apply Qeq_bool_iff; rewrite H; reflexivity).
  rewrite E. reflexivity.
Qed.

(** A segment that ends before the pixel hands on its end and its
    color. *)
Lemma segmentStep_pass (start : Q) (prev : RGBA) (i : nat) :
  ~ ratio (vnth u i) == 0 ->
  start + T < rad -> start + ratio (vnth u i) * MAX_RADIANS < rad ->
  segmentStep u rad T (start, prev, None) i
  = (start + ratio (vnth u i) * MAX_RADIANS, color (vnth u i), None).
Proof.
  intros Hr H1 H2. unfold segmentStep.
  assert (E : Qeq_bool (ratio (vnth u i)) 0.0 = false)
    by (apply Qeq_bool_false; intros E; apply Hr; rewrite E; reflexivity).
  rewrite E. set (x := ratio (vnth u i) * MAX_RADIANS) in *.
  assert (B1 : Qle_bool rad (start + T) = false).
  { apply not_true_iff_false. rewrite Qle_bool_iff. lra. }
  assert (B2 : Qle_bool rad (start + x - T) = false).
  { apply not_true_iff_false. rewrite Qle_bool_iff. lra. }
  assert (B3 : Qle_bool rad (start + x) = false).
  { apply not_true_iff_false. rewrite Qle_bool_iff. lra. }
  cbv zeta. rewrite B1, B2, B3, !andb_false_r. reflexivity.
Qed.

(** The solid area of a segment. *)
Lemma segmentStep_solid (start : Q) (prev : RGBA) (i : nat) :
  ~ ratio (vnth u i) == 0 ->
  start + T < rad -> rad <= start + ratio (vnth u i) * MAX_RADIANS - T ->
  segmentStep u rad T (start, prev, None) i
  = (start, prev, Some (color (vnth u i))).
Proof.
  intros Hr H1 H2. unfold segmentStep.
  assert (E : Qeq_bool (ratio (vnth u i)) 0.0 = false)
    by (apply Qeq_bool_false; intros E; apply Hr; rewrite E; reflexivity).
  rewrite E. set (x := ratio (vnth u i) * MAX_RADIANS) in *.
  assert (B1 : Qle_bool rad (start + T) = false).
  { apply not_true_iff_false. rewrite Qle_bool_iff. lra. }
  assert (B2 : JS.Qltb (start + T) rad = true) by (apply Qltb_true; lra).
  assert (B3 : Qle_bool rad (start + x - T) = true)
    by (apply Qle_bool_iff; lra).
  cbv zeta. rewrite B1, B2, B3, !andb_false_r. reflexivity.
Qed.

(** The blend area at the start of a segment. *)
Lemma segmentStep_start_band (start : Q) (prev : RGBA) (i : nat) :
  ~ ratio (vnth u i) == 0 ->
  start <= rad -> rad <= start + T ->
  segmentStep u rad T (start, prev, None) i
  = (start, prev,
     Some (mix prev (color (vnth u i))
             ((rad - (start - T) + 1.0) / (start + T - (start - T) + 1.0)))).
Proof.
  intros Hr H1 H2. unfold segmentStep.
  assert (E : Qeq_bool (ratio (vnth u i)) 0.0 = false)
    by (apply Qeq_bool_false; intros E; apply Hr; rewrite E; reflexivity).
  rewrite E.
  assert (B1 : Qle_bool start rad = true) by (apply Qle_bool_iff; lra).
  assert (B2 : Qle_bool rad (start + T) = true) by (apply Qle_bool_iff; lra).
  cbv zeta. rewrite B1, B2. reflexivity.
Qed.

(** The blend area at the end of a segment. *)
Lemma segmentStep_end_band (start : Q) (prev : RGBA) (i : nat) :
  ~ ratio (vnth u i) == 0 ->
  start + T < rad ->
  start + ratio (vnth u i) * MAX_RADIANS - T < rad ->
  rad <= start + ratio (vnth u i) * MAX_RADIANS ->
  segmentStep u rad T (start, prev, None) i
  = (start, prev,
     Some (mix (color (vnth u i)) (findNextColor u i)
             ((rad - (start + ratio (vnth u i) * MAX_RADIANS - T))
              / (start + ratio (vnth u i) * MAX_RADIANS + T
                 - (start + ratio (vnth u i) * MAX_RADIANS - T))))).
Proof.
  intros Hr H1 H2 H3. unfold segmentStep.
  assert (E : Qeq_bool (ratio (vnth u i)) 0.0 = false)
    by (apply Qeq_bool_false; intros E; apply Hr; rewrite E; reflexivity).
  rewrite E. set (x := ratio (vnth u i) * MAX_RADIANS) in *.
  assert (B1 : Qle_bool rad (start + T) = false).
  { apply not_true_iff_false. rewrite Qle_bool_iff. lra. }
  assert (B2 : Qle_bool rad (start + x - T) = false).
  { apply not_true_iff_false. rewrite Qle_bool_iff. lra. }
  assert (B3 : JS.Qltb (start + x - T) rad = true) by (apply Qltb_true; lra).
  assert (B4 : Qle_bool rad (start + x) = true) by (apply Qle_bool_iff; lra).
  cbv zeta. rewrite B1, B2, B3, B4, !andb_false_r. reflexivity.
Qed.

Hypothesis ratios_nonneg : forall k, 0 <= ratio (vnth u k).

Lemma segmentStartOf_S (k : nat) :
  segmentStartOf u (S k)
  = segmentStartOf u k + ratio (vnth u k) * MAX_RADIANS.
Proof.
  unfold segmentStartOf. rewrite seq_S, fold_left_app. reflexivity.
Qed.

Lemma segmentStartOf_mono (k i : nat) :
  (k <= i)%nat -> segmentStartOf u k <= segmentStartOf u i.
Proof.
  induction 1 as [ | i Hle IH]; [lra|].
  rewrite segmentStartOf_S. pose proof (ratios_nonneg i) as H.
  pose proof MAX_RADIANS_pos as HM.
  assert (0 <= ratio (vnth u i) * MAX_RADIANS)
    by (apply Qmult_le_0_compat; lra).
  lra.
Qed.

Lemma segmentStartOf_nonneg (k : nat) : 0 <= segmentStartOf u k.
Proof.
  apply Qle_trans with (segmentStartOf u 0); [cbn; lra|].
  apply segmentStartOf_mono. lia.
Qed.

(** The loop before it reaches the segment of the pixel: every segment
    before is skipped or passed. *)
Lemma run_prefix (i : nat) :
  (forall k, (k < i)%nat -> ~ ratio (vnth u k) == 0 ->
     segmentStartOf u k + T < rad /\ segmentStartOf u (S k) < rad) ->
  forall k, (k <= i)%nat ->
    exists start prev,
      fold_left (segmentStep u rad T) (seq 0 k)
        (0.0, presetPrevColor u, None) = (start, prev, None) /\
      start == segmentStartOf u k /\
      (forall j, k = S j -> ~ ratio (vnth u j) == 0 ->
                 prev = color (vnth u j)) /\
      ((forall j, (j < k)%nat -> ratio (vnth u j) == 0) ->
       prev = presetPrevColor u).
Proof.
  intros Hpass. induction k as [ | k IH]; intros Hk.
  - exists 0.0, (presetPrevColor u). split; [reflexivity|].
    split; [reflexivity|]. split; [intros j Hj; discriminate | reflexivity].
  - destruct (IH ltac:(lia)) as (start & prev & Hrun & Hstart & _ & Hall).
    rewrite seq_S, fold_left_app, Hrun. cbn [fold_left Nat.add].
    destruct (Qeq_dec (ratio (vnth u k)) 0) as [Hz | Hnz].
    + rewrite segmentStep_skip by exact Hz.
      exists start, prev. split; [reflexivity|].
      split; [rewrite segmentStartOf_S, Hstart, Hz; ring|].
      split.
      * intros j Hj Hnz. injection Hj as <-. contradiction.
      * intros Hzero. apply Hall. intros j Hj. apply Hzero. lia.
    + destruct (Hpass k ltac:(lia) Hnz) as [H1 H2].
      rewrite segmentStartOf_S in H2 |- *.
      rewrite segmentStep_pass; [|exact Hnz|lra|lra].
      eexists _, _. split; [reflexivity|].
      split; [rewrite Hstart; reflexivity|].
      split.
      * intros j Hj _. injection Hj as <-. reflexivity.
      * intros Hzero. elim Hnz. apply Hzero. lia.
Qed.

(** The loop up to the segment of the pixel, which decides the color: the
    state before the segment, and the rest of the loop set aside. *)
Lemma run_to (i : nat) :
  (i < 4)%nat ->
  (forall k, (k < i)%nat -> ~ ratio (vnth u k) == 0 ->
     segmentStartOf u k + T < rad /\ segmentStartOf u (S k) < rad) ->
  exists start prev,
    start == segmentStartOf u i /\
    (forall j, i = S j -> ~ ratio (vnth u j) == 0 ->
               prev = color (vnth u j)) /\
    ((forall j, (j < i)%nat -> ratio (vnth u j) == 0) ->
     prev = presetPrevColor u) /\
    forall c,
      segmentStep u rad T (start, prev, None) i = (start, prev, Some c) ->
      compute_color_at u rad T = c.
Proof.
  intros Hi Hpass.
  destruct (run_prefix i Hpass i (le_n i))
    as (start & prev & Hrun & Hstart & Hprev & Hall).
  exists start, prev. split; [exact Hstart|]. split; [exact Hprev|].
  split; [exact Hall|]. intros c Hstep. unfold compute_color_at.
  replace 4%nat with (i + S (3 - i))%nat by lia.
  rewrite seq_app, fold_left_app, Hrun. cbn [seq fold_left Nat.add].
  rewrite Hstep, fold_returned. reflexivity.
Qed.

(** Segments that all end before the pixel leave it the inactive
    color. *)
Lemma run_past :
  (forall k, (k < 4)%nat -> ~ ratio (vnth u k) == 0 ->
     segmentStartOf u k + T < rad /\ segmentStartOf u (S k) < rad) ->
  compute_color_at u rad T = INACTIVE_COLOR.
Proof.
  intros Hpass.
  destruct (run_prefix 4 Hpass 4 (le_n 4)) as (start & prev & Hrun & _).
  unfold compute_color_at. rewrite Hrun. reflexivity.
Qed.
End SegmentLoop.

Section Circle.
Import FragmentShader.

Lemma threshold_nonneg (blend : Q) : 0 <= blend -> 0 <= MAX_RADIANS * blend.
Proof.
  intros H. apply Qmult_le_0_compat; [|exact H].
  pose proof MAX_RADIANS_pos. lra.
Qed.

Lemma share_positive (r : Q) : 0 < r -> 0 < r * MAX_RADIANS.
Proof. intros H. pose proof MAX_RADIANS_pos. nra. Qed.

(** X20: the solid area of a segment.  For ratios that are not negative and
    a pixel whose angle lies more than the blend threshold after the start
    of a segment with a share and at least the threshold before its end, the
    color is the color of that segment, whatever the other segments are. *)
Theorem solid_area_color (u : Vec4 Segment) (blend rad : Q) (i : nat) :
  (forall k, 0 <= ratio (vnth u k)) -> 0 <= blend ->
  (i < 4)%nat -> 0 < ratio (vnth u i) ->
  let T := MAX_RADIANS * blend in
  let segmentStart := segmentStartOf u i in
  let segmentEnd := segmentStart + ratio (vnth u i) * MAX_RADIANS in
  segmentStart + T < rad -> rad <= segmentEnd - T ->
  compute_color u blend rad = color (vnth u i).
Proof.
  intros Hr Hb Hi Hpos T segmentStart segmentEnd H1 H2.
  pose proof (threshold_nonneg blend Hb) as HT. fold T in HT.
  assert (Hnz : ~ ratio (vnth u i) == 0) by lra.
  destruct (run_to u rad T HT i Hi) as (start & prev & Hstart & _ & _ & Hc).
  - intros k Hk _.
    pose proof (segmentStartOf_mono u Hr k i ltac:(lia)) as M1.
    pose proof (segmentStartOf_mono u Hr (S k) i ltac:(lia)) as M2.
    subst segmentEnd segmentStart. split; lra.
  - unfold compute_color. fold T. apply Hc.
    subst segmentEnd segmentStart.
    apply segmentStep_solid; [exact Hnz | |];
      rewrite Hstart; [exact H1 | exact H2].
Qed.

Lemma solid_area_color_witness :
  compute_color sampleSegments 0.1 3 = (2, 5, 10, 1).
Proof.
  apply (solid_area_color sampleSegments 0.1 3 2).
  - intros k. destruct k as [ | [ | [ | [ | k]]]]; vm_compute; discriminate.
  - vm_compute. discriminate.
  - lia.
  - vm_compute. reflexivity.
  - vm_compute. reflexivity.
  - vm_compute. discriminate.
Defined.

(** X21: where no segment reaches.  Without a segment that has a share
    every pixel has the inactive color, and so has every pixel more than the
    blend threshold past the end of the last segment, which is where the
    ratios add up to less than 1. *)
Theorem beyond_segments_inactive (u : Vec4 Segment) (blend rad : Q) :
  (forall k, 0 <= ratio (vnth u k)) -> 0 <= blend ->
  ((forall k, (k < 4)%nat -> ratio (vnth u k) == 0) \/
   segmentStartOf u 4 + MAX_RADIANS * blend < rad) ->
  compute_color u blend rad = INACTIVE_COLOR.
Proof.
  intros Hr Hb Hcase.
  pose proof (threshold_nonneg blend Hb) as HT.
  unfold compute_color. apply run_past; [exact HT|].
  intros k Hk Hnz. destruct Hcase as [Hzero | Hrad].
  - elim Hnz. apply Hzero. exact Hk.
  - pose proof (segmentStartOf_mono u Hr k 4 ltac:(lia)).
    pose proof (segmentStartOf_mono u Hr (S k) 4 ltac:(lia)).
    split; lra.
Qed.

Lemma beyond_segments_inactive_witness :
  compute_color sampleThreeQuarters 0.1 6 = INACTIVE_COLOR.
Proof.
  apply (beyond_segments_inactive sampleThreeQuarters 0.1 6).
  - intros k. destruct k as [ | [ | [ | [ | k]]]]; vm_compute; discriminate.
  - vm_compute. discriminate.
  - right. vm_compute. reflexivity.
Defined.
End Circle.

Section Seams.
Import FragmentShader.

Lemma findNextColor_neighbour (u : Vec4 Segment) (i : nat) :
  (i < 3)%nat -> 0 < ratio (vnth u (S i)) ->
  findNextColor u i = color (vnth u (S i)).
Proof.
  intros Hi Hpos. apply Qltb_true in Hpos.
  destruct i as [ | [ | [ | i]]]; [| | |lia];
    unfold findNextColor; cbn [Nat.eqb Nat.sub Nat.add seq fold_left];
    rewrite Hpos; reflexivity.
Qed.

Lemma half_weight (T : Q) : 0 < T -> 1 # 2 < (T + 1) / (2 * T + 1).
Proof.
  intros HT. apply Qlt_shift_div_l; lra.
Qed.

(** X22: the seam between two neighbouring segments that both have a
    share.  Within the blend threshold before the seam the color is a mix of
    the two colors in which the weight of the next color rises to one half
    at the seam; within the threshold after the seam it is a mix of the same
    two colors in which that weight starts above [(T + 1) / (2 T + 1)], which
    is more than one half, and rises to 1: because of the 1 that is added to
    avoid a division by zero, the weight jumps at the seam. *)
Theorem seam_between_neighbours (u : Vec4 Segment) (blend rad : Q) (i : nat) :
  (forall k, 0 <= ratio (vnth u k)) -> 0 < blend -> (i < 3)%nat ->
  (forall k, (k <= i)%nat ->
     ratio (vnth u k) == 0 \/ 2 * blend <= ratio (vnth u k)) ->
  0 < ratio (vnth u i) -> 0 < ratio (vnth u (S i)) ->
  let T := MAX_RADIANS * blend in
  let seam := segmentStartOf u (S i) in
  let before := color (vnth u i) in
  let after := color (vnth u (S i)) in
  (seam - T < rad -> rad <= seam ->
   exists w, compute_color u blend rad = mix before after w /\
             w == (rad - seam + T) / (2 * T) /\ 0 < w <= 1 # 2) /\
  (seam < rad -> rad <= seam + T ->
   exists w, compute_color u blend rad = mix before after w /\
             w == (rad - seam + T + 1) / (2 * T + 1) /\
             (T + 1) / (2 * T + 1) < w <= 1) /\
  1 # 2 < (T + 1) / (2 * T + 1).
Proof.
  intros Hr Hb Hi Hfit Hpos Hnext T seam before after.
  pose proof MAX_RADIANS_pos as HM.
  assert (HT : 0 < T) by (subst T; nra).
  assert (HT0 : 0 <= T) by lra.
  assert (Hwide : forall k, (k <= i)%nat -> ~ ratio (vnth u k) == 0 ->
            2 * T <= ratio (vnth u k) * MAX_RADIANS).
  { intros k Hk Hnz. destruct (Hfit k Hk) as [Hz | Hw]; [contradiction|].
    subst T. nra. }
  assert (Hseam : seam == segmentStartOf u i + ratio (vnth u i) * MAX_RADIANS)
    by (subst seam; rewrite segmentStartOf_S; reflexivity).
  assert (HS : forall k, segmentStartOf u (S k)
                         == segmentStartOf u k + ratio (vnth u k) * MAX_RADIANS)
    by (intros k; rewrite segmentStartOf_S; reflexivity).
  assert (Hnz : ~ ratio (vnth u i) == 0) by lra.
  assert (Hnz' : ~ ratio (vnth u (S i)) == 0) by lra.
  pose proof (Hwide i (le_n i) Hnz) as Hwi.
  split; [|split; [|apply half_weight; exact HT]].
  - intros H1 H2.
    destruct (run_to u rad T HT0 i ltac:(lia))
      as (start & prev & Hstart & _ & _ & Hc).
    { intros k Hk Hknz.
      pose proof (Hwide k ltac:(lia) Hknz) as Hwk.
      pose proof (segmentStartOf_mono u Hr (S k) i ltac:(lia)) as Hm.
      pose proof (HS k) as Ek. split; lra. }
    eexists. split; [|split].
    + unfold compute_color. fold T. apply Hc.
      rewrite segmentStep_end_band;
        [rewrite (findNextColor_neighbour u i Hi Hnext); reflexivity
        | exact Hnz | rewrite Hstart; lra
        | rewrite Hstart; lra | rewrite Hstart; lra].
    + rewrite Hstart, Hseam. field. lra.
    + rewrite Hstart. split.
      * apply Qlt_shift_div_l; lra.
      * apply Qle_shift_div_r; lra.
  - intros H1 H2.
    destruct (run_to u rad T HT0 (S i) ltac:(lia))
      as (start & prev & Hstart & Hprev & _ & Hc).
    { intros k Hk Hknz.
      pose proof (Hwide k ltac:(lia) Hknz) as Hwk.
      pose proof (segmentStartOf_mono u Hr (S k) (S i) ltac:(lia)) as Hm.
      fold seam in Hm. pose proof (HS k) as Ek. split; lra. }
    fold seam in Hstart. rewrite (Hprev i eq_refl Hnz) in Hc.
    eexists. split; [|split].
    + unfold compute_color. fold T. apply Hc.
      apply segmentStep_start_band; [exact Hnz' | |]; rewrite Hstart; lra.
    + rewrite Hstart. field. lra.
    + rewrite Hstart. split.
      * apply Qlt_shift_div_l; [lra|].
        setoid_replace ((T + 1) / (2 * T + 1)
                        * (seam + T - (seam - T) + 1.0))
          with (T + 1) by (field; lra).
        lra.
      * apply Qle_shift_div_r; lra.
Qed.

Lemma seam_between_neighbours_witness :
  let seam := segmentStartOf sampleSegments 3 in
  exists w,
    compute_color sampleSegments 0.1 (seam + 0.5)
    = mix (2, 5, 10, 1) (10, 3, 10, 1) w /\
    1 # 2 < w.
Proof.
  intros seam.
  assert (Hr : forall k, 0 <= ratio (vnth sampleSegments k)).
  { intros k. destruct k as [ | [ | [ | [ | k]]]]; vm_compute; discriminate. }
  assert (Hb : 0 < 0.1) by reflexivity.
  assert (Hi : (2 < 3)%nat) by lia.
  assert (Hfit : forall k, (k <= 2)%nat ->
            ratio (vnth sampleSegments k) == 0 \/
            2 * 0.1 <= ratio (vnth sampleSegments k)).
  { intros k Hk. destruct k as [ | [ | [ | k]]]; [right|left|right|lia];
      vm_compute; try reflexivity; discriminate. }
  assert (H2 : 0 < ratio (vnth sampleSegments 2)) by reflexivity.
  assert (H3 : 0 < ratio (vnth sampleSegments 3)) by reflexivity.
  pose proof (seam_between_neighbours sampleSegments 0.1 (seam + 0.5) 2
                Hr Hb Hi Hfit H2 H3) as H.
  cbv zeta in H. destruct H as (_ & H & Hhalf).
  destruct H as (w & Hw & _ & Hlo & _).
  - fold seam. lra.
  - fold seam. apply Qplus_le_r. vm_compute. discriminate.
  - exists w. split; [exact Hw|]. lra.
Defined.
End Seams.

Section Lone.
Import FragmentShader.

(** With one segment only that has a share, the color before it is its
    own; the color after it is its own too unless it is the last segment,
    which the search for the next color never looks at again. *)
Lemma lone_colors (u : Vec4 Segment) (i : nat) :
  (i < 4)%nat -> 0 < ratio (vnth u i) ->
  (forall k, (k < 4)%nat -> k <> i -> ratio (vnth u k) == 0) ->
  presetPrevColor u = color (vnth u i) /\
  findNextColor u i
  = (if (i =? 3)%nat then INACTIVE_COLOR else color (vnth u i)).
Proof.
  intros Hi Hpos Hzero.
  assert (B : forall k, (k < 4)%nat ->
            JS.Qltb 0 (ratio (vnth u k)) = (k =? i)%nat).
  { intros k Hk. destruct (Nat.eqb_spec k i) as [-> | Hne].
    - apply Qltb_true. exact Hpos.
    - apply Qltb_false. rewrite (Hzero k Hk Hne). lra. }
  pose proof (B 0%nat ltac:(lia)) as B0. pose proof (B 1%nat ltac:(lia)) as B1.
  pose proof (B 2%nat ltac:(lia)) as B2. pose proof (B 3%nat ltac:(lia)) as B3.
  unfold presetPrevColor, findNextColor.
  destruct i as [ | [ | [ | [ | i]]]]; [| | | |lia];
    cbn [Nat.eqb] in B0, B1, B2, B3;
    cbn [Nat.eqb Nat.sub Nat.add Nat.leb seq fold_left];
    rewrite ?B0, ?B1, ?B2, ?B3;
    cbn [Nat.eqb Nat.sub Nat.add Nat.leb seq fold_left fst];
    rewrite ?B0, ?B1, ?B2, ?B3;
    cbn [Nat.eqb Nat.sub Nat.add Nat.leb seq fold_left fst];
    rewrite ?B0, ?B1, ?B2, ?B3;
    cbn [Nat.eqb Nat.sub Nat.add Nat.leb seq fold_left fst];
    rewrite ?B0, ?B1, ?B2, ?B3;
    split; reflexivity.
Qed.

Lemma segmentStartOf_zero (u : Vec4 Segment) (i : nat) :
  (forall k, (k < i)%nat -> ratio (vnth u k) == 0) ->
  segmentStartOf u i == 0.
Proof.
  induction i as [ | i IH]; intros Hzero; [reflexivity|].
  rewrite segmentStartOf_S.
  assert (E1 : segmentStartOf u i == 0) by (apply IH; intros; apply Hzero; lia).
  assert (E2 : ratio (vnth u i) == 0) by (apply Hzero; lia).
  rewrite E1, E2. ring.
Qed.

Lemma mix_same (c : RGBA) (w : Q) : sameColor (mix c c w) c.
Proof.
  destruct c as [[[c0 c1] c2] c3]. cbn. repeat split; ring.
Qed.

Lemma sameColor_refl (c : RGBA) : sameColor c c.
Proof. destruct c as [[[c0 c1] c2] c3]. cbn. repeat split; reflexivity. Qed.

(** X23: a circle of one segment.  When one segment only has a share, at
    least twice the blend ratio, the pixels of its arc have its color
    throughout if it is one of the first three segments.  If it is the
    fourth, the search for the next color never comes back to it, and the
    blend area at its end is mixed with the inactive color instead, by up to
    one half. *)
Theorem lone_segment_color (u : Vec4 Segment) (blend rad : Q) (i : nat) :
  0 < blend -> (i < 4)%nat ->
  (forall k, (k < 4)%nat -> k <> i -> ratio (vnth u k) == 0) ->
  2 * blend <= ratio (vnth u i) ->
  let T := MAX_RADIANS * blend in
  let segmentEnd := ratio (vnth u i) * MAX_RADIANS in
  0 <= rad -> rad <= segmentEnd ->
  ((i < 3)%nat \/ rad <= segmentEnd - T ->
   sameColor (compute_color u blend rad) (color (vnth u i))) /\
  (i = 3%nat -> segmentEnd - T < rad ->
   exists w,
     compute_color u blend rad = mix (color (vnth u i)) INACTIVE_COLOR w /\
     w == (rad - segmentEnd + T) / (2 * T) /\ 0 < w <= 1 # 2).
Proof.
  intros Hb Hi Hzero Hwide T segmentEnd H0 H1.
  pose proof MAX_RADIANS_pos as HM.
  assert (HT : 0 < T) by (subst T; nra).
  assert (HT0 : 0 <= T) by lra.
  assert (Hpos : 0 < ratio (vnth u i)) by lra.
  assert (Hnz : ~ ratio (vnth u i) == 0) by lra.
  assert (Hx : 2 * T <= segmentEnd) by (subst T segmentEnd; nra).
  destruct (lone_colors u i Hi Hpos Hzero) as [Hprev Hnext].
  destruct (run_to u rad T HT0 i Hi) as (start & prev & Hstart & _ & Hall & Hc).
  { intros k Hk Hknz. elim Hknz. apply Hzero; lia. }
  rewrite segmentStartOf_zero in Hstart by (intros; apply Hzero; lia).
  rewrite Hall, Hprev in Hc by (intros; apply Hzero; lia).
  fold segmentEnd in Hc.
  assert (Hend : segmentEnd - T < rad -> 
            compute_color u blend rad
            = mix (color (vnth u i)) (findNextColor u i)
                ((rad - (start + segmentEnd - T))
                 / (start + segmentEnd + T - (start + segmentEnd - T)))).
  { intros H2. unfold compute_color. fold T. apply Hc.
    apply segmentStep_end_band; [exact Hnz | | |];
      fold segmentEnd; rewrite Hstart; lra. }
  split.
  - intros Hcase.
    destruct (Qlt_le_dec T rad) as [Hafter | Hband].
    + destruct (Qlt_le_dec (segmentEnd - T) rad) as [Hlast | Hsolid].
      * destruct Hcase as [Hlt | Hle]; [|lra].
        rewrite (Hend Hlast), Hnext.
        replace (i =? 3)%nat with false
          by (symmetry; apply Nat.eqb_neq; lia).
        apply mix_same.
      * unfold compute_color. fold T.
        rewrite (Hc (color (vnth u i))); [apply sameColor_refl|].
        apply segmentStep_solid; [exact Hnz | |];
          fold segmentEnd; rewrite Hstart; lra.
    + unfold compute_color. fold T.
      erewrite Hc;
        [|apply segmentStep_start_band; [exact Hnz | |]; rewrite Hstart; lra].
      apply mix_same.
  - intros -> Hlast. eexists. split; [|split].
    + rewrite (Hend Hlast), Hnext. reflexivity.
    + rewrite Hstart. field. lra.
    + rewrite Hstart. split.
      * apply Qlt_shift_div_l; lra.
      * apply Qle_shift_div_r; lra.
Qed.
End Lone.

Section LoneWitness.
Import FragmentShader.

Lemma lone_segment_color_witness :
  exists w,
    compute_color sampleLone 0.1 6 = mix (10, 3, 10, 1) INACTIVE_COLOR w /\
    0 < w <= 1 # 2.
Proof.
  assert (Hb : 0 < 0.1) by reflexivity.
  assert (Hi : (3 < 4)%nat) by lia.
  assert (Hzero : forall k, (k < 4)%nat -> k <> 3%nat ->
                            ratio (vnth sampleLone k) == 0).
  { intros k Hk Hne. destruct k as [ | [ | [ | k]]]; [reflexivity..|lia]. }
  assert (Hwide : 2 * 0.1 <= ratio (vnth sampleLone 3))
    by (vm_compute; discriminate).
  assert (H0 : 0 <= 6) by lra.
  assert (H1 : 6 <= ratio (vnth sampleLone 3) * MAX_RADIANS)
    by (vm_compute; discriminate).
  pose proof (lone_segment_color sampleLone 0.1 6 3 Hb Hi Hzero Hwide H0 H1)
    as H.
  cbv zeta in H. destruct H as [_ H].
  destruct (H eq_refl) as (w & Hw & _ & Hbounds).
  - vm_compute. reflexivity.
  - exists w. split; [exact Hw | exact Hbounds].
Defined.
End LoneWitness.

(** ** Bloom (fragment shader) *)

Section BloomShader.
Import FragmentShader.






Lemma luminance_bounds (c : RGBA) :
  within 0 1 c -> 0 <= luminance (rgb c) <= 1.
Proof.
  destruct c as [[[r g] b] a]. cbn. intros (? & ? & ? & ?). split; lra.
Qed.

(** X25: what the brightness pass lets through.  A color whose components
    lie between 0 and 1 has a luminance of at most 1 and comes out black, and
    so does the inactive color, whose luminance is exactly 1: only colors
    brighter than that can bloom.  Each built-in color of the indicator,
    uploaded with an HDR factor of at least 3, is let through unchanged. *)
Theorem brightness_threshold (c : RGBA) (hdrFactor : Q) :
  3 <= hdrFactor ->
  (within 0 1 c -> brightness c = (0.0, 0.0, 0.0, 0.0)) /\
  brightness INACTIVE_COLOR = (0.0, 0.0, 0.0, 0.0) /\
  Forall (fun b => brightness (boosted hdrFactor b) = boosted hdrFactor b)
         colormap.
Proof.
  intros Hh. split; [|split].
  - intros Hc. unfold brightness.
    destruct (luminance_bounds c Hc) as [_ Hl].
    assert (B : JS.Qltb 1.0 (luminance (rgb c)) = false)
      by (apply Qltb_false; lra).
    rewrite B. reflexivity.
  - reflexivity.
  - unfold colormap. repeat constructor; unfold brightness;
      match goal with
      | |- (if JS.Qltb ?a ?l then _ else _) = _ =>
          assert (B : JS.Qltb a l = true)
            by (apply Qltb_true; cbn; lra);
          rewrite B; reflexivity
      end.
Qed.

Lemma brightness_threshold_witness :
  brightness (1 # 2, 1, 1, 1) = (0.0, 0.0, 0.0, 0.0) /\
  Forall (fun b => brightness (boosted 10 b) = boosted 10 b) colormap.
Proof.
  assert (Hh : 3 <= 10) by lra.
  destruct (brightness_threshold (1 # 2, 1, 1, 1) 10 Hh) as (H1 & _ & H2).
  split; [apply H1; cbn; repeat split; lra | exact H2].
Defined.
End BloomShader.

(** ** The demo page *)

Section Demo.
Import Index.

(** X26: the rendering resolution that the page starts with is one of 1, 2,
    4, 8 and 16: the largest of them that is at most the rounded-up device
    pixel ratio, and 1 if that is less than 1.  As [setTextureSizeModifier]
    caps the modifier at 2, the engine runs with a modifier of 1 or 2. *)
Theorem normalizedDPR_power_of_two (devicePixelRatio : Q) (e : WebGLEngine.t) :
  let dpr := Qceiling devicePixelRatio in
  let d := normalizedDPR devicePixelRatio in
  In d [1; 2; 4; 8; 16]%Z /\
  ((1 <= dpr)%Z -> (d <= dpr)%Z /\ ((dpr < 2 * d)%Z \/ d = 16%Z)) /\
  ((dpr < 1)%Z -> d = 1%Z) /\
  (WebGLEngine.textureSizeModifier
     (WebGLEngine.setTextureSizeModifier (inject_Z d) e) == 1 \/
   WebGLEngine.textureSizeModifier
     (WebGLEngine.setTextureSizeModifier (inject_Z d) e) == 2).
Proof.
  intros dpr d.
  assert (Hd : In d [1; 2; 4; 8; 16]%Z /\
               ((1 <= dpr)%Z -> (d <= dpr)%Z /\ ((dpr < 2 * d)%Z \/ d = 16%Z)) /\
               ((dpr < 1)%Z -> d = 1%Z)).
  { subst d. unfold normalizedDPR. fold dpr. cbn [existsb].
    destruct (Z.eqb_spec dpr 1) as [-> | N1]; [cbn; split; [tauto | lia]|].
    destruct (Z.eqb_spec dpr 2) as [-> | N2]; [cbn; split; [tauto | lia]|].
    destruct (Z.eqb_spec dpr 4) as [-> | N4]; [cbn; split; [tauto | lia]|].
    destruct (Z.eqb_spec dpr 8) as [-> | N8]; [cbn; split; [tauto | lia]|].
    destruct (Z.eqb_spec dpr 16) as [-> | N16]; [cbn; split; [tauto | lia]|].
    cbn [orb].
    destruct (Z.ltb_spec 16 dpr); [cbn; split; [tauto | lia]|].
    destruct (Z.ltb_spec 8 dpr); [cbn; split; [tauto | lia]|].
    destruct (Z.ltb_spec 4 dpr); [cbn; split; [tauto | lia]|].
    destruct (Z.ltb_spec 2 dpr); cbn; (split; [tauto | lia]). }
  destruct Hd as (Hin & H1 & H2). split; [exact Hin|].
  split; [exact H1|]. split; [exact H2|].
  unfold WebGLEngine.setTextureSizeModifier.
  match goal with
  | |- context [WebGLEngine.onResize ?x] =>
      destruct (onResize_settings x) as (_ & _ & _ & _ & -> & _)
  end.
  cbn [WebGLEngine.textureSizeModifier].
  cbn [In] in Hin.
  destruct Hin as [<- | [<- | [<- | [<- | [<- | []]]]]];
    [left | right | right | right | right]; reflexivity.
Qed.

Lemma simulationStep_counts (g : GlobalState) (s : IrisIndicator.t) :
  simulation g = true ->
  countable (segmentCounts g) ->
  let st' := simulationStep (g, s) in
  simulation (fst st') = true /\
  countable (segmentCounts (fst st')) /\
  vw (segmentCounts (fst st')) <= vw (segmentCounts g) /\
  IrisIndicator.segmentCounts (snd st') = segmentCounts (fst st') /\
  IrisIndicator.randomCalls (snd st') = S (IrisIndicator.randomCalls s) /\
  exists s1,
    snd st' = IrisIndicator.setSegmentCounts (segmentCounts (fst st')) s1.
Proof.
  intros Hsim (H0 & H1 & H2 & H3 & Hsum). unfold simulationStep.
  rewrite Hsim. cbn [negb fst snd].
  destruct (segmentCounts g) as [c0 c1 c2 c3] eqn:Ec.
  cbn [vx vy vz vw vnth vset] in *.
  set (rand := IrisIndicator.random s (IrisIndicator.randomCalls s)).
  assert (Hstep : forall counts s1,
            IrisIndicator.randomCalls s1 = S (IrisIndicator.randomCalls s) ->
            IrisIndicator.segmentCounts
              (IrisIndicator.setSegmentCounts counts s1) = counts /\
            IrisIndicator.randomCalls
              (IrisIndicator.setSegmentCounts counts s1)
            = S (IrisIndicator.randomCalls s)).
  { intros counts s1 Hs1.
    destruct (setSegmentCounts_fields counts s1) as (Hc & _).
    split; [exact Hc|]. rewrite <- Hs1.
    unfold IrisIndicator.setSegmentCounts.
    destruct (fold_left _ _ _) as [sc sum]. reflexivity. }
  destruct (JS.Qltb rand 0.3);
    [|destruct (JS.Qltb rand 0.6); [|destruct (JS.Qltb 0.9 rand)]];
    match goal with
    | |- context [IrisIndicator.setSegmentCounts ?c ?x] =>
        destruct (Hstep c x eq_refl) as [-> ->]
    end;
    unfold countable; cbn [vx vy vz vw segmentCounts simulation];
    (split; [reflexivity|]);
    (split; [repeat split; lra|]); (split; [lra|]);
    (split; [reflexivity|]); (split; [reflexivity|]);
    eexists; reflexivity.
Qed.

Lemma targets_sum (counts : Vec4 Q) (s : IrisIndicator.t) :
  countable counts ->
  let tar :=
    IrisIndicator.segmentRatiosTarget
      (IrisIndicator.setSegmentCounts counts s) in
  vx tar + vy tar + vz tar + vw tar == 1 /\
  0 <= vx tar /\ 0 <= vy tar /\ 0 <= vz tar /\ 0 <= vw tar.
Proof.
  intros (H0 & H1 & H2 & H3 & Hsum) tar. subst tar.
  destruct (setSegmentCounts_fields counts s) as (_ & -> & _).
  set (sum := 0 + vx counts + vy counts + vz counts + vw counts) in *.
  assert (Hpos : 0 < sum) by (subst sum; lra).
  assert (Hne : Qeq_bool sum 0 = false) by (apply Qeq_bool_false; lra).
  rewrite Hne. cbn [vx vy vz vw].
  split; [subst sum; field; lra|].
  repeat split; apply Qle_shift_div_l; lra.
Qed.

(** X27: the simulation of the demo page.  From counts that are not
    negative and not all zero, any number of simulation steps leaves counts
    of that kind: a step adds one element to one of the first three segments
    or starts again with one element in the first, and the fourth count never
    grows.  Each step takes one random number and hands the counts to the
    indicator, so that the target ratios add up to 1 and the case of an empty
    indicator does not come up.  With the simulation off, nothing
    changes. *)
Theorem simulation_keeps_counts (n : nat) (g : GlobalState)
    (s : IrisIndicator.t) :
  countable (segmentCounts g) ->
  let st' := simulate n (g, s) in
  (simulation g = false -> st' = (g, s)) /\
  (simulation g = true ->
   countable (segmentCounts (fst st')) /\
   vw (segmentCounts (fst st')) <= vw (segmentCounts g) /\
   IrisIndicator.randomCalls (snd st')
   = (n + IrisIndicator.randomCalls s)%nat /\
   ((0 < n)%nat ->
    let tar := IrisIndicator.segmentRatiosTarget (snd st') in
    IrisIndicator.segmentCounts (snd st') = segmentCounts (fst st') /\
    vx tar + vy tar + vz tar + vw tar == 1 /\
    0 <= vx tar /\ 0 <= vy tar /\ 0 <= vz tar /\ 0 <= vw tar)).
Proof.
  intros Hcount st'. split.
  - intros Hoff. subst st'. induction n as [ | n IH]; [reflexivity|].
    cbn [simulate]. unfold simulationStep at 1. rewrite Hoff. exact IH.
  - intros Hon. subst st'. revert g s Hcount Hon.
    induction n as [ | n IH]; intros g s Hcount Hon.
    + cbn [simulate fst snd]. split; [exact Hcount|].
      split; [apply Qle_refl|].
      split; [reflexivity | lia].
    + cbn [simulate].
      pose proof (simulationStep_counts g s Hon Hcount) as Hstep.
      cbv zeta in Hstep.
      destruct (simulationStep (g, s)) as [g1 s1] eqn:E1.
      cbn [fst snd] in Hstep.
      destruct Hstep as (Hon1 & Hcount1 & Hw1 & Hc1 & Hcalls1 & s0 & Hs0).
      destruct (IH g1 s1 Hcount1 Hon1) as (Hcount' & Hw' & Hcalls' & Hlater).
      split; [exact Hcount'|]. split; [exact (Qle_trans _ _ _ Hw' Hw1)|].
      split; [rewrite Hcalls', Hcalls1; apply Nat.add_succ_r|].
      intros _. destruct n as [ | n].
      * cbn [simulate fst snd]. split; [exact Hc1|].
        rewrite Hs0. apply targets_sum. exact Hcount1.
      * apply Hlater. lia.
Qed.

Lemma simulation_keeps_counts_witness :
  let st' := simulate 5 (sampleGlobalState, sampleIndicator) in
  countable (segmentCounts (fst st')) /\
  vw (segmentCounts (fst st')) <= 0 /\
  IrisIndicator.segmentCounts (snd st') = segmentCounts (fst st').
Proof.
  intros st'.
  assert (Hcount : countable (segmentCounts sampleGlobalState))
    by (vm_compute; repeat split; discriminate).
  pose proof (simulation_keeps_counts 5 sampleGlobalState sampleIndicator
                Hcount) as H.
  cbv zeta in H. destruct H as [_ H].
  destruct (H eq_refl) as (H1 & H2 & _ & H3).
  split; [exact H1|]. split; [exact H2|].
  apply H3. lia.
Defined.
End Demo.
